(** * File sharing between a server and a client: protocol model

    A shallow embedding of [server.cpp] and [client.cpp]: the XOR codec
    both programs share, the message channel built on one [recv]/[send]
    per message, the server's session loop [handle_client] and the
    client's command loop with [handleList], [handleDownload] and
    [handleUpload].

    Every blocking point of the two programs is a [recv]; each program is
    therefore written as a machine whose control states are its [recv]
    call sites and whose step consumes what that one [recv] delivers.

    Outside the model: thread creation and socket set-up in [main],
    failures of [send] on an open connection, exceptions (the storage
    directories exist, as [main] ensures), and whatever the file system
    holds outside the two storage directories. *)

From Stdlib Require Import Ascii String.
From Stdlib Require Import List Bool Arith NArith ZArith Lia.
From Stdlib Require Decimal DecimalFacts DecimalString DecimalPos.
From Stdlib Require Import Permutation Relations.
Import ListNotations.

Local Open Scope list_scope.

(** ** Bytes and [std::string] values *)

(** A [std::string] is a sequence of 8-bit [char]s, embedded NULs
    included. *)
Definition byte := ascii.
Definition bytes := list byte.

Definition bytes_eq_dec : forall a b : bytes, {a = b} + {a <> b} :=
  list_eq_dec ascii_dec.

Definition beq (a b : bytes) : bool :=
  if bytes_eq_dec a b then true else false.

(** A string literal of the source. *)
Definition lit (s : string) : bytes := list_ascii_of_string s.
Arguments lit s%_string.

Definition NUL : byte := Ascii.zero.

Definition is_empty (s : bytes) : bool :=
  match s with [] => true | _ :: _ => false end.

(** ** Configuration *)

Definition BUFFER_SIZE : nat := 4096.
Definition ENCRYPTION_KEY : bytes := lit "mysecretkey".

(** ** 64-bit integers

    [long long] values are integers in [LLONG_MIN, LLONG_MAX]; sums and
    differences are reduced to that range (two's complement). *)
Definition LLONG_MAX : Z := 9223372036854775807.
Definition LLONG_MIN : Z := -9223372036854775808.

Definition wrap64 (z : Z) : Z :=
  ((z - LLONG_MIN) mod 18446744073709551616 + LLONG_MIN)%Z.

Definition ll_add (a b : Z) : Z := wrap64 (a + b).
Definition ll_sub (a b : Z) : Z := wrap64 (a - b).

(** [chunk.substr(0, n)] for a [long long n]: the count is converted to
    [size_t]. *)
Definition substr0 (s : bytes) (n : Z) : bytes :=
  firstn (Z.to_nat (n mod 18446744073709551616)) s.

(** [chunk.length()] converted to [long long]. *)
Definition ll_length (s : bytes) : Z := wrap64 (Z.of_nat (length s)).

(** ** Obfuscation codec *)

(** [a ^ b] on [char]. *)
Definition xor_byte (a b : byte) : byte :=
  match a, b with
  | Ascii a0 a1 a2 a3 a4 a5 a6 a7, Ascii b0 b1 b2 b3 b4 b5 b6 b7 =>
      Ascii (xorb a0 b0) (xorb a1 b1) (xorb a2 b2) (xorb a3 b3)
            (xorb a4 b4) (xorb a5 b5) (xorb a6 b6) (xorb a7 b7)
  end.

(** [ENCRYPTION_KEY[i]]. *)
Definition key_at (i : nat) : byte := nth i ENCRYPTION_KEY NUL.

(** The body of the [for] loop of [encryptDecrypt], from index [i] on. *)
Fixpoint xor_from (i : nat) (data : bytes) : bytes :=
  match data with
  | [] => []
  | c :: rest =>
      xor_byte c (key_at (i mod length ENCRYPTION_KEY)) :: xor_from (S i) rest
  end.

Definition encryptDecrypt (data : bytes) : bytes := xor_from 0 data.

(** ** Text: [std::stringstream], [std::to_string] *)

Definition NL : bytes := ["010"%char].

(** [isspace] in the "C" locale: space, and [\t \n \v \f \r]. *)
Definition isspace (c : byte) : bool :=
  let n := N_of_ascii c in
  (n =? 32)%N || ((9 <=? n)%N && (n <=? 13)%N).

Definition isdigit (c : byte) : bool :=
  let n := N_of_ascii c in (48 <=? n)%N && (n <=? 57)%N.

(** An input string stream: the characters not yet read, and whether an
    earlier extraction failed (after which every extraction is a no-op). *)
Record istream := mk_istream { unread : bytes; failed : bool }.

Definition stringstream (s : bytes) : istream :=
  {| unread := s; failed := false |}.

Fixpoint skip_ws (s : bytes) : bytes :=
  match s with
  | c :: rest => if isspace c then skip_ws rest else s
  | [] => []
  end.

(** The longest prefix without whitespace, and what follows it. *)
Fixpoint span_word (s : bytes) : bytes * bytes :=
  match s with
  | [] => ([], [])
  | c :: rest =>
      if isspace c then ([], s)
      else let (w, r) := span_word rest in (c :: w, r)
  end.

Fixpoint span_digits (s : bytes) : bytes * bytes :=
  match s with
  | [] => ([], [])
  | c :: rest =>
      if isdigit c then let (w, r) := span_digits rest in (c :: w, r)
      else ([], s)
  end.

(** [ss >> str] into a default-constructed [std::string]: leading
    whitespace is skipped and one word extracted; at end of input the
    stream fails and the string stays empty. *)
Definition get_word (ss : istream) : bytes * istream :=
  if failed ss then ([], ss)
  else match skip_ws (unread ss) with
       | [] => ([], {| unread := []; failed := true |})
       | s => let (w, r) := span_word s in
              (w, {| unread := r; failed := false |})
       end.

Definition digit_value (c : byte) : Z := (Z.of_N (N_of_ascii c) - 48)%Z.

Definition decimal_value (ds : bytes) : Z :=
  fold_left (fun acc c => (acc * 10 + digit_value c)%Z) ds 0%Z.

(** [ss >> n] for a [long long n], always the last extraction from its
    stream.  [None]: nothing is stored in [n] (the stream had already
    failed, or only whitespace is left).  Otherwise an optional sign and
    the longest run of decimal digits are read; no digit stores 0, a value
    out of range stores the nearest bound. *)
Definition get_ll (ss : istream) : option Z :=
  if failed ss then None
  else match skip_ws (unread ss) with
       | [] => None
       | c :: rest =>
           let '(negative, body) :=
             if Ascii.eqb c "-" then (true, rest)
             else if Ascii.eqb c "+" then (false, rest)
             else (false, c :: rest) in
           let v := decimal_value (fst (span_digits body)) in
           Some (if negative
                 then (if (- v <? LLONG_MIN)%Z then LLONG_MIN else - v)%Z
                 else (if (LLONG_MAX <? v)%Z then LLONG_MAX else v))
       end.

(** [std::to_string] of a signed 64-bit integer. *)
Definition to_string (z : Z) : bytes :=
  list_ascii_of_string (DecimalString.NilZero.string_of_int (Z.to_int z)).

(** ** Files

    Each program keeps its files in one directory ([server_files],
    [client_files]) and opens them as [DIR + "/" + name].  The model is of
    a directory that holds regular files only, each under one name and
    each readable: [entries] lists it in iteration order, and [read_only]
    names the entries that cannot be opened for writing.  What lies
    outside the directory is not part of the store. *)
Record FS := mk_FS { entries : list (bytes * bytes); read_only : list bytes }.

Fixpoint lookup (name : bytes) (l : list (bytes * bytes)) : option bytes :=
  match l with
  | [] => None
  | (n, d) :: rest => if beq n name then Some d else lookup name rest
  end.

Fixpoint store (name data : bytes) (l : list (bytes * bytes))
  : list (bytes * bytes) :=
  match l with
  | [] => [(name, data)]
  | (n, d) :: rest =>
      if beq n name then (n, data) :: rest else (n, d) :: store name data rest
  end.

(** *** Where a name leads

    The streams are opened on [path.c_str()], so the name ends at its
    first NUL, and the system resolves it as a path from the directory:
    component by component, [.] and empty components staying in place and
    [..] going up. *)
Fixpoint c_str (s : bytes) : bytes :=
  match s with
  | [] => []
  | c :: rest => if Ascii.eqb c NUL then [] else c :: c_str rest
  end.

(** The components of a path: what stands between its slashes. *)
Fixpoint components_from (current path : bytes) : list bytes :=
  match path with
  | [] => [current]
  | c :: rest =>
      if Ascii.eqb c "/" then current :: components_from [] rest
      else components_from (current ++ [c]) rest
  end.

Definition components (path : bytes) : list bytes := components_from [] path.

(** The limits of the system: an entry's name has at most [NAME_MAX]
    bytes, a path fewer than [PATH_MAX]. *)
Definition NAME_MAX : nat := 255.
Definition PATH_MAX : nat := 4096.

(** [DIR + "/" + name] is 13 bytes longer than the name, for either
    directory. *)
Definition path_length (name : bytes) : nat :=
  length (lit "server_files/") + length name.

Inductive place :=
| TheDirectory
    (** the directory itself *)
| Above
    (** a directory above it *)
| Entry (name : bytes)
    (** the entry [name] of the directory, present or not *)
| Nowhere
    (** nothing can be opened there: the path runs through an entry (the
        directory has no subdirectories) or is too long *)
| Beyond.
    (** something outside the directory *)

(** One component further. *)
Definition enter (p : place) (component : bytes) : place :=
  if is_empty component || beq component (lit ".") then
    match p with Entry _ => Nowhere | _ => p end
  else if beq component (lit "..") then
    match p with
    | TheDirectory | Above => Above
    | Entry _ => Nowhere
    | _ => p
    end
  else
    match p with
    | TheDirectory =>
        if NAME_MAX <? length component then Nowhere else Entry component
    | Above => Beyond
    | Entry _ => Nowhere
    | _ => p
    end.

Definition locate (name : bytes) : place :=
  let path := c_str name in
  if PATH_MAX <=? path_length path then Nowhere
  else fold_left enter (components path) TheDirectory.

(** The name leads to a directory. *)
Definition names_directory (name : bytes) : bool :=
  match locate name with
  | TheDirectory | Above => true
  | _ => false
  end.

(** *** Streams *)

(** [std::ifstream file(path, binary | ate)] on a regular file: the
    contents when it opens.  Nothing outside the directory opens. *)
Definition open_read (fs : FS) (name : bytes) : option bytes :=
  match locate name with
  | Entry key => lookup key (entries fs)
  | _ => None
  end.

(** [std::ofstream out(path, binary)]: the file is created or truncated.
    A directory does not open for writing. *)
Definition open_write (fs : FS) (name : bytes) : option FS :=
  match locate name with
  | Entry key =>
      if existsb (beq key) (read_only fs) then None
      else Some {| entries := store key [] (entries fs);
                   read_only := read_only fs |}
  | _ => None
  end.

(** [out.write(data, n)] on the stream opened on [name]. *)
Definition write (fs : FS) (name data : bytes) : FS :=
  match locate name with
  | Entry key =>
      match lookup key (entries fs) with
      | Some old => {| entries := store key (old ++ data) (entries fs);
                       read_only := read_only fs |}
      | None => fs
      end
  | _ => fs
  end.

(** [file.tellg()] after opening at the end. *)
Definition tellg_end (content : bytes) : Z := wrap64 (Z.of_nat (length content)).

(** An [ifstream] also opens on a directory.  Opened at the end, its
    [tellg()] is then the largest offset (as on Linux with ext4), and no
    [read] delivers anything. *)
Definition tellg_end_of_directory : Z := LLONG_MAX.

(** The blocks delivered by
    [while (file.read(buf, n) || file.gcount() > 0)]: [n] bytes each, the
    last one shorter, none empty. *)
Fixpoint read_blocks_from (fuel n : nat) (content : bytes) : list bytes :=
  match fuel with
  | 0 => []
  | S fuel' =>
      match content with
      | [] => []
      | _ :: _ => firstn n content :: read_blocks_from fuel' n (skipn n content)
      end
  end.

Definition read_blocks (n : nat) (content : bytes) : list bytes :=
  read_blocks_from (length content) n content.

(** ** Message channel

    What a program does to the outside: it hands bytes to [send], or
    writes text to its console. *)
Inductive event :=
| Send (wire : bytes)
| Out (text : bytes)
| Err (text : bytes).

(** [recv(sock, buffer, BUFFER_SIZE, 0)] copies at most [BUFFER_SIZE] of
    the bytes the socket has available; [avail = []] stands for a closed
    connection or an error ([bytesReceived <= 0]).  [receiveCommand] of the
    server and [receiveResponse] of the client are the same function. *)
Definition receive (avail : bytes) : bytes :=
  let buffer := firstn BUFFER_SIZE avail in
  if is_empty buffer then [] else encryptDecrypt buffer.

(** [sendResponse] of the server and [sendCommand] of the client: the
    event produced; the call returns [bytesSent > 0]. *)
Definition send_message (message : bytes) : event :=
  Send (encryptDecrypt message).

Definition send_ok (message : bytes) : bool := negb (is_empty message).

(** * The server *)

Module Server.

(** [VALID_USERS]: a [std::map], here its key-value pairs. *)
Definition VALID_USERS : list (bytes * bytes) :=
  [ (lit "user", lit "pass123"); (lit "admin", lit "adminpass") ].

(** [VALID_USERS.count(user) && VALID_USERS[user] == pass]. *)
Definition authenticate (user pass : bytes) : bool :=
  match lookup user VALID_USERS with
  | Some stored => beq stored pass
  | None => false
  end.

Definition log (message : bytes) : event :=
  Out (lit "[SERVER] " ++ message ++ NL).

(** The [recv] call sites of [handle_client]. *)
Inductive control :=
| AwaitCommand
    (** [receiveCommand] at the head of the session loop *)
| AwaitStart (filename file : bytes)
    (** DOWNLOAD, waiting for the readiness token; [file] is what the open
        [ifstream] will deliver *)
| UploadReceiving (filename : bytes) (fileSize bytesReceived : Z)
    (** UPLOAD, inside [while (bytesReceived < fileSize)] *)
| Closed.
    (** after [CLOSE_SOCKET] *)

Record state := mk_state {
  pc : control;
  isAuthenticated : bool;
  files : FS
}.

Definition initial (fs : FS) : state :=
  {| pc := AwaitCommand; isAuthenticated := false; files := fs |}.

(** Leaving the session loop. *)
Definition close_session (st : state) (evs : list event)
  : state * list event :=
  ({| pc := Closed; isAuthenticated := isAuthenticated st; files := files st |},
   evs ++ [log (lit "Client connection closed.")]).

(** [continue], or the end of an iteration. *)
Definition next_command (st : state) (fs : FS) (evs : list event)
  : state * list event :=
  ({| pc := AwaitCommand; isAuthenticated := isAuthenticated st; files := fs |},
   evs).

(** [isAuthenticated = true]. *)
Definition authenticated (st : state) : state :=
  {| pc := pc st; isAuthenticated := true; files := files st |}.

(** The LIST reply. *)
Definition file_list (fs : FS) : bytes :=
  fold_left (fun fileList entry => fileList ++ fst entry ++ NL)
            (entries fs) (lit "Files on server:" ++ NL).

(** After the receive loop of UPLOAD: [outFile.close()] and the verdict. *)
Definition upload_finish (st : state) (fs : FS) (filename : bytes)
           (fileSize bytesReceived : Z) (evs : list event)
  : state * list event :=
  if (bytesReceived =? fileSize)%Z
  then next_command st fs
         (evs ++ [log (lit "Successfully received " ++ filename);
                  send_message (lit "UPLOAD_SUCCESS")])
  else next_command st fs
         (evs ++ [log (lit "Upload failed for " ++ filename
                       ++ lit ". Incomplete data.");
                  send_message (lit "ERROR Upload incomplete.")]).

(** The test of [while (bytesReceived < fileSize)]. *)
Definition upload_while (st : state) (fs : FS) (filename : bytes)
           (fileSize bytesReceived : Z) (evs : list event)
  : state * list event :=
  if (bytesReceived <? fileSize)%Z
  then ({| pc := UploadReceiving filename fileSize bytesReceived;
           isAuthenticated := isAuthenticated st; files := fs |}, evs)
  else upload_finish st fs filename fileSize bytesReceived evs.

Section Step.

(** The value an uninitialised [long long fileSize] happens to hold when
    the UPLOAD command carries no size. *)
Variable indeterminate : Z.

(** The commands of an authenticated session. *)
Definition dispatch (st : state) (command : bytes) (ss : istream)
           (evs : list event) : state * list event :=
  let fs := files st in
  if beq command (lit "LIST") then
    next_command st fs (evs ++ [send_message (file_list fs)])
  else if beq command (lit "DOWNLOAD") then
    let (filename, _) := get_word ss in
    match open_read fs filename with
    | Some file =>
        ({| pc := AwaitStart filename file;
            isAuthenticated := isAuthenticated st; files := fs |},
         evs ++ [send_message
                   (lit "OK_DOWNLOAD " ++ to_string (tellg_end file))])
    | None =>
        if names_directory filename then
          ({| pc := AwaitStart filename [];
              isAuthenticated := isAuthenticated st; files := fs |},
           evs ++ [send_message
                     (lit "OK_DOWNLOAD " ++ to_string tellg_end_of_directory)])
        else
          next_command st fs
            (evs ++ [send_message (lit "ERROR File not found.")])
    end
  else if beq command (lit "UPLOAD") then
    let (filename, ss1) := get_word ss in
    let fileSize :=
      match get_ll ss1 with Some n => n | None => indeterminate end in
    match open_write fs filename with
    | None =>
        next_command st fs
          (evs ++ [send_message (lit "ERROR Cannot create file.")])
    | Some fs1 =>
        upload_while st fs1 filename fileSize 0
          (evs ++ [send_message (lit "OK_UPLOAD")])
    end
  else if beq command (lit "QUIT") then
    close_session st
      (evs ++ [log (lit "Client sent QUIT. Disconnecting.")])
  else
    next_command st fs (evs ++ [send_message (lit "ERROR Unknown command.")]).

(** One iteration of [while (true)] in [handle_client]. *)
Definition on_command (st : state) (avail : bytes) : state * list event :=
  let cmd := receive avail in
  if is_empty cmd then
    close_session st [log (lit "Client disconnected abruptly.")]
  else
    let evs := [log (lit "Received command: " ++ cmd)] in
    let (command, ss) := get_word (stringstream cmd) in
    if negb (isAuthenticated st) then
      if beq command (lit "AUTH") then
        let (user, ss1) := get_word ss in
        let (pass, _) := get_word ss1 in
        if authenticate user pass then
          next_command (authenticated st) (files st)
            (evs ++ [send_message (lit "AUTH_SUCCESS");
                     log (lit "User '" ++ user ++ lit "' authenticated.")])
        else
          next_command st (files st)
            (evs ++ [send_message (lit "AUTH_FAIL");
                     log (lit "Failed auth attempt for user '" ++ user
                          ++ lit "'.")])
      else
        next_command st (files st)
          (evs ++ [send_message (lit "ERROR Authentication required.")])
    else dispatch st command ss evs.

(** DOWNLOAD after the size was announced: the readiness check, then the
    streaming loop and the sentinel. *)
Definition on_start (st : state) (filename file avail : bytes)
  : state * list event :=
  if negb (beq (receive avail) (lit "START")) then
    next_command st (files st) [log (lit "Client did not start transfer.")]
  else
    next_command st (files st)
      (map send_message (read_blocks BUFFER_SIZE file)
       ++ [log (lit "Finished sending " ++ filename);
           send_message (lit "DOWNLOAD_DONE")]).

(** One iteration of the receive loop of UPLOAD. *)
Definition on_upload_chunk (st : state) (filename : bytes)
           (fileSize bytesReceived : Z) (avail : bytes)
  : state * list event :=
  let chunk := receive avail in
  if is_empty chunk then
    upload_finish st (files st) filename fileSize bytesReceived
      [log (lit "Upload failed: Client disconnected.")]
  else
    upload_while st (write (files st) filename chunk) filename fileSize
      (ll_add bytesReceived (Z.of_nat (length chunk))) [].

(** [handle_client], resumed with what its pending [recv] delivers. *)
Definition step (st : state) (avail : bytes) : state * list event :=
  match pc st with
  | AwaitCommand => on_command st avail
  | AwaitStart filename file => on_start st filename file avail
  | UploadReceiving filename fileSize bytesReceived =>
      on_upload_chunk st filename fileSize bytesReceived avail
  | Closed => (st, [])
  end.

(** The session over a sequence of reads. *)
Fixpoint run (st : state) (reads : list bytes) : state * list event :=
  match reads with
  | [] => (st, [])
  | avail :: rest =>
      let (st1, evs1) := step st avail in
      let (st2, evs2) := run st1 rest in
      (st2, evs1 ++ evs2)
  end.

End Step.

End Server.

(** * The client *)

Module Client.

Definition CLIENT_FILES_DIR : bytes := lit "client_files".

(** The [recv] call sites of the client after authentication, and the
    [getline] of its command loop. *)
Inductive control :=
| Prompt
    (** [std::getline] in the command loop *)
| ListAwaitReply
    (** [handleList] *)
| DownloadAwaitReply (filename : bytes)
    (** [handleDownload], first [receiveResponse] *)
| DownloadReceiving (filename : bytes) (fileSize bytesReceived : Z)
    (** [handleDownload], inside [while (bytesReceived < fileSize)] *)
| DownloadAwaitDone
    (** [handleDownload], waiting for the final signal *)
| UploadAwaitOk (filename file : bytes) (fileSize : Z)
    (** [handleUpload], waiting for the server's go-ahead *)
| UploadAwaitResult
    (** [handleUpload], waiting for the final confirmation *)
| Exited.

Record state := mk_state { pc : control; files : FS }.

Definition at_prompt (fs : FS) (evs : list event) : state * list event :=
  ({| pc := Prompt; files := fs |}, evs).

Definition filepath (filename : bytes) : bytes :=
  CLIENT_FILES_DIR ++ lit "/" ++ filename.

(** The sending loop of [handleUpload]; [false] when a [sendCommand]
    reports failure and the function returns early. *)
Fixpoint send_blocks (blocks : list bytes) (evs : list event)
  : bool * list event :=
  match blocks with
  | [] => (true, evs)
  | chunk :: rest =>
      if negb (send_ok chunk) then
        (false, evs ++ [send_message chunk;
                        Err (lit "[-] Error: Connection lost during upload." ++ NL)])
      else send_blocks rest (evs ++ [send_message chunk])
  end.

(** [handleUpload] up to its first [receiveResponse]. *)
Definition handleUpload (fs : FS) (filename : bytes) (evs : list event)
  : state * list event :=
  match open_read fs filename with
  | None =>
      if names_directory filename then
        ({| pc := UploadAwaitOk filename [] tellg_end_of_directory; files := fs |},
         evs ++ [send_message (lit "UPLOAD " ++ filename ++ lit " "
                               ++ to_string tellg_end_of_directory)])
      else
        at_prompt fs
          (evs ++ [Err (lit "[-] Error: File not found in 'client_files' directory: "
                        ++ filename ++ NL)])
  | Some file =>
      let fileSize := tellg_end file in
      ({| pc := UploadAwaitOk filename file fileSize; files := fs |},
       evs ++ [send_message (lit "UPLOAD " ++ filename ++ lit " "
                             ++ to_string fileSize)])
  end.

(** One iteration of the command loop, given the line [getline] read. *)
Definition command_line (st : state) (line : bytes) : state * list event :=
  let evs := [Out (NL ++ lit "(list, upload [file], download [file], quit)"
                   ++ NL ++ lit "> ")] in
  let (command, ss) := get_word (stringstream line) in
  if is_empty command then at_prompt (files st) evs
  else if beq command (lit "list") then
    ({| pc := ListAwaitReply; files := files st |},
     evs ++ [send_message (lit "LIST")])
  else if beq command (lit "download") then
    let (filename, _) := get_word ss in
    if is_empty filename then
      at_prompt (files st) (evs ++ [Out (lit "Usage: download [filename]" ++ NL)])
    else
      ({| pc := DownloadAwaitReply filename; files := files st |},
       evs ++ [send_message (lit "DOWNLOAD " ++ filename)])
  else if beq command (lit "upload") then
    let (filename, _) := get_word ss in
    if is_empty filename then
      at_prompt (files st) (evs ++ [Out (lit "Usage: upload [filename]" ++ NL)])
    else handleUpload (files st) filename evs
  else if beq command (lit "quit") then
    ({| pc := Exited; files := files st |}, evs ++ [send_message (lit "QUIT")])
  else
    at_prompt (files st) (evs ++ [Out (lit "[-] Unknown command." ++ NL)]).

(** [handleDownload] after its receive loop: [outFile.close()] and the
    verdict. *)
Definition download_finish (fs : FS) (filename : bytes)
           (fileSize bytesReceived : Z) (evs : list event)
  : state * list event :=
  if (fileSize <=? bytesReceived)%Z then
    ({| pc := DownloadAwaitDone; files := fs |},
     evs ++ [Out (lit "[+] Download complete: " ++ filepath filename ++ NL)])
  else
    at_prompt fs (evs ++ [Err (lit "[-] Download failed. Incomplete file." ++ NL)]).

(** "Ensure we don't write more bytes than expected": the count to write
    and the chunk, cut when the total would pass [fileSize]. *)
Definition clip (fileSize bytesReceived : Z) (chunk : bytes) : Z * bytes :=
  let bytesToWrite := ll_length chunk in
  if (fileSize <? ll_add bytesReceived bytesToWrite)%Z then
    let bytesToWrite := ll_sub fileSize bytesReceived in
    (bytesToWrite, substr0 chunk bytesToWrite)
  else (bytesToWrite, chunk).

(** The test of [while (bytesReceived < fileSize)]. *)
Definition download_while (fs : FS) (filename : bytes)
           (fileSize bytesReceived : Z) (evs : list event)
  : state * list event :=
  if (bytesReceived <? fileSize)%Z
  then ({| pc := DownloadReceiving filename fileSize bytesReceived;
           files := fs |}, evs)
  else download_finish fs filename fileSize bytesReceived evs.

Section Step.

(** The value an uninitialised [long long fileSize] happens to hold when
    the OK_DOWNLOAD reply carries no size. *)
Variable indeterminate : Z.

(** [handleDownload] from its first [receiveResponse] to the receive
    loop. *)
Definition on_download_reply (st : state) (filename avail : bytes)
  : state * list event :=
  let response := receive avail in
  let (command, ss) := get_word (stringstream response) in
  if beq command (lit "OK_DOWNLOAD") then
    let fileSize :=
      match get_ll ss with Some n => n | None => indeterminate end in
    let evs := [Out (lit "[+] Server OK. File size: " ++ to_string fileSize
                     ++ lit " bytes." ++ NL)] in
    match open_write (files st) filename with
    | None =>
        at_prompt (files st)
          (evs ++ [Err (lit "[-] Error: Could not open file for writing: "
                        ++ filepath filename ++ NL);
                   send_message (lit "CANCEL")])
    | Some fs1 =>
        download_while fs1 filename fileSize 0
          (evs ++ [send_message (lit "START");
                   Out (lit "[+] Downloading " ++ filename ++ lit "..." ++ NL)])
    end
  else
    at_prompt (files st) [Out (lit "[-] Server error: " ++ response ++ NL)].

(** One iteration of the receive loop of [handleDownload]. *)
Definition on_download_chunk (st : state) (filename : bytes)
           (fileSize bytesReceived : Z) (avail : bytes)
  : state * list event :=
  let chunk := receive avail in
  if is_empty chunk then
    download_finish (files st) filename fileSize bytesReceived
      [Err (lit "[-] Error: Connection lost during download." ++ NL)]
  else
    let (bytesToWrite, chunk) := clip fileSize bytesReceived chunk in
    download_while
      (write (files st) filename (firstn (Z.to_nat bytesToWrite) chunk))
      filename fileSize (ll_add bytesReceived bytesToWrite) [].

(** The final signal of a download. *)
Definition on_download_done (st : state) (avail : bytes)
  : state * list event :=
  let done_signal := receive avail in
  if negb (beq done_signal (lit "DOWNLOAD_DONE")) then
    at_prompt (files st)
      [Out (lit "[+] Warning: Did not receive final DONE signal. Got: "
            ++ done_signal ++ NL)]
  else at_prompt (files st) [].

(** [handleUpload] from the server's go-ahead to the final confirmation. *)
Definition on_upload_ok (st : state) (filename file : bytes) (fileSize : Z)
           (avail : bytes) : state * list event :=
  let response := receive avail in
  if negb (beq response (lit "OK_UPLOAD")) then
    at_prompt (files st) [Err (lit "[-] Server error: " ++ response ++ NL)]
  else
    let evs := [Out (lit "[+] Uploading " ++ filename ++ lit " ("
                     ++ to_string fileSize ++ lit " bytes)..." ++ NL)] in
    let (sent, evs1) := send_blocks (read_blocks (BUFFER_SIZE / 2) file) evs in
    if sent then ({| pc := UploadAwaitResult; files := files st |}, evs1)
    else at_prompt (files st) evs1.

(** The client, resumed with what its pending [recv] delivers. *)
Definition step (st : state) (avail : bytes) : state * list event :=
  match pc st with
  | Prompt | Exited => (st, [])
  | ListAwaitReply => at_prompt (files st) [Out (receive avail ++ NL)]
  | DownloadAwaitReply filename => on_download_reply st filename avail
  | DownloadReceiving filename fileSize bytesReceived =>
      on_download_chunk st filename fileSize bytesReceived avail
  | DownloadAwaitDone => on_download_done st avail
  | UploadAwaitOk filename file fileSize =>
      on_upload_ok st filename file fileSize avail
  | UploadAwaitResult =>
      at_prompt (files st) [Out (lit "[+] Server response: " ++ receive avail ++ NL)]
  end.

(** A download receiver over a sequence of reads. *)
Fixpoint run (st : state) (reads : list bytes) : state * list event :=
  match reads with
  | [] => (st, [])
  | avail :: rest =>
      let (st1, evs1) := step st avail in
      let (st2, evs2) := run st1 rest in
      (st2, evs1 ++ evs2)
  end.

End Step.

End Client.

(** * The client's authentication loop *)

Module Login.

(** One iteration of [while (!isAuthenticated)] in the client's [main],
    for the two lines [getline] read: the prompts and the AUTH command. *)
Definition attempt (user pass : bytes) : list event :=
  [Out (lit "Username: "); Out (lit "Password: ");
   send_message (lit "AUTH " ++ user ++ lit " " ++ pass)].

(** The rest of the iteration: the new value of [isAuthenticated] and
    what is printed. *)
Definition on_reply (avail : bytes) : bool * list event :=
  let response := receive avail in
  if beq response (lit "AUTH_SUCCESS") then
    (true, [Out (lit "[+] Authentication successful!" ++ NL)])
  else
    (false, [Out (lit "[-] Authentication failed. Please try again." ++ NL)]).

End Login.

(** * Client and server on one connection

    The connection is a pair of queues of sent messages.  A [recv] blocks
    while its queue is empty, reads from the message at the head, and
    leaves there whatever did not fit its buffer.  A [send] of no bytes
    transmits nothing. *)

Inductive party := TheClient | TheServer.

Fixpoint transmitted (evs : list event) : list bytes :=
  match evs with
  | [] => []
  | Send wire :: rest =>
      if is_empty wire then transmitted rest else wire :: transmitted rest
  | _ :: rest => transmitted rest
  end.

Definition after_read (segment : bytes) (queue : list bytes) : list bytes :=
  match skipn BUFFER_SIZE segment with
  | [] => queue
  | unread => unread :: queue
  end.

Record system := mk_system {
  client : Client.state;
  server : Server.state;
  stdin : list bytes;        (** the lines the user types *)
  to_server : list bytes;
  to_client : list bytes;
  history : list (party * event)
}.

Section Connection.

Variables client_indeterminate server_indeterminate : Z.

Definition server_reads (s : system) (avail : bytes) (queue : list bytes)
  : system :=
  let (st, evs) := Server.step server_indeterminate (server s) avail in
  {| client := client s; server := st; stdin := stdin s;
     to_server := queue;
     to_client := to_client s ++ transmitted evs;
     history := history s ++ map (pair TheServer) evs |}.

Definition client_reads (s : system) (avail : bytes) (queue : list bytes)
  : system :=
  let (st, evs) := Client.step client_indeterminate (client s) avail in
  {| client := st; server := server s; stdin := stdin s;
     to_server := to_server s ++ transmitted evs;
     to_client := queue;
     history := history s ++ map (pair TheClient) evs |}.

Definition client_types (s : system) (line : bytes) (rest : list bytes)
  : system :=
  let (st, evs) := Client.command_line (client s) line in
  {| client := st; server := server s; stdin := rest;
     to_server := to_server s ++ transmitted evs;
     to_client := to_client s;
     history := history s ++ map (pair TheClient) evs |}.

Definition server_turn (s : system) : option system :=
  match Server.pc (server s) with
  | Server.Closed => None
  | _ =>
      match to_server s with
      | segment :: queue =>
          Some (server_reads s segment (after_read segment queue))
      | [] =>
          match Client.pc (client s) with
          | Client.Exited => Some (server_reads s [] [])
          | _ => None
          end
      end
  end.

Definition client_turn (s : system) : option system :=
  match Client.pc (client s) with
  | Client.Exited => None
  | Client.Prompt =>
      match stdin s with
      | line :: rest => Some (client_types s line rest)
      | [] => None
      end
  | _ =>
      match to_client s with
      | segment :: queue =>
          Some (client_reads s segment (after_read segment queue))
      | [] =>
          match Server.pc (server s) with
          | Server.Closed => Some (client_reads s [] [])
          | _ => None
          end
      end
  end.

(** One scheduling step: a program that can go on does; the server is
    served first.  Each program reads one queue only and blocks on it, so
    the order in which the two are served does not change what either of
    them receives. *)
Definition sys_step (s : system) : option system :=
  match server_turn s with
  | Some s1 => Some s1
  | None => client_turn s
  end.

Fixpoint sys_run (fuel : nat) (s : system) : system :=
  match fuel with
  | 0 => s
  | S fuel' =>
      match sys_step s with
      | Some s1 => sys_run fuel' s1
      | None => s
      end
  end.

(** [s1] is reached from [s] in some number of steps. *)
Definition reaches : system -> system -> Prop :=
  clos_refl_trans_1n system (fun a b => sys_step a = Some b).

(** [s] runs to [s1], where both programs wait. *)
Definition runs_to (s s1 : system) : Prop :=
  reaches s s1 /\ sys_step s1 = None.

End Connection.

(** An authenticated session at rest, with [lines] still to be typed. *)
Definition session (cfs sfs : FS) (lines : list bytes) : system :=
  {| client := {| Client.pc := Client.Prompt; Client.files := cfs |};
     server := {| Server.pc := Server.AwaitCommand;
                  Server.isAuthenticated := true; Server.files := sfs |};
     stdin := lines; to_server := []; to_client := []; history := [] |}.

(** What each side has sent and printed so far. *)
Definition sent_by (who : party) (s : system) : list bytes :=
  transmitted
    (map snd (filter (fun e => match fst e, who with
                               | TheClient, TheClient
                               | TheServer, TheServer => true
                               | _, _ => false
                               end) (history s))).

(** * Vocabulary of the statements *)

(** What the file [name] holds. *)
Definition content_of (fs : FS) (name : bytes) : option bytes :=
  match locate name with
  | Entry key => lookup key (entries fs)
  | _ => None
  end.

(** All the bytes a sequence of reads delivers. *)
Definition received (reads : list bytes) : bytes :=
  concat (map receive reads).

Definition total_length (blocks : list bytes) : Z :=
  Z.of_nat (length (concat blocks)).

(** The server inside the receive loop of an upload, and awaiting a
    command. *)
Definition receiving (filename : bytes) (fileSize : Z)
           (auth : bool) (fs : FS) (bytesReceived : Z) : Server.state :=
  {| Server.pc := Server.UploadReceiving filename fileSize bytesReceived;
     Server.isAuthenticated := auth; Server.files := fs |}.

Definition awaiting (auth : bool) (fs : FS) : Server.state :=
  {| Server.pc := Server.AwaitCommand;
     Server.isAuthenticated := auth; Server.files := fs |}.

(** The client inside the receive loop of a download. *)
Definition downloading (filename : bytes) (fileSize : Z)
           (fs : FS) (bytesReceived : Z) : Client.state :=
  {| Client.pc := Client.DownloadReceiving filename fileSize bytesReceived;
     Client.files := fs |}.

(** What an unauthenticated session turns down: anything but an AUTH
    command with a pair of the table. *)
Definition turned_down (cmd : bytes) : bool :=
  let (command, ss) := get_word (stringstream cmd) in
  if beq command (lit "AUTH") then
    let (user, ss1) := get_word ss in
    let (pass, _) := get_word ss1 in
    negb (Server.authenticate user pass)
  else true.

Definition gate_reply (wire : bytes) : Prop :=
  wire = encryptDecrypt (lit "AUTH_FAIL") \/
  wire = encryptDecrypt (lit "ERROR Authentication required.").

(** The names of a directory, each followed by a newline. *)
Definition name_lines (dir : list (bytes * bytes)) : bytes :=
  concat (map (fun entry => fst entry ++ NL) dir).

(** Names separated by newlines. *)
Fixpoint newline_joined (names : list bytes) : bytes :=
  match names with
  | [] => []
  | [name] => name
  | name :: rest => name ++ NL ++ newline_joined rest
  end.

(** A word: not empty and free of whitespace. *)
Definition is_word (w : bytes) : Prop :=
  w <> [] /\ forallb (fun c => negb (isspace c)) w = true.

(** What may follow a word: nothing, or whitespace first. *)
Definition delimited (rest : bytes) : Prop :=
  match rest with [] => True | c :: _ => isspace c = true end.

Definition digits_of (d : Decimal.uint) : bytes :=
  list_ascii_of_string (DecimalString.NilEmpty.string_of_uint d).

(** The prompt of the client's command loop. *)
Definition prompt_text : event :=
  Out (NL ++ lit "(list, upload [file], download [file], quit)" ++ NL ++ lit "> ").

(** An authenticated session at rest after the events [h]. *)
Definition resting (cfs sfs : FS) (lines : list bytes)
           (h : list (party * event)) : system :=
  {| client := {| Client.pc := Client.Prompt; Client.files := cfs |};
     server := awaiting true sfs;
     stdin := lines; to_server := []; to_client := []; history := h |}.

(** The session [s] comes to rest with [content] in the file [filename]
    of the client and of the server, both programs awaiting a command. *)
Definition settles_with (ci si : Z) (s : system) (filename content : bytes)
  : Prop :=
  exists final,
    runs_to ci si s final /\
    (exists n, forall fuel, n <= fuel -> sys_run ci si fuel s = final) /\
    Client.pc (client final) = Client.Prompt /\
    Server.pc (server final) = Server.AwaitCommand /\
    content_of (Server.files (server final)) filename = Some content /\
    content_of (Client.files (client final)) filename = Some content.

(** Sample stores and contents. *)

(** A storage root holding exactly [a.txt] and [b.txt]. *)
Definition root_ab : FS :=
  {| entries := [(lit "a.txt", lit "first"); (lit "b.txt", lit "second")];
     read_only := [] |}.

(** Bytes 0, 1, 2, ... ([n] of them, wrapping at 256). *)
Definition ramp (n : nat) : bytes := map ascii_of_nat (seq 0 n).

Definition holding (name content : bytes) : FS :=
  {| entries := [(name, content)]; read_only := [] |}.

Definition empty_store : FS := {| entries := []; read_only := [] |}.

(** Where a step of the server may write: the place the name in an
    UPLOAD command leads to, or the place of the upload in progress. *)
Definition upload_target (st : Server.state) (avail : bytes) : option place :=
  match Server.pc st with
  | Server.AwaitCommand =>
      let (command, ss) := get_word (stringstream (receive avail)) in
      if beq command (lit "UPLOAD") then Some (locate (fst (get_word ss)))
      else None
  | Server.UploadReceiving filename _ _ => Some (locate filename)
  | _ => None
  end.

(** One iteration of the client's authentication loop against a server
    session: the command goes out, the server takes a step, and the client
    reads the first message of the answer (nothing, if there is none). *)
Definition exchange (indet : Z) (st : Server.state) (user pass : bytes)
  : bool * Server.state :=
  let (st1, evs) :=
    Server.step indet st (hd [] (transmitted (Login.attempt user pass))) in
  (fst (Login.on_reply (hd [] (transmitted evs))), st1).

(** What the server makes of the two lines typed: the first two words of
    ["AUTH <user> <pass>"] after the command, looked up in the table. *)
Definition credentials_accepted (user pass : bytes) : bool :=
  let (u, ss) := get_word (stringstream (user ++ lit " " ++ pass)) in
  let (p, _) := get_word ss in
  Server.authenticate u p.

(** The loop itself, over the pairs the user types. *)
Fixpoint login (indet : Z) (st : Server.state)
         (typed : list (bytes * bytes)) : bool * Server.state :=
  match typed with
  | [] => (false, st)
  | (user, pass) :: rest =>
      let (ok, st1) := exchange indet st user pass in
      if ok then (true, st1) else login indet st1 rest
  end.

(** * Properties *)

Lemma xor_byte_cancel (a k : byte) : xor_byte (xor_byte a k) k = a.
Proof.
  destruct a, k; simpl.
  repeat rewrite xorb_assoc, xorb_nilpotent, xorb_false_r.
  reflexivity.
Qed.

Lemma xor_from_length (data : bytes) :
  forall i, length (xor_from i data) = length data.
Proof.
  induction data as [|c rest IH]; intros i; simpl; [reflexivity|].
  now rewrite IH.
Qed.

Lemma xor_from_twice (data : bytes) :
  forall i, xor_from i (xor_from i data) = data.
Proof.
  induction data as [|c rest IH]; intros i; simpl; [reflexivity|].
  now rewrite xor_byte_cancel, IH.
Qed.

Lemma xor_from_nth (data : bytes) :
  forall i j, j < length data ->
    nth j (xor_from i data) NUL =
    xor_byte (nth j data NUL) (key_at ((i + j) mod length ENCRYPTION_KEY)).
Proof.
  induction data as [|c rest IH]; intros i j Hj; simpl in Hj; [lia|].
  destruct j as [|j]; simpl.
  - now rewrite Nat.add_0_r.
  - rewrite IH by lia. now rewrite Nat.add_succ_r.
Qed.

Lemma encryptDecrypt_involutive (x : bytes) :
  encryptDecrypt (encryptDecrypt x) = x.
Proof. apply xor_from_twice. Qed.

Lemma encryptDecrypt_length (x : bytes) :
  length (encryptDecrypt x) = length x.
Proof. apply xor_from_length. Qed.

(** [xor_byte] is the exclusive or of the two byte values, checked on all
    256 * 256 pairs. *)
Lemma every_byte_listed (a : byte) : In a (map ascii_of_nat (seq 0 256)).
Proof.
  rewrite <- (ascii_nat_embedding a). apply in_map, in_seq.
  pose proof (nat_ascii_bounded a). lia.
Qed.

Lemma xor_byte_lxor (a b : byte) :
  N_of_ascii (xor_byte a b) = N.lxor (N_of_ascii a) (N_of_ascii b).
Proof.
  assert (Hall : forallb
            (fun a => forallb
               (fun b => N.eqb (N_of_ascii (xor_byte a b))
                               (N.lxor (N_of_ascii a) (N_of_ascii b)))
               (map ascii_of_nat (seq 0 256)))
            (map ascii_of_nat (seq 0 256)) = true)
    by (vm_compute; reflexivity).
  rewrite forallb_forall in Hall.
  pose proof (Hall a (every_byte_listed a)) as Ha.
  rewrite forallb_forall in Ha.
  apply N.eqb_eq, Ha, every_byte_listed.
Qed.

(** C1: the codec is an involution, keeps the length, and byte [i] of the
    output is byte [i] of the input XORed with the key byte at
    [i mod key length] (the key being the fixed, non-empty
    ["mysecretkey"], of 11 bytes): as a number, the output byte is the
    bitwise exclusive or of the two byte values. *)
Theorem C1_codec_involutive_length_preserving :
  ENCRYPTION_KEY <> [] /\
  forall x : bytes,
    encryptDecrypt (encryptDecrypt x) = x /\
    length (encryptDecrypt x) = length x /\
    (forall i, i < length x ->
       nth_error (encryptDecrypt x) i =
       Some (xor_byte (nth i x NUL)
                      (nth (i mod length ENCRYPTION_KEY) ENCRYPTION_KEY NUL))) /\
    (forall i, i < length x ->
       option_map N_of_ascii (nth_error (encryptDecrypt x) i) =
       Some (N.lxor
               (N_of_ascii (nth i x NUL))
               (N_of_ascii
                  (nth (i mod 11) (list_ascii_of_string "mysecretkey") NUL)))).
Proof.
  split; [discriminate|].
  intros x. split; [apply encryptDecrypt_involutive|].
  split; [apply encryptDecrypt_length|].
  assert (Hbyte : forall i, i < length x ->
            nth_error (encryptDecrypt x) i =
            Some (xor_byte (nth i x NUL)
                           (nth (i mod length ENCRYPTION_KEY) ENCRYPTION_KEY NUL))).
  { intros i Hi.
    rewrite (nth_error_nth' _ NUL) by (now rewrite encryptDecrypt_length).
    unfold encryptDecrypt. now rewrite xor_from_nth. }
  split; [exact Hbyte|].
  intros i Hi. rewrite (Hbyte i Hi). cbn [option_map].
  now rewrite xor_byte_lxor.
Qed.

(** ** Channel facts *)

Arguments encryptDecrypt : simpl never.
Arguments lit : simpl never.
Arguments to_string : simpl never.

Lemma is_empty_encryptDecrypt (x : bytes) :
  is_empty (encryptDecrypt x) = is_empty x.
Proof. now destruct x. Qed.

Lemma is_empty_false (x : bytes) : x <> [] -> is_empty x = false.
Proof. now destruct x. Qed.

Lemma is_empty_true (x : bytes) : is_empty x = true -> x = [].
Proof. now destruct x. Qed.

Lemma is_empty_length (x : bytes) : is_empty x = false -> 0 < length x.
Proof. destruct x; [discriminate | simpl; lia]. Qed.

Lemma beq_refl (x : bytes) : beq x x = true.
Proof. unfold beq. now destruct (bytes_eq_dec x x). Qed.

Lemma beq_neq (x y : bytes) : x <> y -> beq x y = false.
Proof. unfold beq. now destruct (bytes_eq_dec x y). Qed.

Lemma beq_true (x y : bytes) : beq x y = true -> x = y.
Proof. unfold beq. now destruct (bytes_eq_dec x y). Qed.

Lemma receive_spec (avail : bytes) :
  receive avail = encryptDecrypt (firstn BUFFER_SIZE avail).
Proof.
  unfold receive. now destruct (firstn BUFFER_SIZE avail).
Qed.

(** A message that fits the buffer arrives as it was sent. *)
Lemma receive_sent (message : bytes) :
  length message <= BUFFER_SIZE ->
  receive (encryptDecrypt message) = message.
Proof.
  intros H. rewrite receive_spec, firstn_all2.
  - apply encryptDecrypt_involutive.
  - now rewrite encryptDecrypt_length.
Qed.

Lemma receive_length (avail : bytes) : length (receive avail) <= BUFFER_SIZE.
Proof.
  rewrite receive_spec, encryptDecrypt_length. apply firstn_le_length.
Qed.

Lemma transmitted_app (a b : list event) :
  transmitted (a ++ b) = transmitted a ++ transmitted b.
Proof.
  induction a as [|e a IH]; [reflexivity|].
  destruct e as [w| |]; simpl; auto.
  destruct (is_empty w); simpl; now rewrite IH.
Qed.

Lemma transmitted_send (message : bytes) :
  message <> [] ->
  transmitted [send_message message] = [encryptDecrypt message].
Proof.
  intros H. simpl.
  now rewrite is_empty_encryptDecrypt, (is_empty_false _ H).
Qed.

(** The LIST reply, line by line. *)
Lemma file_list_from (dir : list (bytes * bytes)) :
  forall acc,
    fold_left (fun fileList entry => fileList ++ fst entry ++ NL) dir acc
    = acc ++ name_lines dir.
Proof.
  induction dir as [|entry dir IH]; intros acc; simpl.
  - now rewrite app_nil_r.
  - rewrite IH. unfold name_lines. simpl. now rewrite <- !app_assoc.
Qed.

Lemma file_list_spec (fs : FS) :
  Server.file_list fs = lit "Files on server:" ++ NL ++ name_lines (entries fs).
Proof.
  unfold Server.file_list. rewrite file_list_from. now rewrite <- app_assoc.
Qed.

(** ** The authentication gate *)

Lemma gate_rejects (indet : Z) (fs : FS) (avail : bytes) :
  receive avail <> [] ->
  turned_down (receive avail) = true ->
  exists evs wire,
    Server.step indet (Server.initial fs) avail = (Server.initial fs, evs) /\
    transmitted evs = [wire] /\ gate_reply wire.
Proof.
  intros Hne Hdown. unfold Server.step, Server.on_command, turned_down in *.
  simpl Server.pc. cbv iota.
  rewrite (is_empty_false _ Hne).
  destruct (get_word (stringstream (receive avail))) as [command ss].
  simpl Server.isAuthenticated. simpl negb. cbv iota.
  destruct (beq command (lit "AUTH")).
  - destruct (get_word ss) as [user ss1].
    destruct (get_word ss1) as [pass ss2].
    destruct (Server.authenticate user pass); [discriminate|].
    eexists _, _. split; [reflexivity|]. split; [reflexivity|]. now left.
  - eexists _, _. split; [reflexivity|]. split; [reflexivity|]. now right.
Qed.

Lemma gate_retries (indet : Z) (fs : FS) (reads : list bytes) :
  Forall (fun avail => receive avail <> [] /\
                       turned_down (receive avail) = true) reads ->
  exists evs,
    Server.run indet (Server.initial fs) reads = (Server.initial fs, evs) /\
    length (transmitted evs) = length reads /\
    Forall gate_reply (transmitted evs).
Proof.
  induction 1 as [|avail reads [Hne Hdown] _ IH]; simpl.
  - now exists [].
  - destruct (gate_rejects indet fs avail Hne Hdown) as (evs1 & w & E1 & T1 & G1).
    destruct IH as (evs2 & E2 & L2 & G2).
    rewrite E1, E2. exists (evs1 ++ evs2). split; [reflexivity|].
    rewrite transmitted_app, T1. simpl. split; [now rewrite L2|].
    now constructor.
Qed.

(** C6: with the table of ["user"/"pass123"] and ["admin"/"adminpass"],
    [AUTH user pass123] is accepted and marks the session authenticated:
    the flag, [false] at the start, is [true] afterwards, and the next
    command is served (LIST gets the listing); [AUTH user wrong] and
    [AUTH nouser x] are rejected and leave the flag [false]; an
    unauthenticated session answers every command other than AUTH with the
    authentication-required error; and a rejection leaves the session
    open and unauthenticated, for any number of attempts, after which a
    valid AUTH is still accepted. *)
Theorem C6_authentication_gate (indet : Z) (fs : FS) :
  let unauthenticated := Server.initial fs in
  let reply st avail := transmitted (snd (Server.step indet st avail)) in
  let after st avail := fst (Server.step indet st avail) in
  (* the table *)
  Server.authenticate (lit "user") (lit "pass123") = true /\
  Server.authenticate (lit "user") (lit "wrong") = false /\
  Server.authenticate (lit "nouser") (lit "x") = false /\
  (* acceptance *)
  (let avail := encryptDecrypt (lit "AUTH user pass123") in
   after unauthenticated avail = Server.authenticated unauthenticated /\
   reply unauthenticated avail = [encryptDecrypt (lit "AUTH_SUCCESS")] /\
   Server.isAuthenticated unauthenticated = false /\
   Server.isAuthenticated (after unauthenticated avail) = true /\
   after unauthenticated avail
     = {| Server.pc := Server.AwaitCommand;
          Server.isAuthenticated := true; Server.files := fs |} /\
   reply unauthenticated (encryptDecrypt (lit "LIST"))
     = [encryptDecrypt (lit "ERROR Authentication required.")] /\
   reply (after unauthenticated avail) (encryptDecrypt (lit "LIST"))
     = [encryptDecrypt (lit "Files on server:" ++ NL
                        ++ name_lines (entries fs))]) /\
  (* rejection *)
  (forall avail,
     avail = encryptDecrypt (lit "AUTH user wrong") \/
     avail = encryptDecrypt (lit "AUTH nouser x") ->
     after unauthenticated avail = unauthenticated /\
     reply unauthenticated avail = [encryptDecrypt (lit "AUTH_FAIL")] /\
     Server.isAuthenticated (after unauthenticated avail) = false /\
     Server.pc (after unauthenticated avail) = Server.AwaitCommand) /\
  (* every other command *)
  (forall avail,
     receive avail <> [] ->
     fst (get_word (stringstream (receive avail))) <> lit "AUTH" ->
     after unauthenticated avail = unauthenticated /\
     reply unauthenticated avail =
       [encryptDecrypt (lit "ERROR Authentication required.")] /\
     Server.isAuthenticated (after unauthenticated avail) = false /\
     Server.pc (after unauthenticated avail) = Server.AwaitCommand) /\
  (* unlimited retries *)
  (forall reads,
     Forall (fun avail => receive avail <> [] /\
                          turned_down (receive avail) = true) reads ->
     let st := fst (Server.run indet unauthenticated reads) in
     st = unauthenticated /\
     length (transmitted (snd (Server.run indet unauthenticated reads)))
       = length reads /\
     after st (encryptDecrypt (lit "AUTH admin adminpass"))
       = Server.authenticated unauthenticated /\
     Server.isAuthenticated st = false /\
     Server.pc st = Server.AwaitCommand /\
     Server.isAuthenticated
       (after st (encryptDecrypt (lit "AUTH admin adminpass"))) = true).
Proof.
  intros unauthenticated reply after.
  split; [reflexivity|]. split; [reflexivity|]. split; [reflexivity|].
  split.
  { assert (Hafter : after unauthenticated
                       (encryptDecrypt (lit "AUTH user pass123"))
                     = {| Server.pc := Server.AwaitCommand;
                          Server.isAuthenticated := true; Server.files := fs |})
      by (vm_compute; reflexivity).
    cbv zeta.
    split; [vm_compute; reflexivity|]. split; [vm_compute; reflexivity|].
    split; [reflexivity|].
    split; [rewrite Hafter; reflexivity|].
    split; [exact Hafter|].
    split; [vm_compute; reflexivity|].
    rewrite Hafter. unfold reply, Server.step, Server.on_command.
    cbn [Server.pc]. rewrite receive_sent by (vm_compute; lia).
    change (is_empty (lit "LIST")) with false. cbv iota.
    change (get_word (stringstream (lit "LIST")))
      with (lit "LIST", {| unread := []; failed := false |}).
    cbn [Server.isAuthenticated negb]. unfold Server.dispatch.
    rewrite beq_refl. cbn [Server.files Server.next_command snd app].
    cbn [transmitted Server.log send_message].
    now rewrite is_empty_encryptDecrypt, file_list_spec. }
  split.
  { intros avail [-> | ->]; repeat split; vm_compute; reflexivity. }
  split.
  { intros avail Hne Hcmd.
    assert (Hstep : Server.step indet unauthenticated avail
                    = (unauthenticated,
                       [Server.log (lit "Received command: " ++ receive avail);
                        send_message (lit "ERROR Authentication required.")])).
    { unfold Server.step, Server.on_command.
      simpl Server.pc. cbv iota. rewrite (is_empty_false _ Hne).
      destruct (get_word (stringstream (receive avail))) as [command ss].
      simpl in Hcmd. simpl Server.isAuthenticated. simpl negb. cbv iota.
      rewrite (beq_neq _ _ Hcmd). reflexivity. }
    unfold after, reply. rewrite Hstep. repeat split; reflexivity. }
  intros reads Hall.
  destruct (gate_retries indet fs reads Hall) as (evs & E & L & _).
  fold unauthenticated in E. cbv zeta. rewrite E. simpl fst. simpl snd.
  split; [reflexivity|]. split; [exact L|].
  split; [unfold after; vm_compute; reflexivity|].
  split; [reflexivity|]. split; [reflexivity|].
  unfold after. vm_compute. reflexivity.
Qed.

(** ** Reading a file block by block *)

Section Blocks.

Variable n : nat.
Hypothesis n_positive : 0 < n.

Lemma skipn_shorter (content : bytes) (fuel : nat) :
  content <> [] -> length content <= S fuel ->
  length (skipn n content) <= fuel.
Proof.
  intros Hne Hlen. rewrite length_skipn.
  destruct content; [congruence|]. cbn [length] in *. lia.
Qed.

Lemma read_blocks_from_concat (fuel : nat) :
  forall content, length content <= fuel ->
    concat (read_blocks_from fuel n content) = content.
Proof.
  induction fuel as [|fuel IH]; intros content Hlen.
  - destruct content; [reflexivity | simpl in Hlen; lia].
  - destruct content as [|c rest]; [reflexivity|].
    cbn [read_blocks_from concat]. rewrite IH.
    + apply firstn_skipn.
    + apply skipn_shorter; [discriminate | exact Hlen].
Qed.

Lemma read_blocks_from_bounds (fuel : nat) :
  forall content,
    Forall (fun block => block <> [] /\ length block <= n)
           (read_blocks_from fuel n content).
Proof.
  induction fuel as [|fuel IH]; intros content; [constructor|].
  destruct content as [|c rest]; [constructor|].
  cbn [read_blocks_from]. constructor; [|apply IH]. split.
  - destruct n; [lia | discriminate].
  - apply firstn_le_length.
Qed.

(** Every block but the last is full. *)
Lemma read_blocks_from_full (fuel : nat) :
  forall content i,
    S i < length (read_blocks_from fuel n content) ->
    length (nth i (read_blocks_from fuel n content) []) = n.
Proof.
  induction fuel as [|fuel IH]; intros content i Hi; [simpl in Hi; lia|].
  destruct content as [|c rest]; [simpl in Hi; lia|].
  cbn [read_blocks_from] in *. cbn [length] in Hi.
  destruct i as [|i].
  - cbn [nth]. rewrite length_firstn.
    destruct (le_lt_dec n (length (c :: rest))) as [Hle|Hlt]; [lia|].
    exfalso. rewrite skipn_all2 in Hi by lia.
    destruct fuel; simpl in Hi; lia.
  - cbn [nth]. apply IH. lia.
Qed.

Lemma read_blocks_from_fuel (fuel1 : nat) :
  forall fuel2 content,
    length content <= fuel1 -> length content <= fuel2 ->
    read_blocks_from fuel1 n content = read_blocks_from fuel2 n content.
Proof.
  induction fuel1 as [|fuel1 IH]; intros fuel2 content H1 H2.
  - destruct content; [now destruct fuel2 | simpl in H1; lia].
  - destruct content as [|c rest]; [now destruct fuel2|].
    destruct fuel2 as [|fuel2]; [simpl in H2; lia|].
    cbn [read_blocks_from]. f_equal.
    apply IH; apply skipn_shorter; (discriminate || assumption).
Qed.

Lemma read_blocks_from_enough (fuel : nat) (content : bytes) :
  length content <= fuel ->
  read_blocks_from fuel n content = read_blocks n content.
Proof.
  intros Hlen. unfold read_blocks. apply read_blocks_from_fuel; [exact Hlen | lia].
Qed.

Lemma read_blocks_cons (content : bytes) :
  content <> [] ->
  read_blocks n content = firstn n content :: read_blocks n (skipn n content).
Proof.
  intros Hne. destruct content as [|c rest]; [congruence|].
  unfold read_blocks at 1. cbn [length read_blocks_from]. f_equal.
  apply read_blocks_from_enough. apply skipn_shorter; [discriminate | simpl; lia].
Qed.

Lemma read_blocks_concat (content : bytes) :
  concat (read_blocks n content) = content.
Proof. apply read_blocks_from_concat. lia. Qed.

Lemma read_blocks_bounds (content : bytes) :
  Forall (fun block => block <> [] /\ length block <= n)
         (read_blocks n content).
Proof. apply read_blocks_from_bounds. Qed.

End Blocks.

Lemma transmitted_blocks (blocks : list bytes) :
  Forall (fun block => block <> []) blocks ->
  transmitted (map send_message blocks) = map encryptDecrypt blocks.
Proof.
  induction 1 as [|block blocks Hne _ IH]; [reflexivity|].
  cbn [map transmitted send_message].
  now rewrite is_empty_encryptDecrypt, (is_empty_false _ Hne), IH.
Qed.

(** ** The download sender *)

(** C9: once the readiness token has arrived, the server sends the file
    in consecutive blocks of [BUFFER_SIZE] bytes (the last one shorter),
    one message per block, up to the end of the file - the step has no
    access to the size that was announced - and then exactly one more
    message, the sentinel [DOWNLOAD_DONE]; it then awaits the next
    command. *)
Theorem C9_download_streaming (indet : Z) (st : Server.state)
        (filename file avail : bytes) :
  Server.pc st = Server.AwaitStart filename file ->
  receive avail = lit "START" ->
  let blocks := read_blocks BUFFER_SIZE file in
  fst (Server.step indet st avail)
    = {| Server.pc := Server.AwaitCommand;
         Server.isAuthenticated := Server.isAuthenticated st;
         Server.files := Server.files st |} /\
  transmitted (snd (Server.step indet st avail))
    = map encryptDecrypt blocks ++ [encryptDecrypt (lit "DOWNLOAD_DONE")] /\
  concat blocks = file /\
  Forall (fun block => 0 < length block <= BUFFER_SIZE) blocks /\
  (forall i, S i < length blocks -> length (nth i blocks []) = BUFFER_SIZE).
Proof.
  intros Hpc Hstart blocks.
  assert (Hpos : 0 < BUFFER_SIZE) by (unfold BUFFER_SIZE; lia).
  unfold Server.step, Server.on_start. rewrite Hpc, Hstart, beq_refl.
  cbn [negb fst snd Server.next_command].
  split; [reflexivity|]. split; [|split; [|split]].
  - rewrite transmitted_app. fold blocks. f_equal.
    apply transmitted_blocks.
    eapply Forall_impl; [|apply (read_blocks_bounds BUFFER_SIZE Hpos)].
    now intros block [Hne _].
  - apply read_blocks_concat. exact Hpos.
  - eapply Forall_impl; [|apply (read_blocks_bounds BUFFER_SIZE Hpos)].
    intros block [Hne Hle]. split; [|exact Hle].
    destruct block; [congruence | simpl; lia].
  - intros i Hi. apply read_blocks_from_full; assumption.
Qed.

(** C8: in the download flow, when the message that follows the size
    acknowledgement is anything but [START] (a closed connection
    included), the server sends nothing - no data, no error - and awaits
    the next command with the session as it was. *)
Theorem C8_silent_abort (indet : Z) (st : Server.state)
        (filename file avail : bytes) :
  Server.pc st = Server.AwaitStart filename file ->
  receive avail <> lit "START" ->
  fst (Server.step indet st avail)
    = {| Server.pc := Server.AwaitCommand;
         Server.isAuthenticated := Server.isAuthenticated st;
         Server.files := Server.files st |} /\
  transmitted (snd (Server.step indet st avail)) = [] /\
  snd (Server.step indet st avail)
    = [Server.log (lit "Client did not start transfer.")].
Proof.
  intros Hpc Hstart.
  unfold Server.step, Server.on_start. rewrite Hpc, (beq_neq _ _ Hstart).
  repeat split.
Qed.

(** ** Listing *)

(** C7 as stated fails: the reply to LIST on a root holding exactly
    [a.txt] and [b.txt] is not the two names joined by newlines, in either
    order, with or without a final newline. *)
Lemma C7_list_reply_is_not_just_the_names :
  ~ (exists order,
       Permutation [lit "a.txt"; lit "b.txt"] order /\
       (transmitted
          (snd (Server.step 0
                  {| Server.pc := Server.AwaitCommand;
                     Server.isAuthenticated := true;
                     Server.files := root_ab |}
                  (encryptDecrypt (lit "LIST"))))
        = [encryptDecrypt (newline_joined order)] \/
        transmitted
          (snd (Server.step 0
                  {| Server.pc := Server.AwaitCommand;
                     Server.isAuthenticated := true;
                     Server.files := root_ab |}
                  (encryptDecrypt (lit "LIST"))))
        = [encryptDecrypt (newline_joined order ++ NL)])).
Proof.
  intros (order & Hperm & Hreply).
  apply Permutation_length_2_inv in Hperm.
  destruct Hperm as [-> | ->]; destruct Hreply as [H | H];
    vm_compute in H; discriminate H.
Qed.

(** C7, amended: for an authenticated session, LIST is answered with one
    message: the line [Files on server:] followed by the name of every
    entry of the storage root, in directory order, each ended by a
    newline; for a root holding exactly [a.txt] and [b.txt] the lines
    after that heading are those two names and nothing else.  The session
    goes on. *)
Theorem C7_list_reply (indet : Z) (st : Server.state) (avail : bytes) :
  Server.pc st = Server.AwaitCommand ->
  Server.isAuthenticated st = true ->
  fst (get_word (stringstream (receive avail))) = lit "LIST" ->
  fst (Server.step indet st avail) = st /\
  transmitted (snd (Server.step indet st avail))
    = [encryptDecrypt (lit "Files on server:" ++ NL
                       ++ name_lines (entries (Server.files st)))] /\
  (map fst (entries (Server.files st)) = [lit "a.txt"; lit "b.txt"] ->
   transmitted (snd (Server.step indet st avail))
     = [encryptDecrypt (lit "Files on server:" ++ NL
                        ++ lit "a.txt" ++ NL ++ lit "b.txt" ++ NL)]).
Proof.
  intros Hpc Hauth Hcmd.
  assert (Hne : receive avail <> []).
  { intros E. rewrite E in Hcmd. vm_compute in Hcmd. discriminate. }
  assert (Hstep : Server.step indet st avail
                  = (st, [Server.log (lit "Received command: " ++ receive avail);
                          send_message (Server.file_list (Server.files st))])).
  { unfold Server.step, Server.on_command. rewrite Hpc, (is_empty_false _ Hne).
    destruct (get_word (stringstream (receive avail))) as [command ss].
    simpl in Hcmd. subst command. rewrite Hauth. cbn [negb].
    unfold Server.dispatch. rewrite beq_refl.
    unfold Server.next_command. cbn [app]. f_equal.
    destruct st as [p a f]. simpl in *. now subst. }
  rewrite Hstep. cbn [fst snd]. split; [reflexivity|].
  assert (Hsent : transmitted
            [Server.log (lit "Received command: " ++ receive avail);
             send_message (Server.file_list (Server.files st))]
          = [encryptDecrypt (lit "Files on server:" ++ NL
                             ++ name_lines (entries (Server.files st)))]).
  { cbn [transmitted Server.log send_message].
    rewrite is_empty_encryptDecrypt, file_list_spec. reflexivity. }
  split; [exact Hsent|].
  intros Hnames. rewrite Hsent. do 3 f_equal.
  unfold name_lines.
  replace (map (fun entry => fst entry ++ NL) (entries (Server.files st)))
    with (map (fun name => name ++ NL) (map fst (entries (Server.files st))))
    by (now rewrite map_map).
  rewrite Hnames. cbn [map concat].
  now rewrite app_nil_r, <- !app_assoc.
Qed.

(** ** 64-bit counters and files *)

Lemma wrap64_in_range (z : Z) :
  (LLONG_MIN <= z <= LLONG_MAX)%Z -> wrap64 z = z.
Proof.
  unfold wrap64, LLONG_MIN, LLONG_MAX. intros H.
  rewrite Z.mod_small; lia.
Qed.

Lemma wrap64_range (z : Z) : (LLONG_MIN <= wrap64 z <= LLONG_MAX)%Z.
Proof.
  unfold wrap64, LLONG_MIN, LLONG_MAX.
  pose proof (Z.mod_pos_bound (z - -9223372036854775808)
                              18446744073709551616 eq_refl).
  lia.
Qed.

Lemma lookup_store_same (name data : bytes) (dir : list (bytes * bytes)) :
  lookup name (store name data dir) = Some data.
Proof.
  induction dir as [|[n d] dir IH]; simpl.
  - now rewrite beq_refl.
  - destruct (beq n name) eqn:E; simpl; now rewrite E.
Qed.

Lemma lookup_store_other (name other data : bytes) (dir : list (bytes * bytes)) :
  other <> name ->
  lookup other (store name data dir) = lookup other dir.
Proof.
  intros Hne. induction dir as [|[n d] dir IH]; simpl.
  - rewrite beq_neq; [reflexivity | congruence].
  - destruct (beq n name) eqn:E; simpl.
    + apply beq_true in E. subst n.
      rewrite !(beq_neq name other); congruence.
    + now rewrite IH.
Qed.

Lemma store_store (name d1 d2 : bytes) (dir : list (bytes * bytes)) :
  store name d2 (store name d1 dir) = store name d2 dir.
Proof.
  induction dir as [|[n d] dir IH]; simpl.
  - now rewrite beq_refl.
  - destruct (beq n name) eqn:E; simpl; rewrite E; [reflexivity|].
    now rewrite IH.
Qed.

(** A name whose file has contents leads to an entry. *)
Lemma content_of_entry (fs : FS) (name old : bytes) :
  content_of fs name = Some old ->
  exists key, locate name = Entry key /\ lookup key (entries fs) = Some old.
Proof.
  unfold content_of. destruct (locate name) as [| |key| |]; try discriminate.
  intros H. now exists key.
Qed.

Lemma content_of_write (fs : FS) (name old data : bytes) :
  content_of fs name = Some old ->
  content_of (write fs name data) name = Some (old ++ data).
Proof.
  intros H. destruct (content_of_entry _ _ _ H) as (key & Hkey & Hold).
  unfold content_of, write. rewrite Hkey, Hold. cbn [entries].
  apply lookup_store_same.
Qed.

Lemma content_of_write_other (fs : FS) (name other data : bytes) :
  locate other <> locate name ->
  content_of (write fs name data) other = content_of fs other.
Proof.
  unfold content_of, write. intros H.
  destruct (locate name) as [| |key| |]; try reflexivity.
  destruct (lookup key (entries fs)); [|reflexivity]. cbn [entries].
  destruct (locate other) as [| |key'| |]; try reflexivity.
  apply lookup_store_other. congruence.
Qed.

Lemma write_write (fs : FS) (name old d1 d2 : bytes) :
  content_of fs name = Some old ->
  write (write fs name d1) name d2 = write fs name (d1 ++ d2).
Proof.
  intros H. destruct (content_of_entry _ _ _ H) as (key & Hkey & Hold).
  unfold write. rewrite Hkey, Hold. cbn [entries read_only].
  rewrite lookup_store_same, store_store, app_assoc. reflexivity.
Qed.

Lemma store_lookup (name old : bytes) (dir : list (bytes * bytes)) :
  lookup name dir = Some old -> store name old dir = dir.
Proof.
  induction dir as [|[n d] dir IH]; simpl; [discriminate|].
  destruct (beq n name) eqn:E.
  - now intros [= ->].
  - intros H. now rewrite IH.
Qed.

Lemma write_nil (fs : FS) (name old : bytes) :
  content_of fs name = Some old -> write fs name [] = fs.
Proof.
  intros H. destruct (content_of_entry _ _ _ H) as (key & Hkey & Hold).
  unfold write. rewrite Hkey, Hold, app_nil_r.
  rewrite (store_lookup _ _ _ Hold). now destruct fs.
Qed.

Lemma content_of_open_write (fs fs1 : FS) (name : bytes) :
  open_write fs name = Some fs1 -> content_of fs1 name = Some [].
Proof.
  unfold open_write, content_of.
  destruct (locate name) as [| |key| |]; try discriminate.
  destruct (existsb (beq key) (read_only fs)); [discriminate|].
  intros [= <-]. apply lookup_store_same.
Qed.

Lemma read_only_write (fs : FS) (name data : bytes) :
  read_only (write fs name data) = read_only fs.
Proof.
  unfold write. destruct (locate name) as [| |key| |]; try reflexivity.
  now destruct (lookup key (entries fs)).
Qed.

(** A regular file is not a directory. *)
Lemma names_directory_entry (name key : bytes) :
  locate name = Entry key -> names_directory name = false.
Proof. unfold names_directory. now intros ->. Qed.

(** ** Runs *)

Lemma server_run_app (indet : Z) (reads1 : list bytes) :
  forall st reads2,
    Server.run indet st (reads1 ++ reads2)
    = (fst (Server.run indet (fst (Server.run indet st reads1)) reads2),
       snd (Server.run indet st reads1)
       ++ snd (Server.run indet (fst (Server.run indet st reads1)) reads2)).
Proof.
  induction reads1 as [|avail reads1 IH]; intros st reads2.
  - simpl. now destruct (Server.run indet st reads2).
  - change (Server.run indet st ((avail :: reads1) ++ reads2))
      with (let (st1, evs1) := Server.step indet st avail in
            let (st2, evs2) := Server.run indet st1 (reads1 ++ reads2) in
            (st2, evs1 ++ evs2)).
    change (Server.run indet st (avail :: reads1))
      with (let (st1, evs1) := Server.step indet st avail in
            let (st2, evs2) := Server.run indet st1 reads1 in
            (st2, evs1 ++ evs2)).
    destruct (Server.step indet st avail) as [st1 evs1].
    rewrite IH. destruct (Server.run indet st1 reads1) as [st2 evs2].
    cbn [fst snd]. now rewrite app_assoc.
Qed.

Lemma server_run_snoc (indet : Z) (st : Server.state)
      (reads : list bytes) (last : bytes) :
  Server.run indet st (reads ++ [last])
  = (fst (Server.step indet (fst (Server.run indet st reads)) last),
     snd (Server.run indet st reads)
     ++ snd (Server.step indet (fst (Server.run indet st reads)) last)).
Proof.
  rewrite server_run_app. cbn [Server.run].
  destruct (Server.step indet _ last) as [st1 evs1]. cbn [fst snd].
  now rewrite app_nil_r.
Qed.

Lemma server_run_snoc_fst (indet : Z) (st : Server.state)
      (reads : list bytes) (last : bytes) :
  fst (Server.run indet st (reads ++ [last]))
  = fst (Server.step indet (fst (Server.run indet st reads)) last).
Proof. now rewrite server_run_snoc. Qed.

Lemma server_run_snoc_snd (indet : Z) (st : Server.state)
      (reads : list bytes) (last : bytes) :
  snd (Server.run indet st (reads ++ [last]))
  = snd (Server.run indet st reads)
    ++ snd (Server.step indet (fst (Server.run indet st reads)) last).
Proof. now rewrite server_run_snoc. Qed.

Lemma client_run_cons_fst (indet : Z) (st : Client.state)
      (avail : bytes) (reads : list bytes) :
  fst (Client.run indet st (avail :: reads))
  = fst (Client.run indet (fst (Client.step indet st avail)) reads).
Proof.
  cbn [Client.run]. destruct (Client.step indet st avail) as [st1 evs1].
  cbn [fst]. now destruct (Client.run indet st1 reads).
Qed.

(** ** The upload receiver *)

Section UploadReceiver.

Variable indet : Z.
Variables (filename : bytes) (fileSize : Z).

(** While the total stays below the declared size the loop goes on,
    nothing is sent, and every byte is appended to the file. *)
Lemma upload_goes_on (chunks : list bytes) :
  forall auth fs written b,
    content_of fs filename = Some written ->
    (0 <= b)%Z -> (fileSize <= LLONG_MAX)%Z ->
    Forall (fun avail => receive avail <> []) chunks ->
    (b + Z.of_nat (length (received chunks)) < fileSize)%Z ->
    Server.run indet (receiving filename fileSize auth fs b) chunks
    = (receiving filename fileSize auth (write fs filename (received chunks))
                 (b + Z.of_nat (length (received chunks))), []).
Proof.
  induction chunks as [|avail chunks IH];
    intros auth fs written b Hfile Hb Hmax Hall Hlt.
  - cbn [Server.run received map concat length].
    now rewrite (write_nil _ _ _ Hfile), Z.add_0_r.
  - inversion Hall as [|? ? Hne Hrest]; subst.
    unfold received in *. cbn [map concat] in *.
    rewrite length_app, Nat2Z.inj_add in Hlt.
    set (chunk := receive avail) in *.
    assert (Hstep : Server.step indet (receiving filename fileSize auth fs b) avail
                    = (receiving filename fileSize auth (write fs filename chunk)
                                 (b + Z.of_nat (length chunk)), [])).
    { unfold Server.step, Server.on_upload_chunk. cbn [receiving Server.pc].
      fold chunk. rewrite (is_empty_false _ Hne).
      unfold Server.upload_while, ll_add.
      rewrite wrap64_in_range by (unfold LLONG_MIN; lia).
      destruct (Z.ltb_spec (b + Z.of_nat (length chunk)) fileSize); [|lia].
      reflexivity. }
    cbn [Server.run]. rewrite Hstep.
    rewrite (IH auth _ (written ++ chunk) (b + Z.of_nat (length chunk))%Z);
      try assumption; try lia.
    + rewrite (write_write _ _ _ _ _ Hfile), length_app, Nat2Z.inj_add.
      now rewrite Z.add_assoc.
    + now apply content_of_write.
Qed.

(** The read that ends the loop: a closed connection, or the chunk that
    takes the counter to the declared size or past it. *)
Lemma upload_last_read (auth : bool) (fs : FS) (b : Z) (avail : bytes) :
  (0 <= b < fileSize)%Z -> (fileSize <= LLONG_MAX - Z.of_nat BUFFER_SIZE)%Z ->
  let chunk := receive avail in
  let total := (b + Z.of_nat (length chunk))%Z in
  (chunk = [] \/ fileSize <= total)%Z ->
  fst (Server.step indet (receiving filename fileSize auth fs b) avail)
    = awaiting auth (if is_empty chunk then fs else write fs filename chunk) /\
  transmitted (snd (Server.step indet (receiving filename fileSize auth fs b) avail))
    = [encryptDecrypt (if (total =? fileSize)%Z then lit "UPLOAD_SUCCESS"
                       else lit "ERROR Upload incomplete.")].
Proof.
  intros Hb Hmax chunk total Hend.
  unfold Server.step, Server.on_upload_chunk. cbn [receiving Server.pc].
  fold chunk. destruct (is_empty chunk) eqn:Hempty.
  - apply is_empty_true in Hempty. unfold total. rewrite Hempty.
    cbn [length]. rewrite Z.add_0_r.
    unfold Server.upload_finish.
    destruct (Z.eqb_spec b fileSize); [lia|]. split; reflexivity.
  - assert (Hlen : (0 < Z.of_nat (length chunk) <= Z.of_nat BUFFER_SIZE)%Z).
    { pose proof (receive_length avail) as Hle.
      pose proof (is_empty_length _ Hempty) as Hpos.
      fold chunk in Hle. lia. }
    destruct Hend as [E | Hge]; [rewrite E in Hempty; discriminate|].
    unfold Server.upload_while, ll_add.
    rewrite wrap64_in_range by (unfold LLONG_MIN; unfold LLONG_MAX in *; lia).
    fold total. destruct (Z.ltb_spec total fileSize); [lia|].
    unfold Server.upload_finish.
    destruct (Z.eqb_spec total fileSize); split; reflexivity.
Qed.

End UploadReceiver.

Lemma received_app (a b : list bytes) : received (a ++ b) = received a ++ received b.
Proof. unfold received. now rewrite map_app, concat_app. Qed.

Lemma received_one (avail : bytes) : received [avail] = receive avail.
Proof. unfold received. simpl. apply app_nil_r. Qed.

(** C3: the server answers an upload with [UPLOAD_SUCCESS] exactly when
    the byte counter equals the declared size at the exit of the receive
    loop.  Here [chunks] are the reads during which the loop goes on and
    [last] is the read on which it exits: a closed connection after
    [K < fileSize] bytes, or a chunk that takes the counter to
    [fileSize] or past it.  Every other outcome, the disconnect and the
    overshoot included, is answered with [ERROR Upload incomplete.]; and
    every byte received is in the file, also on overshoot.  A declared
    size of zero or less exits the loop at once, with the same verdict. *)
Theorem C3_upload_completion (indet : Z) (auth : bool) (fs : FS)
        (filename written : bytes) (fileSize : Z)
        (chunks : list bytes) (last : bytes) :
  content_of fs filename = Some written ->
  (0 < fileSize <= LLONG_MAX - Z.of_nat BUFFER_SIZE)%Z ->
  Forall (fun avail => receive avail <> []) chunks ->
  let K := Z.of_nat (length (received chunks)) in
  let counter := (K + Z.of_nat (length (receive last)))%Z in
  (K < fileSize)%Z ->
  (receive last = [] \/ fileSize <= counter)%Z ->
  let result :=
    Server.run indet (receiving filename fileSize auth fs 0) (chunks ++ [last]) in
  let reply := transmitted (snd result) in
  let success := [encryptDecrypt (lit "UPLOAD_SUCCESS")] in
  let incomplete := [encryptDecrypt (lit "ERROR Upload incomplete.")] in
  Server.pc (fst result) = Server.AwaitCommand /\
  (reply = success <-> counter = fileSize) /\
  (counter <> fileSize -> reply = incomplete) /\
  (receive last = [] -> reply = incomplete) /\
  (fileSize < counter -> reply = incomplete)%Z /\
  content_of (Server.files (fst result)) filename
    = Some (written ++ received (chunks ++ [last])) /\
  (forall (st : Server.state) (declared : Z) (evs : list event),
     (declared <= 0)%Z ->
     transmitted (snd (Server.upload_while st fs filename declared 0 evs))
     = transmitted evs
       ++ [encryptDecrypt (if (0 =? declared)%Z then lit "UPLOAD_SUCCESS"
                           else lit "ERROR Upload incomplete.")]).
Proof.
  intros Hfile Hsize Hall K counter HK Hend result reply success incomplete.
  assert (Hrun : Server.run indet (receiving filename fileSize auth fs 0) chunks
                 = (receiving filename fileSize auth
                      (write fs filename (received chunks)) K, [])).
  { rewrite (upload_goes_on indet filename fileSize chunks auth fs written 0);
      try assumption; try lia.
    reflexivity. }
  pose proof (upload_last_read indet filename fileSize auth
                (write fs filename (received chunks)) K last) as Hlast.
  cbv zeta in Hlast.
  destruct Hlast as [Hst Hsent]; [unfold K; lia | apply Hsize | exact Hend |].
  assert (Hreply : reply = [encryptDecrypt
                              (if (counter =? fileSize)%Z
                               then lit "UPLOAD_SUCCESS"
                               else lit "ERROR Upload incomplete.")]).
  { unfold reply, result. rewrite server_run_snoc_snd, Hrun. cbn [fst snd].
    rewrite app_nil_l. exact Hsent. }
  assert (Hfst : fst result
                 = awaiting auth
                     (if is_empty (receive last)
                      then write fs filename (received chunks)
                      else write (write fs filename (received chunks))
                                 filename (receive last))).
  { unfold result. rewrite server_run_snoc_fst, Hrun. cbn [fst].
    exact Hst. }
  assert (Hdiff : counter <> fileSize -> reply = incomplete).
  { intros Hne. rewrite Hreply. now destruct (Z.eqb_spec counter fileSize). }
  split; [now rewrite Hfst|]. split; [|split; [exact Hdiff|split; [|split; [|split]]]].
  - split.
    + intros E. destruct (Z.eq_dec counter fileSize) as [|Hne]; [assumption|].
      rewrite (Hdiff Hne) in E. vm_compute in E. discriminate E.
    + intros E. rewrite Hreply. now destruct (Z.eqb_spec counter fileSize).
  - intros E. apply Hdiff. unfold counter. rewrite E. cbn [length]. lia.
  - intros Hgt. apply Hdiff. lia.
  - rewrite Hfst, received_app, received_one. cbn [awaiting Server.files].
    assert (Hw : content_of (write fs filename (received chunks)) filename
                 = Some (written ++ received chunks))
      by now apply content_of_write.
    destruct (is_empty (receive last)) eqn:Hempty.
    + apply is_empty_true in Hempty. now rewrite Hempty, app_nil_r.
    + rewrite (content_of_write _ _ _ _ Hw). now rewrite app_assoc.
  - intros st declared evs Hle. unfold Server.upload_while.
    destruct (Z.ltb_spec 0 declared); [lia|].
    unfold Server.upload_finish.
    destruct (Z.eqb_spec 0 declared);
      cbn [snd Server.next_command]; rewrite transmitted_app; reflexivity.
Qed.

(** ** The download receiver *)

Section DownloadReceiver.

Variable indet : Z.
Variables (filename : bytes) (fileSize : Z).

(** The chunk is cut to what is still missing. *)
Lemma clip_spec (b : Z) (chunk : bytes) :
  (0 <= b < fileSize)%Z -> (fileSize <= LLONG_MAX)%Z ->
  (b + Z.of_nat (length chunk) <= LLONG_MAX)%Z ->
  let kept := firstn (Z.to_nat (fileSize - b)) chunk in
  Client.clip fileSize b chunk = (Z.of_nat (length kept), kept).
Proof.
  intros Hb Hmax Hsum kept. unfold Client.clip, ll_length, ll_add, ll_sub.
  assert (Hmin : (LLONG_MIN < 0)%Z) by reflexivity.
  rewrite (wrap64_in_range (Z.of_nat (length chunk))) by lia.
  rewrite (wrap64_in_range (b + _)) by lia.
  rewrite (wrap64_in_range (fileSize - b)) by lia.
  unfold kept. destruct (Z.ltb_spec fileSize (b + Z.of_nat (length chunk))).
  - unfold substr0. rewrite Z.mod_small by (unfold LLONG_MAX in *; lia).
    rewrite length_firstn, Nat.min_l by lia.
    now rewrite Z2Nat.id by lia.
  - rewrite firstn_all2 by lia. reflexivity.
Qed.

(** One content message: what is kept goes to the file, and the counter
    moves by as much. *)
Lemma download_chunk_step (fs : FS) (b : Z) (avail : bytes) :
  (0 <= b < fileSize)%Z -> (fileSize <= LLONG_MAX)%Z ->
  (b + Z.of_nat (length (receive avail)) <= LLONG_MAX)%Z ->
  receive avail <> [] ->
  let kept := firstn (Z.to_nat (fileSize - b)) (receive avail) in
  Client.step indet (downloading filename fileSize fs b) avail
  = Client.download_while (write fs filename kept) filename fileSize
      (b + Z.of_nat (length kept)) [].
Proof.
  intros Hb Hmax Hsum Hne kept.
  unfold Client.step, Client.on_download_chunk. cbn [downloading Client.pc].
  rewrite (is_empty_false _ Hne), clip_spec by assumption.
  fold kept. cbn [Client.files]. rewrite Nat2Z.id, firstn_all.
  unfold ll_add. rewrite wrap64_in_range; [reflexivity|].
  assert (length kept <= length (receive avail))
    by (unfold kept; rewrite length_firstn; lia).
  unfold LLONG_MIN. lia.
Qed.

(** Outside the receive loop no file is written. *)
Lemma client_step_rest (st : Client.state) (avail : bytes) :
  (Client.pc st = Client.Prompt \/ Client.pc st = Client.DownloadAwaitDone) ->
  Client.pc (fst (Client.step indet st avail)) = Client.Prompt /\
  Client.files (fst (Client.step indet st avail)) = Client.files st.
Proof.
  destruct st as [pc fs]. cbn [Client.pc Client.files].
  intros [-> | ->]; unfold Client.step; cbn [Client.pc].
  - split; reflexivity.
  - unfold Client.on_download_done, Client.at_prompt. cbn [Client.files].
    destruct (negb _); split; reflexivity.
Qed.

Lemma client_rest (reads : list bytes) :
  forall st,
    (Client.pc st = Client.Prompt \/ Client.pc st = Client.DownloadAwaitDone) ->
    Client.files (fst (Client.run indet st reads)) = Client.files st.
Proof.
  induction reads as [|avail reads IH]; intros st Hpc; [reflexivity|].
  destruct (client_step_rest st avail Hpc) as [Hprompt Hfiles].
  rewrite client_run_cons_fst, IH by (now left). exact Hfiles.
Qed.

(** Whatever arrives, the file receives a prefix of it that fits the
    declared size. *)
Lemma download_never_exceeds (reads : list bytes) :
  forall fs written b,
    content_of fs filename = Some written ->
    (0 <= b < fileSize)%Z ->
    (fileSize <= LLONG_MAX - Z.of_nat BUFFER_SIZE)%Z ->
    exists data,
      content_of (Client.files (fst (Client.run indet (downloading filename fileSize fs b) reads)))
                 filename = Some (written ++ data) /\
      (b + Z.of_nat (length data) <= fileSize)%Z /\
      data = firstn (length data) (received reads).
Proof.
  induction reads as [|avail reads IH]; intros fs written b Hfile Hb Hmax.
  - exists []. cbn [Client.run fst downloading Client.files length].
    rewrite app_nil_r. repeat split; [assumption | lia].
  - rewrite client_run_cons_fst.
    unfold received. cbn [map concat]. fold (received reads).
    destruct (is_empty (receive avail)) eqn:Hempty.
    + (* the connection is lost *)
      assert (Hstep : fst (Client.step indet (downloading filename fileSize fs b) avail)
                      = {| Client.pc := Client.Prompt; Client.files := fs |}).
      { unfold Client.step, Client.on_download_chunk.
        cbn [downloading Client.pc Client.files].
        rewrite Hempty. unfold Client.download_finish.
        destruct (Z.leb_spec fileSize b); [lia | reflexivity]. }
      rewrite Hstep, client_rest by now left.
      exists []. cbn [Client.files length]. rewrite app_nil_r.
      repeat split; [assumption | lia].
    + pose proof (receive_length avail) as Hle.
      pose proof (is_empty_length _ Hempty) as Hpos.
      assert (Hne : receive avail <> [])
        by (intros E; rewrite E in Hempty; discriminate).
      assert (Hroom : (fileSize <= LLONG_MAX)%Z) by (unfold LLONG_MAX in *; lia).
      assert (Hsum : (b + Z.of_nat (length (receive avail)) <= LLONG_MAX)%Z)
        by (unfold LLONG_MAX in *; lia).
      rewrite (download_chunk_step fs b avail Hb Hroom Hsum Hne).
      set (kept := firstn (Z.to_nat (fileSize - b)) (receive avail)).
      assert (Hkept : (b + Z.of_nat (length kept) <= fileSize)%Z).
      { unfold kept. rewrite length_firstn. lia. }
      assert (Hprefix : forall more,
                 firstn (length kept) (receive avail ++ more) = kept).
      { intros more. rewrite firstn_app.
        replace (length kept - length (receive avail)) with 0
          by (unfold kept; rewrite length_firstn; lia).
        cbn [firstn]. rewrite app_nil_r. unfold kept.
        rewrite length_firstn.
        destruct (Nat.le_ge_cases (Z.to_nat (fileSize - b))
                                  (length (receive avail))) as [Hc | Hc].
        - now rewrite Nat.min_l.
        - rewrite Nat.min_r by assumption.
          now rewrite firstn_all, firstn_all2. }
      pose proof (content_of_write _ _ _ kept Hfile) as Hfile1.
      unfold Client.download_while.
      destruct (Z.ltb_spec (b + Z.of_nat (length kept)) fileSize) as [Hlt | Hge].
      * (* the loop goes on *)
        assert (Hfull : kept = receive avail).
        { unfold kept. apply firstn_all2. unfold kept in Hlt.
          rewrite length_firstn in Hlt. lia. }
        destruct (IH _ _ (b + Z.of_nat (length kept))%Z Hfile1)
          as (data & Hc & Hlen & Hpre); [lia | assumption |].
        cbn [fst]. fold (downloading filename fileSize (write fs filename kept)
                                     (b + Z.of_nat (length kept))).
        exists (kept ++ data). rewrite app_assoc. split; [exact Hc|].
        rewrite length_app, Nat2Z.inj_add. split; [lia|].
        rewrite Hfull at 2. rewrite firstn_app_2. now rewrite <- Hpre, Hfull.
      * (* the declared size is reached *)
        unfold Client.download_finish.
        destruct (Z.leb_spec fileSize (b + Z.of_nat (length kept))); [|lia].
        cbn [fst]. rewrite client_rest by now right.
        exists kept. cbn [Client.files]. repeat split; [assumption | lia |].
        symmetry. apply Hprefix.
Qed.

End DownloadReceiver.

(** C4 as stated fails on the server: an upload declared as 3 bytes whose
    content arrives as one message of 5 bytes leaves 5 bytes in the
    file. *)
Lemma C4_upload_receiver_writes_past_declared_size :
  ~ (forall data,
       content_of
         (Server.files
            (fst (Server.run 0
                    {| Server.pc := Server.AwaitCommand;
                       Server.isAuthenticated := true;
                       Server.files := {| entries := []; read_only := [] |} |}
                    [encryptDecrypt (lit "UPLOAD f 3");
                     encryptDecrypt (lit "hello")])))
         (lit "f") = Some data ->
       (Z.of_nat (length data) <= 3)%Z).
Proof.
  intros H. specialize (H (lit "hello") eq_refl). vm_compute in H.
  now apply H.
Qed.

(** C4, amended: the client's download receiver never writes more than
    the declared size (from 0 up to [LLONG_MAX - BUFFER_SIZE], so that the
    64-bit counter cannot wrap): whatever the reads deliver, the
    destination file holds a prefix of it no longer than the declared
    size, the excess of a message being cut off.  The server's upload
    receiver does not truncate: it appends every byte of every message it
    receives, whatever the declared size. *)
Theorem C4_receiver_byte_bounds (indet : Z) :
  (forall (fs : FS) (filename : bytes) (fileSize : Z) (reads : list bytes),
     content_of fs filename = Some [] ->
     (0 <= fileSize <= LLONG_MAX - Z.of_nat BUFFER_SIZE)%Z ->
     let st := fst (Client.download_while fs filename fileSize 0 []) in
     exists data,
       content_of (Client.files (fst (Client.run indet st reads))) filename
         = Some data /\
       (Z.of_nat (length data) <= fileSize)%Z /\
       data = firstn (length data) (received reads)) /\
  (forall (auth : bool) (fs : FS) (filename written : bytes)
          (fileSize bytesReceived : Z) (avail : bytes),
     content_of fs filename = Some written ->
     receive avail <> [] ->
     content_of
       (Server.files
          (fst (Server.step indet
                  (receiving filename fileSize auth fs bytesReceived) avail)))
       filename = Some (written ++ receive avail)).
Proof.
  split.
  - intros fs filename fileSize reads Hfile Hsize st.
    unfold Client.download_while in st.
    destruct (Z.ltb_spec 0 fileSize).
    + destruct (download_never_exceeds indet filename fileSize reads fs [] 0 Hfile)
        as (data & Hc & Hlen & Hpre); [lia | lia |].
      exists data. repeat split; [exact Hc | lia | exact Hpre].
    + exists []. unfold st, Client.download_finish.
      destruct (Z.leb_spec fileSize 0); [|lia].
      cbn [fst]. rewrite client_rest by now right.
      cbn [Client.files length]. repeat split; [assumption | lia].
  - intros auth fs filename written fileSize b avail Hfile Hne.
    unfold Server.step, Server.on_upload_chunk. cbn [receiving Server.pc].
    rewrite (is_empty_false _ Hne). unfold Server.upload_while, Server.upload_finish.
    cbn [Server.files].
    destruct (_ <? _)%Z; [|destruct (_ =? _)%Z]; cbn [fst Server.files Server.next_command];
      now apply content_of_write.
Qed.

(** C5: in the client's download loop, a content message that would take
    the running total past the declared size is cut: only the bytes still
    missing are written, and the total then equals the declared size.  The
    loop exits, one more message is received, and when it is not
    [DOWNLOAD_DONE] a warning goes to standard output; either way the
    client is back at its prompt with the file as written. *)
Theorem C5_download_truncation (indet : Z) (fs : FS)
        (filename written : bytes) (fileSize bytesReceived : Z)
        (avail next : bytes) :
  content_of fs filename = Some written ->
  (0 <= bytesReceived < fileSize)%Z ->
  (fileSize < bytesReceived + Z.of_nat (length (receive avail)) <= LLONG_MAX)%Z ->
  let kept := firstn (Z.to_nat (fileSize - bytesReceived)) (receive avail) in
  let st1 := fst (Client.step indet
                    (downloading filename fileSize fs bytesReceived) avail) in
  let last := Client.step indet st1 next in
  Client.clip fileSize bytesReceived (receive avail)
    = ((fileSize - bytesReceived)%Z, kept) /\
  ll_add bytesReceived (fileSize - bytesReceived) = fileSize /\
  (bytesReceived + Z.of_nat (length kept) = fileSize)%Z /\
  content_of (Client.files st1) filename = Some (written ++ kept) /\
  Client.pc st1 = Client.DownloadAwaitDone /\
  fst last = {| Client.pc := Client.Prompt; Client.files := Client.files st1 |} /\
  (receive next = lit "DOWNLOAD_DONE" -> snd last = []) /\
  (receive next <> lit "DOWNLOAD_DONE" ->
   snd last
   = [Out (lit "[+] Warning: Did not receive final DONE signal. Got: "
           ++ receive next ++ NL)]).
Proof.
  intros Hfile Hb Hsum kept st1 last.
  assert (Hne : receive avail <> []).
  { intros E. rewrite E in Hsum. cbn [length] in Hsum. lia. }
  assert (Hmax : (fileSize <= LLONG_MAX)%Z) by lia.
  assert (Hlen : Z.of_nat (length kept) = (fileSize - bytesReceived)%Z).
  { unfold kept. rewrite length_firstn. lia. }
  assert (Hst1 : st1 = {| Client.pc := Client.DownloadAwaitDone;
                          Client.files := write fs filename kept |}).
  { unfold st1. rewrite download_chunk_step by (assumption || lia).
    fold kept. rewrite Hlen.
    replace (bytesReceived + (fileSize - bytesReceived))%Z with fileSize by lia.
    unfold Client.download_while, Client.download_finish.
    rewrite Z.ltb_irrefl, Z.leb_refl. reflexivity. }
  split.
  { rewrite clip_spec by (assumption || lia). fold kept. now rewrite Hlen. }
  split.
  { unfold ll_add. rewrite wrap64_in_range; [lia|]. unfold LLONG_MIN. lia. }
  split; [lia|].
  split; [rewrite Hst1; now apply content_of_write|].
  split; [now rewrite Hst1|].
  unfold last. rewrite Hst1. unfold Client.step, Client.on_download_done.
  cbn [Client.pc Client.files].
  split; [now destruct (negb _)|]. split.
  - intros ->. now rewrite beq_refl.
  - intros Hneq. now rewrite (beq_neq _ _ Hneq).
Qed.

(** ** Parsing what was printed *)

Lemma skip_ws_word (w rest : bytes) :
  is_word w -> skip_ws (w ++ rest) = w ++ rest.
Proof.
  intros [Hne Hall]. destruct w as [|c w]; [congruence|].
  cbn [forallb] in Hall. apply andb_prop in Hall as [Hc _].
  change (skip_ws ((c :: w) ++ rest))
    with (if isspace c then skip_ws (w ++ rest) else c :: w ++ rest).
  destruct (isspace c); [cbn in Hc; discriminate | reflexivity].
Qed.

Lemma span_word_app (w rest : bytes) :
  forallb (fun c => negb (isspace c)) w = true -> delimited rest ->
  span_word (w ++ rest) = (w, rest).
Proof.
  intros Hall Hrest. induction w as [|c w IH].
  - destruct rest as [|d rest]; [reflexivity|].
    cbn in Hrest. cbn [app]. simpl span_word. now rewrite Hrest.
  - cbn [forallb] in Hall. apply andb_prop in Hall as [Hc Hall].
    change (span_word ((c :: w) ++ rest))
      with (if isspace c then ([], c :: w ++ rest)
            else let (w1, r) := span_word (w ++ rest) in (c :: w1, r)).
    destruct (isspace c); [cbn in Hc; discriminate|].
    now rewrite (IH Hall).
Qed.

Lemma get_word_app (w rest : bytes) :
  is_word w -> delimited rest ->
  get_word (stringstream (w ++ rest))
  = (w, {| unread := rest; failed := false |}).
Proof.
  intros Hw Hrest. unfold get_word, stringstream. cbn [failed unread].
  rewrite (skip_ws_word _ _ Hw).
  destruct (w ++ rest) eqn:E.
  - destruct Hw as [Hne _]. destruct w; [congruence | discriminate E].
  - rewrite <- E, (span_word_app w rest); [reflexivity | apply Hw | exact Hrest].
Qed.

(** A second word, after one blank. *)
Lemma get_word_next (w rest : bytes) :
  is_word w -> delimited rest ->
  get_word {| unread := " "%char :: w ++ rest; failed := false |}
  = (w, {| unread := rest; failed := false |}).
Proof.
  intros Hw Hrest. pose proof (get_word_app w rest Hw Hrest) as H.
  unfold get_word, stringstream in *. cbn [failed unread] in *.
  exact H.
Qed.

Lemma digits_of_isdigit (d : Decimal.uint) :
  forallb isdigit (digits_of d) = true.
Proof. induction d; cbn; auto. Qed.

Lemma decimal_value_from (d : Decimal.uint) :
  forall acc : positive,
    fold_left (fun acc c => (acc * 10 + digit_value c)%Z) (digits_of d) (Z.pos acc)
    = Z.pos (Pos.of_uint_acc d acc).
Proof.
  unfold digits_of.
  induction d as [|d IH|d IH|d IH|d IH|d IH|d IH|d IH|d IH|d IH|d IH];
    intros acc; [reflexivity|..];
    cbn [DecimalString.NilEmpty.string_of_uint list_ascii_of_string fold_left Pos.of_uint_acc];
    rewrite <- IH; f_equal; unfold digit_value;
    match goal with
    | |- context [Z.of_N (N_of_ascii ?c)] =>
        let v := eval vm_compute in (Z.of_N (N_of_ascii c)) in
        change (Z.of_N (N_of_ascii c)) with v
    end; lia.
Qed.

Lemma decimal_value_digits (d : Decimal.uint) :
  decimal_value (digits_of d) = Z.of_N (Pos.of_uint d).
Proof.
  unfold decimal_value, digits_of.
  induction d as [|d IH|d IH|d IH|d IH|d IH|d IH|d IH|d IH|d IH|d IH];
    [reflexivity | exact IH |..];
    cbn [DecimalString.NilEmpty.string_of_uint list_ascii_of_string fold_left Pos.of_uint];
    apply (decimal_value_from d).
Qed.

Lemma to_string_nonneg (n : Z) :
  (0 <= n)%Z ->
  exists d, d <> Decimal.Nil /\ to_string n = digits_of d /\
            Z.of_N (Pos.of_uint d) = n.
Proof.
  intros Hn. destruct n as [|p|p]; [| |lia].
  - exists (Decimal.D0 Decimal.Nil). repeat split. discriminate.
  - exists (Pos.to_uint p). split; [apply DecimalPos.Unsigned.to_uint_nonnil|].
    split; [|now rewrite DecimalPos.Unsigned.of_to].
    unfold to_string, digits_of. cbn [Z.to_int DecimalString.NilZero.string_of_int].
    unfold DecimalString.NilZero.string_of_uint.
    pose proof (DecimalPos.Unsigned.to_uint_nonnil p). now destruct (Pos.to_uint p).
Qed.

Lemma span_digits_all (ds : bytes) :
  forallb isdigit ds = true -> span_digits ds = (ds, []).
Proof.
  induction ds as [|c ds IH]; [reflexivity|].
  cbn [forallb span_digits]. intros H. apply andb_prop in H as [Hc Hds].
  now rewrite Hc, (IH Hds).
Qed.

Lemma isdigit_not_space (c : byte) : isdigit c = true -> isspace c = false.
Proof.
  unfold isdigit, isspace. intros H.
  apply andb_prop in H as [H1 H2].
  apply N.leb_le in H1. apply N.leb_le in H2.
  destruct (N.eqb_spec (N_of_ascii c) 32); [lia|].
  destruct (N.leb_spec 9 (N_of_ascii c)); [|reflexivity].
  destruct (N.leb_spec (N_of_ascii c) 13); [lia | reflexivity].
Qed.

Lemma isdigit_not_sign (c : byte) :
  isdigit c = true ->
  Ascii.eqb c "-"%char = false /\ Ascii.eqb c "+"%char = false.
Proof.
  intros H. split; apply Ascii.eqb_neq; intros ->; discriminate H.
Qed.

(** A size printed by [std::to_string] is read back by [>>]. *)
Lemma get_ll_to_string (n : Z) :
  (0 <= n <= LLONG_MAX)%Z ->
  get_ll {| unread := " "%char :: to_string n; failed := false |} = Some n.
Proof.
  intros Hn. destruct (to_string_nonneg n) as (d & Hd & -> & Hval); [lia|].
  pose proof (digits_of_isdigit d) as Hdig.
  pose proof (decimal_value_digits d) as Hdec.
  unfold get_ll. cbn [failed unread skip_ws].
  replace (isspace " "%char) with true by reflexivity.
  destruct (digits_of d) as [|c ds] eqn:E.
  { exfalso. unfold digits_of in E. destruct d; cbn in E; congruence. }
  cbn [forallb] in Hdig. apply andb_prop in Hdig as [Hc Hds].
  cbn [skip_ws]. rewrite (isdigit_not_space _ Hc).
  destruct (isdigit_not_sign _ Hc) as [-> ->].
  rewrite span_digits_all by (cbn [forallb]; now rewrite Hc, Hds).
  cbn [fst]. rewrite Hdec, Hval.
  destruct (Z.ltb_spec LLONG_MAX n); [lia | reflexivity].
Qed.

Lemma to_string_word (n : Z) : (0 <= n)%Z -> is_word (to_string n).
Proof.
  intros Hn. destruct (to_string_nonneg n Hn) as (d & Hd & -> & _).
  split.
  - unfold digits_of. destruct d; cbn; congruence.
  - pose proof (digits_of_isdigit d) as H.
    induction (digits_of d) as [|c ds IH]; [reflexivity|].
    cbn [forallb] in *. apply andb_prop in H as [Hc Hds].
    now rewrite (isdigit_not_space _ Hc), (IH Hds).
Qed.

(** A 64-bit size prints in at most 19 digits. *)
Lemma of_uint_acc_lower (d : Decimal.uint) :
  forall acc,
    (N.pos acc * 10 ^ N.of_nat (Decimal.nb_digits d)
     <= N.pos (Pos.of_uint_acc d acc))%N.
Proof.
  induction d as [|d IH|d IH|d IH|d IH|d IH|d IH|d IH|d IH|d IH|d IH];
    intros acc;
    [cbn; lia|..];
    cbn [Decimal.nb_digits Pos.of_uint_acc];
    rewrite Nat2N.inj_succ, N.pow_succ_r';
    (eapply N.le_trans; [|apply IH]);
    (apply N.le_trans with (N.pos (10 * acc) * 10 ^ N.of_nat (Decimal.nb_digits d))%N;
     [lia | apply N.mul_le_mono_r; lia]).
Qed.

Lemma digits_of_length (d : Decimal.uint) :
  length (digits_of d) = Decimal.nb_digits d.
Proof. unfold digits_of. induction d; cbn; auto. Qed.

Lemma to_uint_head (p : positive) :
  Decimal.nzhead (Pos.to_uint p) = Pos.to_uint p.
Proof.
  pose proof (DecimalPos.Unsigned.to_of (Pos.to_uint p)) as H.
  rewrite DecimalPos.Unsigned.of_to in H. cbn [N.to_uint] in H.
  unfold Decimal.unorm in H.
  destruct (Decimal.nzhead (Pos.to_uint p)) eqn:E; try (now rewrite H).
  exfalso. now apply (DecimalPos.Unsigned.to_uint_nonzero p).
Qed.

Lemma of_uint_lower (d : Decimal.uint) :
  d <> Decimal.Nil -> Decimal.nzhead d = d ->
  (10 ^ N.of_nat (Decimal.nb_digits d - 1) <= Pos.of_uint d)%N.
Proof.
  intros Hne Hhead.
  destruct d as [|d|d|d|d|d|d|d|d|d|d]; [congruence| |..];
    [ exfalso; pose proof (DecimalFacts.nb_digits_nzhead d) as H;
      cbn [Decimal.nzhead] in Hhead; rewrite Hhead in H;
      cbn [Decimal.nb_digits] in H; lia
    | cbn [Decimal.nb_digits Pos.of_uint]; rewrite Nat.sub_succ, Nat.sub_0_r;
      (eapply N.le_trans; [|apply of_uint_acc_lower]);
      rewrite <- (N.mul_1_l (10 ^ _)) at 1; apply N.mul_le_mono_r; lia .. ].
Qed.

Lemma to_string_length (n : Z) :
  (0 <= n <= LLONG_MAX)%Z -> length (to_string n) <= 19.
Proof.
  intros Hn. destruct n as [|p|p]; [unfold to_string; cbn; lia | | lia].
  unfold to_string. cbn [Z.to_int DecimalString.NilZero.string_of_int].
  assert (E : DecimalString.NilZero.string_of_uint (Pos.to_uint p)
              = DecimalString.NilEmpty.string_of_uint (Pos.to_uint p)).
  { unfold DecimalString.NilZero.string_of_uint.
    pose proof (DecimalPos.Unsigned.to_uint_nonnil p). now destruct (Pos.to_uint p). }
  rewrite E. fold (digits_of (Pos.to_uint p)). rewrite digits_of_length.
  pose proof (of_uint_lower (Pos.to_uint p) (DecimalPos.Unsigned.to_uint_nonnil p)
                            (to_uint_head p)) as Hlow.
  rewrite DecimalPos.Unsigned.of_to in Hlow.
  destruct (le_lt_dec (Decimal.nb_digits (Pos.to_uint p)) 19) as [|Hbig];
    [assumption|].
  exfalso.
  assert (H19 : (10 ^ 19 <= 10 ^ N.of_nat (Decimal.nb_digits (Pos.to_uint p) - 1))%N)
    by (apply N.pow_le_mono_r; lia).
  assert (Hp : (N.pos p < 10 ^ 19)%N).
  { unfold LLONG_MAX in Hn. change (10 ^ 19)%N with 10000000000000000000%N. lia. }
  lia.
Qed.

(** ** Steps of the connection *)

Section ConnectionSteps.

Variables ci si : Z.

Lemma reaches_refl (s : system) : reaches ci si s s.
Proof. constructor. Qed.

Lemma reaches_step (s s1 s2 : system) :
  sys_step ci si s = Some s1 -> reaches ci si s1 s2 -> reaches ci si s s2.
Proof. intros H1 H2. econstructor; eassumption. Qed.

Lemma reaches_trans (s s1 s2 : system) :
  reaches ci si s s1 -> reaches ci si s1 s2 -> reaches ci si s s2.
Proof.
  induction 1 as [|a b c Hab Hbc IH]; [auto|].
  intros H. eapply reaches_step; [exact Hab | now apply IH].
Qed.

Lemma after_read_fits (segment : bytes) (queue : list bytes) :
  length segment <= BUFFER_SIZE -> after_read segment queue = queue.
Proof. intros H. unfold after_read. now rewrite skipn_all2. Qed.

(** The server reads the message at the head of its queue. *)
Lemma sys_step_server (s : system) (segment : bytes) (queue : list bytes)
      (st : Server.state) (evs : list event) :
  Server.pc (server s) <> Server.Closed ->
  to_server s = segment :: queue ->
  length segment <= BUFFER_SIZE ->
  Server.step si (server s) segment = (st, evs) ->
  sys_step ci si s
  = Some {| client := client s; server := st; stdin := stdin s;
            to_server := queue;
            to_client := to_client s ++ transmitted evs;
            history := history s ++ map (pair TheServer) evs |}.
Proof.
  intros Hpc Hq Hfit Hstep. unfold sys_step, server_turn. rewrite Hq.
  rewrite (after_read_fits _ _ Hfit). unfold server_reads. rewrite Hstep.
  now destruct (Server.pc (server s)).
Qed.

Lemma server_waits (s : system) :
  to_server s = [] -> Client.pc (client s) <> Client.Exited ->
  server_turn si s = None.
Proof.
  intros Hq Hpc. unfold server_turn. rewrite Hq.
  destruct (Server.pc (server s)); try reflexivity;
    now destruct (Client.pc (client s)).
Qed.

(** The client reads the message at the head of its queue. *)
Lemma sys_step_client (s : system) (segment : bytes) (queue : list bytes)
      (st : Client.state) (evs : list event) :
  to_server s = [] ->
  Client.pc (client s) <> Client.Exited ->
  Client.pc (client s) <> Client.Prompt ->
  to_client s = segment :: queue ->
  length segment <= BUFFER_SIZE ->
  Client.step ci (client s) segment = (st, evs) ->
  sys_step ci si s
  = Some {| client := st; server := server s; stdin := stdin s;
            to_server := transmitted evs;
            to_client := queue;
            history := history s ++ map (pair TheClient) evs |}.
Proof.
  intros Hts Hex Hpr Hq Hfit Hstep. unfold sys_step.
  rewrite (server_waits _ Hts Hex). unfold client_turn. rewrite Hq.
  rewrite (after_read_fits _ _ Hfit). unfold client_reads.
  rewrite Hstep, Hts. cbn [app].
  now destruct (Client.pc (client s)).
Qed.

(** The client takes the next line typed. *)
Lemma sys_step_types (s : system) (line : bytes) (rest : list bytes)
      (st : Client.state) (evs : list event) :
  to_server s = [] ->
  Client.pc (client s) = Client.Prompt ->
  stdin s = line :: rest ->
  Client.command_line (client s) line = (st, evs) ->
  sys_step ci si s
  = Some {| client := st; server := server s; stdin := rest;
            to_server := transmitted evs;
            to_client := to_client s;
            history := history s ++ map (pair TheClient) evs |}.
Proof.
  intros Hts Hpc Hin Hcmd. unfold sys_step.
  rewrite (server_waits _ Hts) by (rewrite Hpc; discriminate).
  unfold client_turn. rewrite Hpc, Hin. unfold client_types.
  now rewrite Hcmd, Hts.
Qed.

Lemma sys_step_server_reads (s : system) (segment : bytes) (queue : list bytes) :
  Server.pc (server s) <> Server.Closed ->
  to_server s = segment :: queue ->
  length segment <= BUFFER_SIZE ->
  sys_step ci si s
  = Some {| client := client s;
            server := fst (Server.step si (server s) segment);
            stdin := stdin s;
            to_server := queue;
            to_client := to_client s
                         ++ transmitted (snd (Server.step si (server s) segment));
            history := history s
                       ++ map (pair TheServer)
                              (snd (Server.step si (server s) segment)) |}.
Proof.
  intros Hpc Hq Hfit. eapply sys_step_server; try eassumption.
  apply surjective_pairing.
Qed.

Lemma sys_step_client_reads (s : system) (segment : bytes) (queue : list bytes) :
  to_server s = [] ->
  Client.pc (client s) <> Client.Exited ->
  Client.pc (client s) <> Client.Prompt ->
  to_client s = segment :: queue ->
  length segment <= BUFFER_SIZE ->
  sys_step ci si s
  = Some {| client := fst (Client.step ci (client s) segment);
            server := server s; stdin := stdin s;
            to_server := transmitted (snd (Client.step ci (client s) segment));
            to_client := queue;
            history := history s
                       ++ map (pair TheClient)
                              (snd (Client.step ci (client s) segment)) |}.
Proof.
  intros Hts Hex Hpr Hq Hfit. eapply sys_step_client; try eassumption.
  apply surjective_pairing.
Qed.

(** Both programs wait: nothing is in flight, nothing is typed. *)
Lemma at_rest (s : system) :
  to_server s = [] -> to_client s = [] -> stdin s = [] ->
  Client.pc (client s) <> Client.Exited ->
  Server.pc (server s) <> Server.Closed ->
  sys_step ci si s = None.
Proof.
  intros Hts Htc Hin Hex Hcl. unfold sys_step.
  rewrite (server_waits _ Hts Hex). unfold client_turn. rewrite Htc, Hin.
  destruct (Client.pc (client s)); try reflexivity;
    now destruct (Server.pc (server s)).
Qed.

End ConnectionSteps.

(** ** The messages of a transfer, one by one *)

Lemma literal_word (s : string) :
  (negb (is_empty (lit s))
   && forallb (fun c => negb (isspace c)) (lit s))%bool = true ->
  is_word (lit s).
Proof.
  intros H. apply andb_prop in H as [H1 H2]. split; [|exact H2].
  intros E. now rewrite E in H1.
Qed.

Lemma delimited_blank (rest : bytes) : delimited (" "%char :: rest).
Proof. reflexivity. Qed.

Lemma delimited_nil : delimited [].
Proof. exact I. Qed.

Lemma is_word_nonempty (w : bytes) : is_word w -> is_empty w = false.
Proof. intros [H _]. now apply is_empty_false. Qed.

Lemma is_empty_word_app (w rest : bytes) :
  is_word w -> is_empty (w ++ rest) = false.
Proof. intros [H _]. destruct w; [congruence | reflexivity]. Qed.

Section ServerMessages.

Variable indet : Z.
Variable st : Server.state.
Hypothesis st_awaits : Server.pc st = Server.AwaitCommand.
Hypothesis st_authenticated : Server.isAuthenticated st = true.

Lemma server_upload_command (filename : bytes) (fileSize : Z) :
  is_word filename ->
  (0 <= fileSize <= LLONG_MAX)%Z ->
  let cmd := lit "UPLOAD " ++ filename ++ lit " " ++ to_string fileSize in
  length cmd <= BUFFER_SIZE ->
  Server.step indet st (encryptDecrypt cmd)
  = match open_write (Server.files st) filename with
    | None =>
        Server.next_command st (Server.files st)
          [Server.log (lit "Received command: " ++ cmd);
           send_message (lit "ERROR Cannot create file.")]
    | Some fs1 =>
        Server.upload_while st fs1 filename fileSize 0
          [Server.log (lit "Received command: " ++ cmd);
           send_message (lit "OK_UPLOAD")]
    end.
Proof.
  intros Hword Hsize cmd Hfit.
  unfold Server.step, Server.on_command.
  rewrite st_awaits, (receive_sent _ Hfit).
  change cmd with (lit "UPLOAD" ++ " "%char :: filename
                   ++ " "%char :: to_string fileSize).
  rewrite is_empty_word_app by (apply literal_word; reflexivity).
  rewrite get_word_app;
    [| apply literal_word; reflexivity | apply delimited_blank].
  unfold Server.dispatch. rewrite st_authenticated. cbn [negb].
  change (beq (lit "UPLOAD") (lit "LIST")) with false.
  change (beq (lit "UPLOAD") (lit "DOWNLOAD")) with false.
  rewrite beq_refl. cbv iota.
  rewrite get_word_next; [| exact Hword | apply delimited_blank].
  rewrite get_ll_to_string by exact Hsize.
  destruct (open_write (Server.files st) filename); reflexivity.
Qed.

Lemma server_download_command (filename : bytes) :
  is_word filename ->
  let cmd := lit "DOWNLOAD " ++ filename in
  length cmd <= BUFFER_SIZE ->
  Server.step indet st (encryptDecrypt cmd)
  = match open_read (Server.files st) filename with
    | Some file =>
        ({| Server.pc := Server.AwaitStart filename file;
            Server.isAuthenticated := Server.isAuthenticated st;
            Server.files := Server.files st |},
         [Server.log (lit "Received command: " ++ cmd);
          send_message (lit "OK_DOWNLOAD " ++ to_string (tellg_end file))])
    | None =>
        if names_directory filename then
          ({| Server.pc := Server.AwaitStart filename [];
              Server.isAuthenticated := Server.isAuthenticated st;
              Server.files := Server.files st |},
           [Server.log (lit "Received command: " ++ cmd);
            send_message
              (lit "OK_DOWNLOAD " ++ to_string tellg_end_of_directory)])
        else
          Server.next_command st (Server.files st)
            [Server.log (lit "Received command: " ++ cmd);
             send_message (lit "ERROR File not found.")]
    end.
Proof.
  intros Hword cmd Hfit.
  unfold Server.step, Server.on_command.
  rewrite st_awaits, (receive_sent _ Hfit).
  assert (E : cmd = lit "DOWNLOAD" ++ " "%char :: filename ++ [])
    by (unfold cmd; now rewrite app_nil_r).
  rewrite E.
  rewrite is_empty_word_app by (apply literal_word; reflexivity).
  rewrite get_word_app;
    [| apply literal_word; reflexivity | apply delimited_blank].
  unfold Server.dispatch. rewrite st_authenticated. cbn [negb].
  change (beq (lit "DOWNLOAD") (lit "LIST")) with false.
  rewrite beq_refl. cbv iota.
  rewrite get_word_next; [| exact Hword | apply delimited_nil].
  destruct (open_read (Server.files st) filename); [reflexivity|].
  destruct (names_directory filename); reflexivity.
Qed.

End ServerMessages.

Lemma client_types_upload (st : Client.state) (filename : bytes) :
  is_word filename ->
  Client.command_line st (lit "upload " ++ filename)
  = Client.handleUpload (Client.files st) filename [prompt_text].
Proof.
  intros Hword. unfold Client.command_line.
  assert (E : lit "upload " ++ filename
              = lit "upload" ++ " "%char :: filename ++ [])
    by now rewrite app_nil_r.
  rewrite E, get_word_app;
    [| apply literal_word; reflexivity | apply delimited_blank].
  change (is_empty (lit "upload")) with false.
  change (beq (lit "upload") (lit "list")) with false.
  change (beq (lit "upload") (lit "download")) with false.
  rewrite beq_refl. cbv iota.
  rewrite get_word_next; [| exact Hword | apply delimited_nil].
  now rewrite (is_word_nonempty _ Hword).
Qed.

Lemma client_types_download (st : Client.state) (filename : bytes) :
  is_word filename ->
  Client.command_line st (lit "download " ++ filename)
  = ({| Client.pc := Client.DownloadAwaitReply filename;
        Client.files := Client.files st |},
     [prompt_text; send_message (lit "DOWNLOAD " ++ filename)]).
Proof.
  intros Hword. unfold Client.command_line.
  assert (E : lit "download " ++ filename
              = lit "download" ++ " "%char :: filename ++ [])
    by now rewrite app_nil_r.
  rewrite E, get_word_app;
    [| apply literal_word; reflexivity | apply delimited_blank].
  change (is_empty (lit "download")) with false.
  change (beq (lit "download") (lit "list")) with false.
  rewrite beq_refl. cbv iota.
  rewrite get_word_next; [| exact Hword | apply delimited_nil].
  now rewrite (is_word_nonempty _ Hword).
Qed.

Lemma send_blocks_all (blocks : list bytes) :
  forall evs,
    Forall (fun block => block <> []) blocks ->
    Client.send_blocks blocks evs = (true, evs ++ map send_message blocks).
Proof.
  induction blocks as [|block blocks IH]; intros evs Hall.
  - cbn. now rewrite app_nil_r.
  - inversion Hall as [|? ? Hne Hrest]; subst.
    cbn [Client.send_blocks map]. unfold send_ok.
    rewrite (is_empty_false _ Hne). cbn [negb].
    rewrite (IH _ Hrest), <- app_assoc. reflexivity.
Qed.

Section ClientMessages.

Variable indet : Z.

Lemma client_upload_ok (fs : FS) (filename file : bytes) (fileSize : Z) :
  Client.step indet
    {| Client.pc := Client.UploadAwaitOk filename file fileSize;
       Client.files := fs |}
    (encryptDecrypt (lit "OK_UPLOAD"))
  = ({| Client.pc := Client.UploadAwaitResult; Client.files := fs |},
     Out (lit "[+] Uploading " ++ filename ++ lit " ("
          ++ to_string fileSize ++ lit " bytes)..." ++ NL)
     :: map send_message (read_blocks (BUFFER_SIZE / 2) file)).
Proof.
  unfold Client.step, Client.on_upload_ok. cbn [Client.pc Client.files].
  rewrite receive_sent by (vm_compute; lia).
  rewrite beq_refl. cbn [negb].
  rewrite send_blocks_all; [reflexivity|].
  eapply Forall_impl; [|apply (read_blocks_bounds (BUFFER_SIZE / 2))].
  - now intros block [Hne _].
  - vm_compute; lia.
Qed.

Lemma client_download_reply (fs : FS) (filename : bytes) (fileSize : Z) :
  (0 <= fileSize <= LLONG_MAX)%Z ->
  Client.step indet
    {| Client.pc := Client.DownloadAwaitReply filename; Client.files := fs |}
    (encryptDecrypt (lit "OK_DOWNLOAD " ++ to_string fileSize))
  = let evs := [Out (lit "[+] Server OK. File size: " ++ to_string fileSize
                     ++ lit " bytes." ++ NL)] in
    match open_write fs filename with
    | None =>
        Client.at_prompt fs
          (evs ++ [Err (lit "[-] Error: Could not open file for writing: "
                        ++ Client.filepath filename ++ NL);
                   send_message (lit "CANCEL")])
    | Some fs1 =>
        Client.download_while fs1 filename fileSize 0
          (evs ++ [send_message (lit "START");
                   Out (lit "[+] Downloading " ++ filename ++ lit "..." ++ NL)])
    end.
Proof.
  intros Hsize. unfold Client.step, Client.on_download_reply.
  cbn [Client.pc Client.files].
  rewrite receive_sent.
  - change (lit "OK_DOWNLOAD " ++ to_string fileSize)
      with (lit "OK_DOWNLOAD" ++ " "%char :: to_string fileSize).
    rewrite get_word_app;
      [| apply literal_word; reflexivity | apply delimited_blank].
    rewrite beq_refl, get_ll_to_string by exact Hsize. reflexivity.
  - rewrite length_app. pose proof (to_string_length fileSize Hsize).
    change (length (lit "OK_DOWNLOAD ")) with 12. unfold BUFFER_SIZE. lia.
Qed.

End ClientMessages.

Lemma is_empty_app (a b : bytes) : a <> [] -> is_empty (a ++ b) = false.
Proof. intros H. destruct a; [congruence | reflexivity]. Qed.

Lemma tellg_end_in_range (content : bytes) :
  (Z.of_nat (length content) <= LLONG_MAX)%Z ->
  tellg_end content = Z.of_nat (length content).
Proof.
  intros H. unfold tellg_end. apply wrap64_in_range. unfold LLONG_MIN. lia.
Qed.

Lemma ok_download_fits (n : Z) :
  (0 <= n <= LLONG_MAX)%Z ->
  length (encryptDecrypt (lit "OK_DOWNLOAD " ++ to_string n)) <= BUFFER_SIZE.
Proof.
  intros Hn. rewrite encryptDecrypt_length, length_app.
  pose proof (to_string_length n Hn).
  change (length (lit "OK_DOWNLOAD ")) with 12. unfold BUFFER_SIZE. lia.
Qed.

(** ** A download the client cannot store *)

(** C10: when the client cannot open the destination for writing after
    [OK_DOWNLOAD], it sends [CANCEL] in place of [START] and is back at
    its prompt without having received any content; the server takes
    [CANCEL] for a missing readiness token and goes back to awaiting
    commands: over the whole command it has sent the size acknowledgement
    and nothing else, neither content nor an error. *)
Theorem C10_cancel_when_destination_unwritable
        (ci si : Z) (cfs sfs : FS) (filename content : bytes) :
  is_word filename ->
  length (lit "DOWNLOAD " ++ filename) <= BUFFER_SIZE ->
  open_read sfs filename = Some content ->
  (Z.of_nat (length content) <= LLONG_MAX)%Z ->
  open_write cfs filename = None ->
  exists final,
    runs_to ci si (session cfs sfs [lit "download " ++ filename]) final /\
    client final = {| Client.pc := Client.Prompt; Client.files := cfs |} /\
    server final = {| Server.pc := Server.AwaitCommand;
                      Server.isAuthenticated := true; Server.files := sfs |} /\
    sent_by TheClient final
      = [encryptDecrypt (lit "DOWNLOAD " ++ filename);
         encryptDecrypt (lit "CANCEL")] /\
    sent_by TheServer final
      = [encryptDecrypt (lit "OK_DOWNLOAD "
                         ++ to_string (Z.of_nat (length content)))] /\
    to_client final = [] /\ to_server final = [].
Proof.
  intros Hword Hfit Hread Hlen Hwrite.
  assert (Hsize : (0 <= Z.of_nat (length content) <= LLONG_MAX)%Z) by lia.
  eexists. split; [split|].
  - (* the client types the command *)
    eapply reaches_step.
    { apply sys_step_types with (line := lit "download " ++ filename) (rest := []);
        try reflexivity.
      apply client_types_download. exact Hword. }
    cbn [session client server stdin to_server to_client history
         Client.files app map transmitted prompt_text send_message].
    rewrite is_empty_encryptDecrypt, is_empty_app by discriminate.
    (* the server acknowledges with the size *)
    eapply reaches_step.
    { eapply sys_step_server; cbn [server to_server Server.pc];
        [discriminate | reflexivity | now rewrite encryptDecrypt_length |].
      rewrite server_download_command; try reflexivity; try assumption.
      cbn [Server.files]. rewrite Hread, (tellg_end_in_range _ Hlen).
      reflexivity. }
    cbn [client server stdin to_server to_client history
         app map transmitted Server.log send_message Server.isAuthenticated].
    rewrite is_empty_encryptDecrypt, is_empty_app by discriminate.
    (* the client cannot open the file and cancels *)
    eapply reaches_step.
    { eapply sys_step_client; cbn [client to_server to_client Client.pc];
        [reflexivity | discriminate | discriminate | reflexivity
        | now apply ok_download_fits |].
      rewrite client_download_reply by exact Hsize. cbv zeta.
      rewrite Hwrite. reflexivity. }
    cbn [client server stdin to_server to_client history
         app map transmitted send_message].
    change (is_empty (encryptDecrypt (lit "CANCEL"))) with false. cbv iota.
    (* the server drops the transfer *)
    eapply reaches_step.
    { eapply sys_step_server; cbn [server to_server Server.pc];
        [discriminate | reflexivity | vm_compute; lia |].
      reflexivity. }
    apply reaches_refl.
  - apply at_rest; try reflexivity; cbn; discriminate.
  - cbn [client server to_client to_server].
    split; [reflexivity|]. split; [reflexivity|].
    split; [|split; [|split; reflexivity]].
    + unfold sent_by. cbn.
      rewrite is_empty_encryptDecrypt, is_empty_app by discriminate.
      reflexivity.
    + unfold sent_by. cbn.
      rewrite is_empty_encryptDecrypt, is_empty_app by discriminate.
      reflexivity.
Qed.

(** ** The receive loops on the connection *)

Lemma total_length_cons (block : bytes) (blocks : list bytes) :
  total_length (block :: blocks)
  = (Z.of_nat (length block) + total_length blocks)%Z.
Proof. unfold total_length. cbn [concat]. rewrite length_app. lia. Qed.

Lemma total_length_positive (blocks : list bytes) :
  Forall (fun block => block <> [] /\ length block <= BUFFER_SIZE) blocks ->
  blocks <> [] -> (0 < total_length blocks)%Z.
Proof.
  intros Hall Hne. destruct blocks as [|block blocks]; [congruence|].
  inversion Hall as [|? ? [Hb _] _]; subst.
  rewrite total_length_cons. unfold total_length.
  destruct block; [congruence | cbn [length]; lia].
Qed.

Section Loops.

Variables ci si : Z.
Variables (filename : bytes) (fileSize : Z).
Hypothesis fileSize_fits : (fileSize <= LLONG_MAX)%Z.

Lemma upload_chunk_step (auth : bool) (fs : FS) (b : Z) (avail : bytes) :
  (0 <= b)%Z ->
  (b + Z.of_nat (length (receive avail)) <= LLONG_MAX)%Z ->
  receive avail <> [] ->
  Server.step si (receiving filename fileSize auth fs b) avail
  = Server.upload_while (receiving filename fileSize auth fs b)
      (write fs filename (receive avail)) filename fileSize
      (b + Z.of_nat (length (receive avail))) [].
Proof.
  intros Hb Hsum Hne. unfold Server.step, Server.on_upload_chunk.
  cbn [receiving Server.pc Server.files].
  rewrite (is_empty_false _ Hne). unfold ll_add.
  rewrite wrap64_in_range by (unfold LLONG_MIN; lia). reflexivity.
Qed.

(** The server takes in the blocks of an upload, the last of which
    completes the declared size. *)
Lemma sys_upload_chunks (blocks : list bytes) :
  forall (fs : FS) (written : bytes) (b : Z) (c : Client.state)
         (lines to_c : list bytes) (h : list (party * event)),
    content_of fs filename = Some written ->
    (0 <= b)%Z ->
    (b + total_length blocks = fileSize)%Z ->
    Forall (fun block => block <> [] /\ length block <= BUFFER_SIZE) blocks ->
    blocks <> [] ->
    exists h',
      reaches ci si
        {| client := c; server := receiving filename fileSize true fs b;
           stdin := lines; to_server := map encryptDecrypt blocks;
           to_client := to_c; history := h |}
        {| client := c;
           server := awaiting true (write fs filename (concat blocks));
           stdin := lines; to_server := [];
           to_client := to_c ++ [encryptDecrypt (lit "UPLOAD_SUCCESS")];
           history := h' |}.
Proof.
  induction blocks as [|block blocks IH];
    intros fs written b c lines to_c h Hfile Hb Htotal Hall Hne; [congruence|].
  apply Forall_cons_iff in Hall as [[Hblock Hfit] Hrest].
  rewrite total_length_cons in Htotal.
  assert (Hrecv : receive (encryptDecrypt block) = block)
    by now apply receive_sent.
  assert (Hmore : (0 <= total_length blocks)%Z) by (unfold total_length; lia).
  assert (Hstep : Server.step si (receiving filename fileSize true fs b)
                              (encryptDecrypt block)
                  = Server.upload_while (receiving filename fileSize true fs b)
                      (write fs filename block) filename fileSize
                      (b + Z.of_nat (length block)) []).
  { rewrite upload_chunk_step by (rewrite ?Hrecv; (assumption || lia)).
    now rewrite Hrecv. }
  destruct blocks as [|next blocks].
  - (* the last block *)
    unfold total_length in Htotal. cbn [concat length] in Htotal.
    eexists. eapply reaches_step; [|apply reaches_refl].
    rewrite (sys_step_server_reads _ _ _ (encryptDecrypt block) []);
      [| cbn; discriminate | reflexivity | now rewrite encryptDecrypt_length].
    cbn [server]. rewrite Hstep.
    unfold Server.upload_while, Server.upload_finish.
    replace (b + Z.of_nat (length block))%Z with fileSize by lia.
    rewrite Z.ltb_irrefl, Z.eqb_refl.
    cbn [Server.next_command client server stdin to_server to_client history
         receiving Server.isAuthenticated app transmitted Server.log
         send_message concat].
    rewrite app_nil_r. reflexivity.
  - (* more blocks follow *)
    assert (Hpos : (0 < total_length (next :: blocks))%Z)
      by (apply total_length_positive; [assumption | discriminate]).
    destruct (IH (write fs filename block) (written ++ block)
                 (b + Z.of_nat (length block))%Z c lines to_c
                 (h ++ map (pair TheServer) []))
      as [h' Hreach]; try assumption; try lia; try discriminate.
    { now apply content_of_write. }
    exists h'. eapply reaches_step; [|].
    + rewrite (sys_step_server_reads _ _ _ (encryptDecrypt block)
                                     (map encryptDecrypt (next :: blocks)));
        [| cbn; discriminate | reflexivity | now rewrite encryptDecrypt_length].
      cbn [server]. rewrite Hstep.
      unfold Server.upload_while.
      destruct (Z.ltb_spec (b + Z.of_nat (length block)) fileSize); [|lia].
      cbn [client server stdin to_server to_client history receiving
           Server.isAuthenticated transmitted].
      rewrite app_nil_r. reflexivity.
    + fold (receiving filename fileSize true (write fs filename block)
                      (b + Z.of_nat (length block))).
      cbn [concat]. rewrite <- (write_write _ _ _ _ _ Hfile).
      exact Hreach.
Qed.

(** The client takes in the blocks of a download, the last of which
    completes the declared size; what follows them stays in the queue. *)
Lemma sys_download_chunks (blocks : list bytes) :
  forall (fs : FS) (written : bytes) (b : Z) (sv : Server.state)
         (lines after : list bytes) (h : list (party * event)),
    content_of fs filename = Some written ->
    (0 <= b)%Z ->
    (b + total_length blocks = fileSize)%Z ->
    Forall (fun block => block <> [] /\ length block <= BUFFER_SIZE) blocks ->
    blocks <> [] ->
    exists h',
      reaches ci si
        {| client := downloading filename fileSize fs b; server := sv;
           stdin := lines; to_server := [];
           to_client := map encryptDecrypt blocks ++ after; history := h |}
        {| client := {| Client.pc := Client.DownloadAwaitDone;
                        Client.files := write fs filename (concat blocks) |};
           server := sv; stdin := lines; to_server := [];
           to_client := after; history := h' |}.
Proof.
  induction blocks as [|block blocks IH];
    intros fs written b sv lines after h Hfile Hb Htotal Hall Hne; [congruence|].
  apply Forall_cons_iff in Hall as [[Hblock Hfit] Hrest].
  rewrite total_length_cons in Htotal.
  assert (Hrecv : receive (encryptDecrypt block) = block)
    by now apply receive_sent.
  assert (Hmore : (0 <= total_length blocks)%Z) by (unfold total_length; lia).
  assert (Hlt : (b < fileSize)%Z).
  { destruct block; [congruence|]. cbn [length] in Htotal. lia. }
  assert (Hstep : Client.step ci (downloading filename fileSize fs b)
                              (encryptDecrypt block)
                  = Client.download_while (write fs filename block) filename
                      fileSize (b + Z.of_nat (length block)) []).
  { rewrite download_chunk_step by (rewrite ?Hrecv; (assumption || lia)).
    rewrite Hrecv, firstn_all2 by lia. reflexivity. }
  destruct blocks as [|next blocks].
  - (* the last block *)
    unfold total_length in Htotal. cbn [concat length] in Htotal.
    eexists. eapply reaches_step; [|apply reaches_refl].
    rewrite (sys_step_client_reads _ _ _ (encryptDecrypt block) after);
      [| reflexivity | cbn; discriminate | cbn; discriminate | reflexivity
       | now rewrite encryptDecrypt_length].
    cbn [client]. rewrite Hstep.
    unfold Client.download_while, Client.download_finish.
    replace (b + Z.of_nat (length block))%Z with fileSize by lia.
    rewrite Z.ltb_irrefl, Z.leb_refl.
    cbn [client server stdin to_server to_client history app transmitted concat].
    rewrite app_nil_r. reflexivity.
  - (* more blocks follow *)
    assert (Hpos : (0 < total_length (next :: blocks))%Z)
      by (apply total_length_positive; [assumption | discriminate]).
    destruct (IH (write fs filename block) (written ++ block)
                 (b + Z.of_nat (length block))%Z sv lines after
                 (h ++ map (pair TheClient) []))
      as [h' Hreach]; try assumption; try lia; try discriminate.
    { now apply content_of_write. }
    exists h'. eapply reaches_step; [|].
    + rewrite (sys_step_client_reads _ _ _ (encryptDecrypt block)
                                     (map encryptDecrypt (next :: blocks) ++ after));
        [| reflexivity | cbn; discriminate | cbn; discriminate | reflexivity
         | now rewrite encryptDecrypt_length].
      cbn [client]. rewrite Hstep.
      unfold Client.download_while.
      destruct (Z.ltb_spec (b + Z.of_nat (length block)) fileSize); [|lia].
      cbn [client server stdin to_server to_client history transmitted].
      reflexivity.
    + fold (downloading filename fileSize (write fs filename block)
                        (b + Z.of_nat (length block))).
      cbn [concat]. rewrite <- (write_write _ _ _ _ _ Hfile).
      exact Hreach.
Qed.

End Loops.

(** ** An upload, from the command line to the prompt *)

Lemma upload_command_fits (filename : bytes) (n : Z) :
  length filename + 27 <= BUFFER_SIZE -> (0 <= n <= LLONG_MAX)%Z ->
  length (lit "UPLOAD " ++ filename ++ lit " " ++ to_string n) <= BUFFER_SIZE.
Proof.
  intros Hf Hn. rewrite !length_app. pose proof (to_string_length n Hn).
  change (length (lit "UPLOAD ")) with 7. change (length (lit " ")) with 1. lia.
Qed.

Lemma transmitted_out_blocks (text : bytes) (blocks : list bytes) :
  Forall (fun block => block <> []) blocks ->
  transmitted (Out text :: map send_message blocks) = map encryptDecrypt blocks.
Proof. intros H. cbn [transmitted]. now apply transmitted_blocks. Qed.

Lemma blocks_fit (n : nat) (content : bytes) :
  0 < n -> n <= BUFFER_SIZE ->
  Forall (fun block => block <> [] /\ length block <= BUFFER_SIZE)
         (read_blocks n content).
Proof.
  intros Hn Hle. eapply Forall_impl; [|apply (read_blocks_bounds n Hn)].
  intros block [H1 H2]. split; [assumption | lia].
Qed.

Lemma blocks_nonempty (n : nat) (content : bytes) :
  0 < n -> Forall (fun block => block <> []) (read_blocks n content).
Proof.
  intros Hn. eapply Forall_impl; [|apply (read_blocks_bounds n Hn)].
  now intros block [H1 _].
Qed.

Lemma read_blocks_nil (n : nat) (content : bytes) :
  0 < n -> read_blocks n content = [] -> content = [].
Proof.
  intros Hn H. rewrite <- (read_blocks_concat n Hn content). now rewrite H.
Qed.

Section Transfers.

Variables ci si : Z.

Lemma upload_completes (cfs sfs sfs1 : FS) (filename content : bytes)
      (lines : list bytes) (h : list (party * event)) :
  is_word filename ->
  length filename + 27 <= BUFFER_SIZE ->
  open_read cfs filename = Some content ->
  (Z.of_nat (length content) <= LLONG_MAX)%Z ->
  open_write sfs filename = Some sfs1 ->
  exists h',
    reaches ci si
      (resting cfs sfs ((lit "upload " ++ filename) :: lines) h)
      (resting cfs (write sfs1 filename content) lines h').
Proof.
  intros Hword Hname Hread Hlen Hwrite.
  set (fileSize := Z.of_nat (length content)).
  assert (Hsize : (0 <= fileSize <= LLONG_MAX)%Z) by (unfold fileSize; lia).
  set (cmd := lit "UPLOAD " ++ filename ++ lit " " ++ to_string fileSize).
  assert (Hcmd : length cmd <= BUFFER_SIZE) by now apply upload_command_fits.
  set (blocks := read_blocks (BUFFER_SIZE / 2) content).
  assert (Hhalf : 0 < BUFFER_SIZE / 2) by (vm_compute; lia).
  assert (Hblocks : Forall (fun block => block <> [] /\ length block <= BUFFER_SIZE)
                           blocks).
  { apply blocks_fit; [exact Hhalf | vm_compute; lia]. }
  pose proof (content_of_open_write _ _ _ Hwrite) as Hfile.
  (* the client types the command *)
  assert (H1 : exists h1,
    reaches ci si
      (resting cfs sfs ((lit "upload " ++ filename) :: lines) h)
      {| client := {| Client.pc := Client.UploadAwaitOk filename content fileSize;
                      Client.files := cfs |};
         server := awaiting true sfs; stdin := lines;
         to_server := [encryptDecrypt cmd]; to_client := []; history := h1 |}).
  { eexists. eapply reaches_step; [|apply reaches_refl].
    erewrite sys_step_types; try reflexivity.
    2:{ rewrite client_types_upload by exact Hword.
        unfold Client.handleUpload. cbn [resting client Client.files].
        rewrite Hread, (tellg_end_in_range _ Hlen). reflexivity. }
    cbn [resting client server stdin to_server to_client history
         transmitted prompt_text send_message app].
    rewrite is_empty_encryptDecrypt, is_empty_app by discriminate.
    reflexivity. }
  destruct H1 as [h1 H1].
  (* the server opens the file and lets the client go ahead *)
  assert (Hserver : Server.step si (awaiting true sfs) (encryptDecrypt cmd)
                    = Server.upload_while (awaiting true sfs) sfs1 filename
                        fileSize 0
                        [Server.log (lit "Received command: " ++ cmd);
                         send_message (lit "OK_UPLOAD")]).
  { unfold cmd. rewrite server_upload_command; try reflexivity; try assumption.
    cbn [awaiting Server.files]. now rewrite Hwrite. }
  assert (Hok : length (encryptDecrypt (lit "OK_UPLOAD")) <= BUFFER_SIZE)
    by (vm_compute; lia).
  assert (Hsuccess : length (encryptDecrypt (lit "UPLOAD_SUCCESS")) <= BUFFER_SIZE)
    by (vm_compute; lia).
  assert (Hresult : forall fs,
    Client.step ci {| Client.pc := Client.UploadAwaitResult; Client.files := fs |}
                (encryptDecrypt (lit "UPLOAD_SUCCESS"))
    = ({| Client.pc := Client.Prompt; Client.files := fs |},
       [Out (lit "[+] Server response: " ++ lit "UPLOAD_SUCCESS" ++ NL)])).
  { intros fs. unfold Client.step. cbn [Client.pc Client.files].
    rewrite receive_sent by (vm_compute; lia). reflexivity. }
  destruct (Z.ltb_spec 0 fileSize) as [Hpos | Hzero].
  - (* some content *)
    assert (Hne : blocks <> []).
    { intros E. apply read_blocks_nil in E; [|exact Hhalf].
      unfold fileSize in Hpos. rewrite E in Hpos. cbn in Hpos. lia. }
    destruct (sys_upload_chunks ci si filename fileSize (proj2 Hsize) blocks
                sfs1 [] 0
                {| Client.pc := Client.UploadAwaitResult; Client.files := cfs |}
                lines []
                ((h1 ++ map (pair TheServer)
                        [Server.log (lit "Received command: " ++ cmd);
                         send_message (lit "OK_UPLOAD")])
                 ++ map (pair TheClient)
                      (Out (lit "[+] Uploading " ++ filename ++ lit " ("
                            ++ to_string fileSize ++ lit " bytes)..." ++ NL)
                       :: map send_message blocks)))
      as [h2 H2]; try assumption; try lia.
    { unfold total_length, blocks.
      rewrite (read_blocks_concat _ Hhalf). reflexivity. }
    eexists. eapply reaches_trans; [exact H1|].
    eapply reaches_step.
    { rewrite (sys_step_server_reads _ _ _ (encryptDecrypt cmd) []);
        [| cbn; discriminate | reflexivity | now rewrite encryptDecrypt_length].
      cbn [server]. rewrite Hserver. unfold Server.upload_while.
      destruct (Z.ltb_spec 0 fileSize); [|lia].
      cbn [client stdin to_client history fst snd app transmitted
           Server.log send_message awaiting Server.isAuthenticated].
      change (is_empty (encryptDecrypt (lit "OK_UPLOAD"))) with false.
      cbv iota. reflexivity. }
    eapply reaches_step.
    { rewrite (sys_step_client_reads _ _ _ (encryptDecrypt (lit "OK_UPLOAD")) []);
        [| reflexivity | cbn; discriminate | cbn; discriminate | reflexivity
         | exact Hok].
      cbn [client]. rewrite client_upload_ok. fold blocks.
      cbn [server stdin history fst snd].
      rewrite transmitted_out_blocks
        by (apply blocks_nonempty; exact Hhalf).
      reflexivity. }
    eapply reaches_trans.
    { unfold receiving in H2. exact H2. }
    eapply reaches_step; [|apply reaches_refl].
    rewrite (sys_step_client_reads _ _ _ (encryptDecrypt (lit "UPLOAD_SUCCESS")) []);
      [| reflexivity | cbn; discriminate | cbn; discriminate | reflexivity
       | exact Hsuccess].
    cbn [client]. rewrite Hresult.
    cbn [server stdin history fst snd transmitted].
    unfold resting, blocks. rewrite (read_blocks_concat _ Hhalf). reflexivity.
  - (* an empty file *)
    assert (Hempty : content = []).
    { destruct content; [reflexivity|]. unfold fileSize in Hzero.
      cbn [length] in Hzero. lia. }
    assert (Hfs : fileSize = 0%Z) by lia.
    eexists. eapply reaches_trans; [exact H1|].
    eapply reaches_step.
    { rewrite (sys_step_server_reads _ _ _ (encryptDecrypt cmd) []);
        [| cbn; discriminate | reflexivity | now rewrite encryptDecrypt_length].
      cbn [server]. rewrite Hserver. unfold Server.upload_while, Server.upload_finish.
      rewrite Hfs. cbn [Z.ltb Z.eqb Z.compare].
      cbn [client stdin to_client history fst snd app transmitted
           Server.log send_message awaiting Server.isAuthenticated
           Server.next_command].
      change (is_empty (encryptDecrypt (lit "OK_UPLOAD"))) with false.
      change (is_empty (encryptDecrypt (lit "UPLOAD_SUCCESS"))) with false.
      cbv iota. reflexivity. }
    eapply reaches_step.
    { rewrite (sys_step_client_reads _ _ _ (encryptDecrypt (lit "OK_UPLOAD"))
                 [encryptDecrypt (lit "UPLOAD_SUCCESS")]);
        [| reflexivity | cbn; discriminate | cbn; discriminate | reflexivity
         | exact Hok].
      cbn [client]. rewrite client_upload_ok. rewrite Hempty.
      cbn [server stdin history fst snd].
      change (read_blocks (BUFFER_SIZE / 2) []) with (@nil bytes).
      cbn [map transmitted]. reflexivity. }
    eapply reaches_step; [|apply reaches_refl].
    rewrite (sys_step_client_reads _ _ _ (encryptDecrypt (lit "UPLOAD_SUCCESS")) []);
      [| reflexivity | cbn; discriminate | cbn; discriminate | reflexivity
       | exact Hsuccess].
    cbn [client]. rewrite Hresult.
    cbn [server stdin history fst snd transmitted].
    unfold resting. rewrite Hempty, (write_nil _ _ _ Hfile). reflexivity.
Qed.

Lemma download_completes (cfs cfs1 sfs : FS) (filename content : bytes)
      (lines : list bytes) (h : list (party * event)) :
  is_word filename ->
  length filename + 27 <= BUFFER_SIZE ->
  open_read sfs filename = Some content ->
  (Z.of_nat (length content) <= LLONG_MAX)%Z ->
  open_write cfs filename = Some cfs1 ->
  exists h',
    reaches ci si
      (resting cfs sfs ((lit "download " ++ filename) :: lines) h)
      (resting (write cfs1 filename content) sfs lines h').
Proof.
  intros Hword Hname Hread Hlen Hwrite.
  set (fileSize := Z.of_nat (length content)).
  assert (Hsize : (0 <= fileSize <= LLONG_MAX)%Z) by (unfold fileSize; lia).
  set (cmd := lit "DOWNLOAD " ++ filename).
  assert (Hcmd : length cmd <= BUFFER_SIZE).
  { unfold cmd. rewrite length_app. change (length (lit "DOWNLOAD ")) with 9. lia. }
  set (blocks := read_blocks BUFFER_SIZE content).
  assert (Hbuf : 0 < BUFFER_SIZE) by (vm_compute; lia).
  assert (Hblocks : Forall (fun block => block <> [] /\ length block <= BUFFER_SIZE)
                           blocks)
    by (apply blocks_fit; [exact Hbuf | lia]).
  pose proof (content_of_open_write _ _ _ Hwrite) as Hfile.
  set (evs3 := [Out (lit "[+] Server OK. File size: " ++ to_string fileSize
                     ++ lit " bytes." ++ NL);
                send_message (lit "START");
                Out (lit "[+] Downloading " ++ filename ++ lit "..." ++ NL)]).
  assert (Hreply : Client.step ci
                     {| Client.pc := Client.DownloadAwaitReply filename;
                        Client.files := cfs |}
                     (encryptDecrypt (lit "OK_DOWNLOAD " ++ to_string fileSize))
                   = Client.download_while cfs1 filename fileSize 0 evs3).
  { rewrite client_download_reply by exact Hsize. cbv zeta. now rewrite Hwrite. }
  assert (Hstart : Server.step si
                     {| Server.pc := Server.AwaitStart filename content;
                        Server.isAuthenticated := true; Server.files := sfs |}
                     (encryptDecrypt (lit "START"))
                   = (awaiting true sfs,
                      map send_message blocks
                      ++ [Server.log (lit "Finished sending " ++ filename);
                          send_message (lit "DOWNLOAD_DONE")])).
  { unfold Server.step, Server.on_start. cbn [Server.pc].
    rewrite receive_sent by (vm_compute; lia). rewrite beq_refl. reflexivity. }
  assert (Hsent : transmitted
                    (map send_message blocks
                     ++ [Server.log (lit "Finished sending " ++ filename);
                         send_message (lit "DOWNLOAD_DONE")])
                  = map encryptDecrypt blocks
                    ++ [encryptDecrypt (lit "DOWNLOAD_DONE")]).
  { rewrite transmitted_app, transmitted_blocks
      by (apply blocks_nonempty; exact Hbuf).
    reflexivity. }
  assert (Hdone : forall fs,
    Client.step ci {| Client.pc := Client.DownloadAwaitDone; Client.files := fs |}
                (encryptDecrypt (lit "DOWNLOAD_DONE"))
    = ({| Client.pc := Client.Prompt; Client.files := fs |}, [])).
  { intros fs. unfold Client.step, Client.on_download_done.
    cbn [Client.pc Client.files].
    rewrite receive_sent by (vm_compute; lia). now rewrite beq_refl. }
  assert (Hfit_done : length (encryptDecrypt (lit "DOWNLOAD_DONE")) <= BUFFER_SIZE)
    by (vm_compute; lia).
  assert (Hfit_start : length (encryptDecrypt (lit "START")) <= BUFFER_SIZE)
    by (vm_compute; lia).
  (* the command and the size acknowledgement *)
  assert (H2 : exists h2,
    reaches ci si
      (resting cfs sfs ((lit "download " ++ filename) :: lines) h)
      {| client := {| Client.pc := Client.DownloadAwaitReply filename;
                      Client.files := cfs |};
         server := {| Server.pc := Server.AwaitStart filename content;
                      Server.isAuthenticated := true; Server.files := sfs |};
         stdin := lines; to_server := [];
         to_client := [encryptDecrypt (lit "OK_DOWNLOAD " ++ to_string fileSize)];
         history := h2 |}).
  { eexists. eapply reaches_step.
    { erewrite sys_step_types;
        [| reflexivity | reflexivity | reflexivity
         | apply client_types_download; exact Hword].
      cbn [resting client server stdin to_server to_client history
           Client.files transmitted prompt_text send_message app].
      rewrite is_empty_encryptDecrypt, is_empty_app by discriminate.
      reflexivity. }
    eapply reaches_step; [|apply reaches_refl].
    rewrite (sys_step_server_reads _ _ _ (encryptDecrypt cmd) []);
      [| cbn; discriminate | reflexivity | now rewrite encryptDecrypt_length].
    cbn [server]. unfold cmd.
    rewrite server_download_command; try reflexivity; try assumption.
    cbn [awaiting Server.files Server.isAuthenticated].
    rewrite Hread, (tellg_end_in_range _ Hlen). fold fileSize.
    cbn [client stdin to_client history fst snd app transmitted
         Server.log send_message].
    rewrite is_empty_encryptDecrypt, is_empty_app by discriminate.
    reflexivity. }
  destruct H2 as [h2 H2].
  destruct (Z.ltb_spec 0 fileSize) as [Hpos | Hzero].
  - (* some content *)
    assert (Hne : blocks <> []).
    { intros E. apply read_blocks_nil in E; [|exact Hbuf].
      unfold fileSize in Hpos. rewrite E in Hpos. cbn in Hpos. lia. }
    destruct (sys_download_chunks ci si filename fileSize (proj2 Hsize) blocks
                cfs1 [] 0 (awaiting true sfs) lines
                [encryptDecrypt (lit "DOWNLOAD_DONE")]
                ((h2 ++ map (pair TheClient) evs3)
                 ++ map (pair TheServer)
                      (map send_message blocks
                       ++ [Server.log (lit "Finished sending " ++ filename);
                           send_message (lit "DOWNLOAD_DONE")])))
      as [h3 H3]; try assumption; try lia.
    { unfold total_length, blocks.
      rewrite (read_blocks_concat _ Hbuf). reflexivity. }
    eexists. eapply reaches_trans; [exact H2|].
    eapply reaches_step.
    { rewrite (sys_step_client_reads _ _ _
                 (encryptDecrypt (lit "OK_DOWNLOAD " ++ to_string fileSize)) []);
        [| reflexivity | cbn; discriminate | cbn; discriminate | reflexivity
         | now apply ok_download_fits].
      cbn [client]. rewrite Hreply. unfold Client.download_while.
      destruct (Z.ltb_spec 0 fileSize); [|lia].
      cbn [server stdin history fst snd evs3 transmitted send_message].
      change (is_empty (encryptDecrypt (lit "START"))) with false.
      cbv iota. reflexivity. }
    eapply reaches_step.
    { rewrite (sys_step_server_reads _ _ _ (encryptDecrypt (lit "START")) []);
        [| cbn; discriminate | reflexivity | exact Hfit_start].
      cbn [server]. rewrite Hstart.
      cbn [client stdin to_client history fst snd]. rewrite Hsent.
      cbn [app]. reflexivity. }
    eapply reaches_trans.
    { unfold downloading in H3. exact H3. }
    eapply reaches_step; [|apply reaches_refl].
    rewrite (sys_step_client_reads _ _ _ (encryptDecrypt (lit "DOWNLOAD_DONE")) []);
      [| reflexivity | cbn; discriminate | cbn; discriminate | reflexivity
       | exact Hfit_done].
    cbn [client]. rewrite Hdone.
    cbn [server stdin history fst snd transmitted].
    unfold resting, blocks. rewrite (read_blocks_concat _ Hbuf). reflexivity.
  - (* an empty file *)
    assert (Hempty : content = []).
    { destruct content; [reflexivity|]. unfold fileSize in Hzero.
      cbn [length] in Hzero. lia. }
    assert (Hfs : fileSize = 0%Z) by lia.
    assert (Hnone : blocks = []) by (unfold blocks; now rewrite Hempty).
    eexists. eapply reaches_trans; [exact H2|].
    eapply reaches_step.
    { rewrite (sys_step_client_reads _ _ _
                 (encryptDecrypt (lit "OK_DOWNLOAD " ++ to_string fileSize)) []);
        [| reflexivity | cbn; discriminate | cbn; discriminate | reflexivity
         | now apply ok_download_fits].
      cbn [client]. rewrite Hreply.
      unfold Client.download_while, Client.download_finish.
      destruct (Z.ltb_spec 0 fileSize); [lia|].
      destruct (Z.leb_spec fileSize 0); [|lia].
      cbn [server stdin history fst snd evs3 transmitted send_message app].
      change (is_empty (encryptDecrypt (lit "START"))) with false.
      cbv iota. reflexivity. }
    eapply reaches_step.
    { rewrite (sys_step_server_reads _ _ _ (encryptDecrypt (lit "START")) []);
        [| cbn; discriminate | reflexivity | exact Hfit_start].
      cbn [server]. rewrite Hstart.
      cbn [client stdin to_client history fst snd]. rewrite Hsent, Hnone.
      cbn [app map]. reflexivity. }
    eapply reaches_step; [|apply reaches_refl].
    rewrite (sys_step_client_reads _ _ _ (encryptDecrypt (lit "DOWNLOAD_DONE")) []);
      [| reflexivity | cbn; discriminate | cbn; discriminate | reflexivity
       | exact Hfit_done].
    cbn [client]. rewrite Hdone.
    cbn [server stdin history fst snd transmitted].
    unfold resting. rewrite Hempty, (write_nil _ _ _ Hfile). reflexivity.
Qed.

End Transfers.

(** ** Round trip *)

Lemma runs_to_sys_run (ci si : Z) (s final : system) :
  runs_to ci si s final ->
  exists n, forall fuel, n <= fuel -> sys_run ci si fuel s = final.
Proof.
  intros [Hreach Hrest]. induction Hreach as [s | s s1 s2 Hstep _ IH].
  - exists 0. intros fuel _. destruct fuel; [reflexivity|].
    cbn [sys_run]. now rewrite Hrest.
  - destruct (IH Hrest) as [n Hn]. exists (S n). intros fuel Hfuel.
    destruct fuel as [|fuel]; [lia|].
    cbn [sys_run]. rewrite Hstep. apply Hn. lia.
Qed.

Lemma resting_at_rest (ci si : Z) (cfs sfs : FS) (h : list (party * event)) :
  sys_step ci si (resting cfs sfs [] h) = None.
Proof. apply at_rest; try reflexivity; cbn; discriminate. Qed.

Lemma read_back (fs fs1 : FS) (filename content : bytes) :
  open_write fs filename = Some fs1 ->
  content_of (write fs1 filename content) filename = Some content.
Proof.
  intros H. apply content_of_open_write in H.
  now rewrite (content_of_write _ _ _ content H).
Qed.

(** C2: a file of any length sent with [upload] and fetched again with
    [download] comes back byte for byte, each message sent being received
    as one message: in one session, where the download rewrites the
    client's file, and also when the download goes to another client store
    [other], whatever it held.  The name is one word of the command line,
    short enough for the command to fit one message; the length is a
    64-bit size; both destinations can be opened for writing. *)
Theorem C2_upload_download_round_trip
        (ci si : Z) (cfs sfs other : FS) (filename content : bytes) :
  is_word filename ->
  length filename + 27 <= BUFFER_SIZE ->
  (Z.of_nat (length content) <= LLONG_MAX)%Z ->
  open_read cfs filename = Some content ->
  open_write sfs filename <> None ->
  open_write cfs filename <> None ->
  open_write other filename <> None ->
  settles_with ci si
    (session cfs sfs [lit "upload " ++ filename; lit "download " ++ filename])
    filename content /\
  exists uploaded,
    runs_to ci si (session cfs sfs [lit "upload " ++ filename]) uploaded /\
    content_of (Server.files (server uploaded)) filename = Some content /\
    settles_with ci si
      (session other (Server.files (server uploaded))
               [lit "download " ++ filename])
      filename content.
Proof.
  intros Hword Hname Hlen Hread Hs Hc Ho.
  destruct (open_write sfs filename) as [sfs1|] eqn:Hsfs; [clear Hs | congruence].
  destruct (open_write cfs filename) as [cfs1|] eqn:Hcfs; [clear Hc | congruence].
  destruct (open_write other filename) as [other1|] eqn:Hother;
    [clear Ho | congruence].
  pose proof (read_back _ _ _ content Hsfs) as Hstored.
  assert (Hsettle : forall s final,
            runs_to ci si s final ->
            Client.pc (client final) = Client.Prompt ->
            Server.pc (server final) = Server.AwaitCommand ->
            content_of (Server.files (server final)) filename = Some content ->
            content_of (Client.files (client final)) filename = Some content ->
            settles_with ci si s filename content).
  { intros s final Hrun H1 H2 H3 H4. exists final.
    split; [exact Hrun|]. split; [now apply runs_to_sys_run|]. auto. }
  split.
  - destruct (upload_completes ci si cfs sfs sfs1 filename content
                [lit "download " ++ filename] [] Hword Hname Hread Hlen Hsfs)
      as [h1 H1].
    destruct (download_completes ci si cfs cfs1 (write sfs1 filename content)
                filename content [] h1 Hword Hname Hstored Hlen Hcfs)
      as [h2 H2].
    apply (Hsettle _ (resting (write cfs1 filename content)
                              (write sfs1 filename content) [] h2));
      try reflexivity.
    + split; [|apply resting_at_rest].
      eapply reaches_trans; [exact H1 | exact H2].
    + exact Hstored.
    + exact (read_back _ _ _ content Hcfs).
  - destruct (upload_completes ci si cfs sfs sfs1 filename content
                [] [] Hword Hname Hread Hlen Hsfs)
      as [h1 H1].
    exists (resting cfs (write sfs1 filename content) [] h1).
    split; [split; [exact H1 | apply resting_at_rest]|].
    split; [exact Hstored|].
    cbn [resting server awaiting Server.files].
    destruct (download_completes ci si other other1 (write sfs1 filename content)
                filename content [] [] Hword Hname Hstored Hlen Hother)
      as [h2 H2].
    apply (Hsettle _ (resting (write other1 filename content)
                              (write sfs1 filename content) [] h2));
      try reflexivity.
    + split; [exact H2 | apply resting_at_rest].
    + exact Hstored.
    + exact (read_back _ _ _ content Hother).
Qed.

(** * The statements at concrete inputs *)

(** C1 at ["hello"]: the second byte is ['e'] XOR ['y'], 101 XOR 121 =
    28, and the five bytes of the output are 5, 28, 31, 9, 12. *)
Lemma C1_codec_on_hello :
  encryptDecrypt (encryptDecrypt (lit "hello")) = lit "hello" /\
  length (encryptDecrypt (lit "hello")) = 5 /\
  nth_error (encryptDecrypt (lit "hello")) 1 = Some (xor_byte "e"%char "y"%char) /\
  option_map N_of_ascii (nth_error (encryptDecrypt (lit "hello")) 1) = Some 28%N /\
  map N_of_ascii (encryptDecrypt (lit "hello")) = [5; 28; 31; 9; 12]%N.
Proof.
  destruct (proj2 C1_codec_involutive_length_preserving (lit "hello"))
    as (Hinv & Hlen & Hbyte & Hvalue).
  split; [exact Hinv|]. split; [exact Hlen|].
  split; [apply (Hbyte 1); vm_compute; lia|].
  split; [apply (Hvalue 1); vm_compute; lia|].
  reflexivity.
Defined.

(** Closed side conditions, by evaluation. *)
Ltac closed_fact :=
  first [ reflexivity
        | discriminate
        | vm_compute; first [ reflexivity | discriminate | lia
                            | split; discriminate
                            | intros E; discriminate E ] ].

Ltac word_fact := split; [discriminate | reflexivity].

(** C2 at 0 and 1 bytes, around the block sizes of the upload (2048) and
    of the download (4096), and at two blocks and a remainder. *)
Lemma C2_round_trip_at_chunk_boundaries :
  Forall
    (fun n =>
       settles_with 0 0
         (session (holding (lit "f.bin") (ramp n)) empty_store
                  [lit "upload f.bin"; lit "download f.bin"])
         (lit "f.bin") (ramp n))
    [0; 1; 2047; 2048; 4095; 4096; 2 * 4096 + 5].
Proof.
  repeat constructor;
    apply (C2_upload_download_round_trip
             0 0 (holding (lit "f.bin") (ramp _)) empty_store empty_store
             (lit "f.bin") (ramp _));
    first [ word_fact | closed_fact ].
Defined.

(** C3 for a declared size of 5: overshoot, disconnect and success. *)
Lemma C3_overshoot_disconnect_and_success :
  let fs := holding (lit "f") [] in
  let run chunks last :=
    Server.run 0 (receiving (lit "f") 5 true fs 0) (chunks ++ [last]) in
  let reply chunks last := transmitted (snd (run chunks last)) in
  let stored chunks last :=
    content_of (Server.files (fst (run chunks last))) (lit "f") in
  (* 3 bytes, then 4 more: past the declared 5 *)
  (reply [encryptDecrypt (lit "abc")] (encryptDecrypt (lit "defg"))
     = [encryptDecrypt (lit "ERROR Upload incomplete.")] /\
   stored [encryptDecrypt (lit "abc")] (encryptDecrypt (lit "defg"))
     = Some (lit "abcdefg")) /\
  (* 3 bytes, then the connection is lost *)
  reply [encryptDecrypt (lit "abc")] []
    = [encryptDecrypt (lit "ERROR Upload incomplete.")] /\
  (* 3 bytes, then the 2 that were missing *)
  reply [encryptDecrypt (lit "abc")] (encryptDecrypt (lit "de"))
    = [encryptDecrypt (lit "UPLOAD_SUCCESS")].
Proof.
  intros fs run reply stored.
  assert (Hfile : content_of fs (lit "f") = Some []) by reflexivity.
  assert (Hsize : (0 < 5 <= LLONG_MAX - Z.of_nat BUFFER_SIZE)%Z)
    by (vm_compute; split; [reflexivity | discriminate]).
  assert (Hchunks : Forall (fun avail => receive avail <> [])
                           [encryptDecrypt (lit "abc")])
    by (repeat constructor; vm_compute; discriminate).
  assert (HK : (Z.of_nat (length (received [encryptDecrypt (lit "abc")])) < 5)%Z)
    by reflexivity.
  split; [|split].
  - pose proof (C3_upload_completion 0 true fs (lit "f") [] 5
                  [encryptDecrypt (lit "abc")] (encryptDecrypt (lit "defg"))
                  Hfile Hsize Hchunks HK) as H.
    cbv zeta in H.
    destruct H as (_ & _ & _ & _ & Hover & Hstored & _);
      [right; vm_compute; discriminate|].
    split; [apply Hover; reflexivity | exact Hstored].
  - pose proof (C3_upload_completion 0 true fs (lit "f") [] 5
                  [encryptDecrypt (lit "abc")] []
                  Hfile Hsize Hchunks HK) as H.
    cbv zeta in H.
    destruct H as (_ & _ & _ & Hlost & _); [left; reflexivity|].
    apply Hlost. reflexivity.
  - pose proof (C3_upload_completion 0 true fs (lit "f") [] 5
                  [encryptDecrypt (lit "abc")] (encryptDecrypt (lit "de"))
                  Hfile Hsize Hchunks HK) as H.
    cbv zeta in H.
    destruct H as (_ & Hiff & _); [right; vm_compute; discriminate|].
    apply Hiff. reflexivity.
Defined.

(** C4, amended, at a declared size of 3 and a message of 5 bytes: the
    client keeps at most 3, the server keeps all 5. *)
Lemma C4_download_of_3_bytes_fed_5 :
  (exists data,
     content_of
       (Client.files
          (fst (Client.run 0
                  (fst (Client.download_while (holding (lit "f") [])
                          (lit "f") 3 0 []))
                  [encryptDecrypt (lit "hello");
                   encryptDecrypt (lit "DOWNLOAD_DONE")])))
       (lit "f") = Some data /\
     (Z.of_nat (length data) <= 3)%Z /\
     data = firstn (length data)
              (received [encryptDecrypt (lit "hello");
                         encryptDecrypt (lit "DOWNLOAD_DONE")])) /\
  content_of
    (Server.files
       (fst (Server.step 0
               (receiving (lit "f") 3 true (holding (lit "f") []) 0)
               (encryptDecrypt (lit "hello")))))
    (lit "f") = Some ([] ++ receive (encryptDecrypt (lit "hello"))).
Proof.
  split.
  - apply (proj1 (C4_receiver_byte_bounds 0)
                 (holding (lit "f") []) (lit "f") 3%Z
                 [encryptDecrypt (lit "hello");
                  encryptDecrypt (lit "DOWNLOAD_DONE")]).
    + reflexivity.
    + vm_compute. split; discriminate.
  - apply (proj2 (C4_receiver_byte_bounds 0)).
    + reflexivity.
    + vm_compute. discriminate.
Defined.

(** C5 with 3 of 5 bytes received and a message of 5 more: 2 are kept,
    and a final message other than the sentinel is only warned about. *)
Lemma C5_truncation_of_the_last_message :
  let st := downloading (lit "f") 5 (holding (lit "f") (lit "abc")) 3 in
  let st1 := fst (Client.step 0 st (encryptDecrypt (lit "defgh"))) in
  content_of (Client.files st1) (lit "f") = Some (lit "abcde") /\
  Client.pc st1 = Client.DownloadAwaitDone /\
  snd (Client.step 0 st1 (encryptDecrypt (lit "oops")))
    = [Out (lit "[+] Warning: Did not receive final DONE signal. Got: "
            ++ lit "oops" ++ NL)].
Proof.
  intros st st1.
  pose proof (C5_download_truncation 0 (holding (lit "f") (lit "abc"))
                (lit "f") (lit "abc") 5 3
                (encryptDecrypt (lit "defgh")) (encryptDecrypt (lit "oops")))
    as H.
  cbv zeta in H.
  destruct H as (_ & _ & _ & Hfile & Hpc & _ & _ & Hwarn).
  - reflexivity.
  - vm_compute. split; [discriminate | reflexivity].
  - vm_compute. split; [reflexivity | discriminate].
  - split; [exact Hfile|]. split; [exact Hpc|].
    apply Hwarn. vm_compute. discriminate.
Defined.

(** C6 at [QUIT] before authentication, at three rejected attempts in a
    row, and at the accepted AUTH: the flag becomes [true] and the LIST
    that follows is served. *)
Lemma C6_gate_on_quit_and_retries :
  let unauthenticated := Server.initial empty_store in
  (fst (Server.step 0 unauthenticated (encryptDecrypt (lit "QUIT")))
     = unauthenticated /\
   transmitted (snd (Server.step 0 unauthenticated (encryptDecrypt (lit "QUIT"))))
     = [encryptDecrypt (lit "ERROR Authentication required.")]) /\
  fst (Server.run 0 unauthenticated
         [encryptDecrypt (lit "LIST");
          encryptDecrypt (lit "AUTH user wrong");
          encryptDecrypt (lit "AUTH nouser x")])
    = unauthenticated /\
  Server.isAuthenticated unauthenticated = false /\
  Server.isAuthenticated
    (fst (Server.step 0 unauthenticated
            (encryptDecrypt (lit "AUTH user pass123")))) = true /\
  transmitted
    (snd (Server.step 0
            (fst (Server.step 0 unauthenticated
                    (encryptDecrypt (lit "AUTH user pass123"))))
            (encryptDecrypt (lit "LIST"))))
    = [encryptDecrypt (lit "Files on server:" ++ NL)].
Proof.
  intros unauthenticated.
  destruct (C6_authentication_gate 0 empty_store)
    as (_ & _ & _ & Haccept & _ & Hother & Hretry).
  destruct Haccept as (_ & _ & Hbefore & Hflag & _ & _ & Hlist).
  split; [|split; [|split; [|split]]].
  - destruct (Hother (encryptDecrypt (lit "QUIT"))) as (Hstate & Hreply & _);
      [vm_compute; discriminate | vm_compute; discriminate |].
    split; [exact Hstate | exact Hreply].
  - apply Hretry. repeat constructor; vm_compute; discriminate.
  - exact Hbefore.
  - exact Hflag.
  - exact Hlist.
Defined.

(** C7, amended, for the root holding [a.txt] and [b.txt]. *)
Lemma C7_list_reply_for_a_and_b :
  transmitted
    (snd (Server.step 0
            {| Server.pc := Server.AwaitCommand;
               Server.isAuthenticated := true; Server.files := root_ab |}
            (encryptDecrypt (lit "LIST"))))
  = [encryptDecrypt (lit "Files on server:" ++ NL
                     ++ lit "a.txt" ++ NL ++ lit "b.txt" ++ NL)].
Proof.
  apply (C7_list_reply 0
           {| Server.pc := Server.AwaitCommand;
              Server.isAuthenticated := true; Server.files := root_ab |}
           (encryptDecrypt (lit "LIST"))); reflexivity.
Defined.

(** C8 when [CANCEL] arrives in place of [START]. *)
Lemma C8_silent_abort_on_cancel :
  let st := {| Server.pc := Server.AwaitStart (lit "a.txt") (lit "first");
               Server.isAuthenticated := true; Server.files := root_ab |} in
  fst (Server.step 0 st (encryptDecrypt (lit "CANCEL")))
    = {| Server.pc := Server.AwaitCommand;
         Server.isAuthenticated := true; Server.files := root_ab |} /\
  transmitted (snd (Server.step 0 st (encryptDecrypt (lit "CANCEL")))) = [].
Proof.
  intros st.
  destruct (C8_silent_abort 0 st (lit "a.txt") (lit "first")
              (encryptDecrypt (lit "CANCEL"))) as (Hst & Hsent & _).
  - reflexivity.
  - vm_compute. discriminate.
  - split; [exact Hst | exact Hsent].
Defined.

(** C9 for a file of 8197 bytes: blocks of 4096, 4096 and 5 bytes, then
    the sentinel. *)
Lemma C9_streaming_of_two_blocks_and_a_rest :
  let file := ramp (2 * 4096 + 5) in
  let st := {| Server.pc := Server.AwaitStart (lit "f.bin") file;
               Server.isAuthenticated := true;
               Server.files := holding (lit "f.bin") file |} in
  transmitted (snd (Server.step 0 st (encryptDecrypt (lit "START"))))
  = map encryptDecrypt (read_blocks BUFFER_SIZE file)
    ++ [encryptDecrypt (lit "DOWNLOAD_DONE")] /\
  map (@length byte) (read_blocks BUFFER_SIZE file) = [4096; 4096; 5].
Proof.
  intros file st.
  destruct (C9_download_streaming 0 st (lit "f.bin") file
              (encryptDecrypt (lit "START"))) as (_ & Hsent & _).
  - reflexivity.
  - reflexivity.
  - split; [exact Hsent | vm_compute; reflexivity].
Defined.

(** C10 for a client whose [a.txt] cannot be opened for writing. *)
Lemma C10_cancel_for_a_read_only_destination :
  exists final,
    runs_to 0 0
      (session {| entries := []; read_only := [lit "a.txt"] |} root_ab
               [lit "download a.txt"]) final /\
    sent_by TheClient final
      = [encryptDecrypt (lit "DOWNLOAD a.txt"); encryptDecrypt (lit "CANCEL")] /\
    sent_by TheServer final = [encryptDecrypt (lit "OK_DOWNLOAD 5")].
Proof.
  destruct (C10_cancel_when_destination_unwritable 0 0
              {| entries := []; read_only := [lit "a.txt"] |} root_ab
              (lit "a.txt") (lit "first"))
    as (final & Hrun & _ & _ & Hclient & Hserver & _).
  - split; [discriminate | reflexivity].
  - vm_compute. lia.
  - reflexivity.
  - vm_compute. discriminate.
  - reflexivity.
  - exists final. split; [exact Hrun|]. split; [exact Hclient | exact Hserver].
Defined.

(** * Further properties of the channel and of the session loop *)

(** ** One message, one read *)

Lemma xor_from_firstn (data : bytes) :
  forall i n, firstn n (xor_from i data) = xor_from i (firstn n data).
Proof.
  induction data as [|c rest IH]; intros i n.
  - now destruct n.
  - destruct n as [|n]; [reflexivity|]. cbn [xor_from firstn]. now rewrite IH.
Qed.

Lemma xor_from_skipn (data : bytes) :
  forall i n, skipn n (xor_from i data) = xor_from (i + n) (skipn n data).
Proof.
  induction data as [|c rest IH]; intros i n.
  - now destruct n.
  - destruct n as [|n]; [now rewrite Nat.add_0_r|].
    cbn [xor_from skipn]. rewrite IH. now rewrite Nat.add_succ_r.
Qed.

Lemma xor_from_same_offset (data : bytes) :
  forall i j,
    i mod length ENCRYPTION_KEY = j mod length ENCRYPTION_KEY ->
    xor_from i data = xor_from j data.
Proof.
  induction data as [|c rest IH]; intros i j Hij; [reflexivity|].
  cbn [xor_from]. rewrite Hij. f_equal. apply IH.
  change (S i) with (1 + i). change (S j) with (1 + j).
  rewrite (Nat.Div0.add_mod 1 i), (Nat.Div0.add_mod 1 j).
  now rewrite Hij.
Qed.

(** X1: what [receiveCommand]/[receiveResponse] return for a message sent
    by [sendResponse]/[sendCommand] is the first [BUFFER_SIZE] bytes of the
    message (all of it when it fits); and they return the empty string
    only when [recv] delivered nothing, so that a received chunk is never
    mistaken for a disconnect. *)
Theorem X1_message_round_trip (message avail : bytes) :
  receive (encryptDecrypt message) = firstn BUFFER_SIZE message /\
  (receive avail = [] <-> avail = []).
Proof.
  split.
  - rewrite receive_spec. unfold encryptDecrypt.
    rewrite xor_from_firstn. apply xor_from_twice.
  - split.
    + intros H. rewrite receive_spec in H.
      assert (Hlen : length (firstn BUFFER_SIZE avail) = 0)
        by (rewrite <- (encryptDecrypt_length (firstn BUFFER_SIZE avail)), H;
            reflexivity).
      rewrite length_firstn in Hlen.
      destruct avail; [reflexivity|]. cbn [length] in Hlen.
      unfold BUFFER_SIZE in Hlen. lia.
    + now intros ->.
Qed.

(** X2: the key index restarts at 0 on every read.  A message split over
    two reads is decoded correctly when the split falls on a multiple of
    the key length; split at [BUFFER_SIZE] (4096 = 11 * 372 + 4) the
    second read is decoded with the key four places off, and its first
    byte always differs from the byte that was sent. *)
Theorem X2_split_message_decoding (message : bytes) :
  (forall n,
     n mod length ENCRYPTION_KEY = 0 ->
     encryptDecrypt (firstn n (encryptDecrypt message))
     ++ encryptDecrypt (skipn n (encryptDecrypt message)) = message) /\
  (BUFFER_SIZE < length message ->
   nth_error (receive (skipn BUFFER_SIZE (encryptDecrypt message))) 0
   <> nth_error message BUFFER_SIZE).
Proof.
  split.
  - intros n Hn. unfold encryptDecrypt.
    rewrite xor_from_firstn, xor_from_skipn, xor_from_twice.
    rewrite (xor_from_same_offset _ 0 (0 + n))
      by (rewrite Nat.add_0_l, Hn; reflexivity).
    rewrite xor_from_twice. apply firstn_skipn.
  - intros Hlong. rewrite receive_spec. unfold encryptDecrypt.
    rewrite xor_from_skipn, xor_from_firstn.
    rewrite <- (firstn_skipn BUFFER_SIZE message) at 2.
    rewrite nth_error_app2 by (rewrite length_firstn; lia).
    replace (BUFFER_SIZE - length (firstn BUFFER_SIZE message)) with 0
      by (rewrite length_firstn; lia).
    destruct (skipn BUFFER_SIZE message) as [|c rest] eqn:E.
    { exfalso. apply (f_equal (@length byte)) in E.
      rewrite length_skipn in E. cbn [length] in E. lia. }
    change (firstn BUFFER_SIZE (c :: rest)) with (c :: firstn 4095 rest).
    cbn [xor_from nth_error].
    change (key_at ((0 + BUFFER_SIZE) mod length ENCRYPTION_KEY))
      with "c"%char.
    change (key_at (0 mod length ENCRYPTION_KEY)) with "m"%char.
    intros [= H]. revert H.
    destruct c as [[] [] [] [] [] [] [] []]; discriminate.
Qed.

(** X2 at a message of 5000 bytes. *)
Lemma X2_split_of_5000_bytes :
  encryptDecrypt (firstn 11 (encryptDecrypt (ramp 5000)))
  ++ encryptDecrypt (skipn 11 (encryptDecrypt (ramp 5000))) = ramp 5000 /\
  nth_error (receive (skipn BUFFER_SIZE (encryptDecrypt (ramp 5000)))) 0
  <> nth_error (ramp 5000) BUFFER_SIZE.
Proof.
  destruct (X2_split_message_decoding (ramp 5000)) as [Haligned Hgarbled].
  split.
  - apply Haligned. reflexivity.
  - apply Hgarbled. vm_compute. lia.
Defined.

(** ** The session loop *)

Lemma server_state_eta (st : Server.state) :
  {| Server.pc := Server.pc st;
     Server.isAuthenticated := Server.isAuthenticated st;
     Server.files := Server.files st |} = st.
Proof. now destruct st. Qed.

Lemma server_run_closed (indet : Z) (reads : list bytes) :
  forall st, Server.pc st = Server.Closed ->
             Server.run indet st reads = (st, []).
Proof.
  induction reads as [|avail reads IH]; intros st Hpc; [reflexivity|].
  cbn [Server.run]. unfold Server.step. rewrite Hpc.
  now rewrite (IH st Hpc).
Qed.

(** X3: an authenticated session answers a command whose first word is
    none of LIST, DOWNLOAD, UPLOAD and QUIT - AUTH included, once
    authenticated - with [ERROR Unknown command.] and goes on unchanged. *)
Theorem X3_unknown_command (indet : Z) (st : Server.state) (avail : bytes) :
  Server.pc st = Server.AwaitCommand ->
  Server.isAuthenticated st = true ->
  receive avail <> [] ->
  let command := fst (get_word (stringstream (receive avail))) in
  command <> lit "LIST" -> command <> lit "DOWNLOAD" ->
  command <> lit "UPLOAD" -> command <> lit "QUIT" ->
  Server.step indet st avail
  = (st, [Server.log (lit "Received command: " ++ receive avail);
          send_message (lit "ERROR Unknown command.")]).
Proof.
  intros Hpc Hauth Hne command H1 H2 H3 H4.
  unfold Server.step, Server.on_command. rewrite Hpc, (is_empty_false _ Hne).
  unfold command in *.
  destruct (get_word (stringstream (receive avail))) as [word ss].
  cbn [fst] in *. rewrite Hauth. cbn [negb]. unfold Server.dispatch.
  rewrite (beq_neq _ _ H1), (beq_neq _ _ H2), (beq_neq _ _ H3), (beq_neq _ _ H4).
  unfold Server.next_command. rewrite <- Hpc at 1.
  now rewrite server_state_eta.
Qed.

(** X4: QUIT from an authenticated session closes it without any reply
    and without touching the store; whatever arrives afterwards is not
    read: no further event is produced. *)
Theorem X4_quit_closes_the_session (indet : Z) (st : Server.state)
        (avail : bytes) (later : list bytes) :
  Server.pc st = Server.AwaitCommand ->
  Server.isAuthenticated st = true ->
  fst (get_word (stringstream (receive avail))) = lit "QUIT" ->
  let closed := fst (Server.step indet st avail) in
  Server.pc closed = Server.Closed /\
  Server.files closed = Server.files st /\
  transmitted (snd (Server.step indet st avail)) = [] /\
  Server.run indet closed later = (closed, []).
Proof.
  intros Hpc Hauth Hcmd closed.
  assert (Hne : receive avail <> []).
  { intros E. rewrite E in Hcmd. vm_compute in Hcmd. discriminate. }
  assert (Hstep : Server.step indet st avail
                  = Server.close_session st
                      [Server.log (lit "Received command: " ++ receive avail);
                       Server.log (lit "Client sent QUIT. Disconnecting.")]).
  { unfold Server.step, Server.on_command. rewrite Hpc, (is_empty_false _ Hne).
    destruct (get_word (stringstream (receive avail))) as [word ss].
    cbn [fst] in Hcmd. subst word. rewrite Hauth. cbn [negb].
    unfold Server.dispatch.
    change (beq (lit "QUIT") (lit "LIST")) with false.
    change (beq (lit "QUIT") (lit "DOWNLOAD")) with false.
    change (beq (lit "QUIT") (lit "UPLOAD")) with false.
    now rewrite beq_refl. }
  unfold closed. rewrite Hstep. unfold Server.close_session. cbn [fst snd].
  repeat split. now apply server_run_closed.
Qed.

Lemma server_run_cons_fst (indet : Z) (st : Server.state)
      (avail : bytes) (reads : list bytes) :
  fst (Server.run indet st (avail :: reads))
  = fst (Server.run indet (fst (Server.step indet st avail)) reads).
Proof.
  cbn [Server.run]. destruct (Server.step indet st avail) as [st1 evs1].
  cbn [fst]. now destruct (Server.run indet st1 reads).
Qed.

Lemma server_run_cons_snd (indet : Z) (st : Server.state)
      (avail : bytes) (reads : list bytes) :
  snd (Server.run indet st (avail :: reads))
  = snd (Server.step indet st avail)
    ++ snd (Server.run indet (fst (Server.step indet st avail)) reads).
Proof.
  cbn [Server.run]. destruct (Server.step indet st avail) as [st1 evs1].
  cbn [fst snd]. now destruct (Server.run indet st1 reads).
Qed.

(** X5: a connection closed by the peer is noticed wherever the server
    waits: from any open state two failing reads at most end the session,
    and the store is as it was (an interrupted upload keeps what it had
    written). *)
Theorem X5_disconnect_ends_the_session (indet : Z) (st : Server.state) :
  Server.pc st <> Server.Closed ->
  let final := fst (Server.run indet st [[]; []]) in
  Server.pc final = Server.Closed /\
  Server.files final = Server.files st /\
  Server.isAuthenticated final = Server.isAuthenticated st.
Proof.
  intros Hopen final. unfold final. destruct st as [pc auth fs].
  cbn [Server.pc] in Hopen.
  destruct pc as [|filename file|filename fileSize b|]; [| | |congruence].
  - split; [|split]; reflexivity.
  - split; [|split]; reflexivity.
  - rewrite !server_run_cons_fst. cbn [Server.run fst].
    assert (Hfirst : fst (Server.step indet
                            (receiving filename fileSize auth fs b) [])
                     = awaiting auth fs).
    { unfold Server.step, Server.on_upload_chunk.
      cbn [receiving Server.pc Server.files].
      change (receive []) with (@nil byte).
      cbn [is_empty]. unfold Server.upload_finish.
      destruct (b =? fileSize)%Z; reflexivity. }
    unfold receiving in Hfirst. rewrite Hfirst.
    split; [|split]; reflexivity.
Qed.

Lemma server_step_keeps_authenticated (indet : Z) (st : Server.state)
      (avail : bytes) :
  Server.isAuthenticated st = true ->
  Server.isAuthenticated (fst (Server.step indet st avail)) = true.
Proof.
  intros Hauth. unfold Server.step.
  destruct (Server.pc st) as [|filename file|filename fileSize b|].
  - unfold Server.on_command.
    destruct (is_empty (receive avail)); [exact Hauth|].
    destruct (get_word (stringstream (receive avail))) as [command ss].
    rewrite Hauth. cbn [negb]. unfold Server.dispatch.
    destruct (beq command (lit "LIST")); [exact Hauth|].
    destruct (beq command (lit "DOWNLOAD")).
    { destruct (get_word ss) as [filename ss1].
      destruct (open_read (Server.files st) filename); [exact Hauth|].
      destruct (names_directory filename); exact Hauth. }
    destruct (beq command (lit "UPLOAD")).
    { destruct (get_word ss) as [filename ss1].
      destruct (open_write (Server.files st) filename); [|exact Hauth].
      unfold Server.upload_while, Server.upload_finish.
      destruct (_ <? _)%Z; [exact Hauth|].
      destruct (_ =? _)%Z; exact Hauth. }
    destruct (beq command (lit "QUIT")); exact Hauth.
  - unfold Server.on_start. destruct (negb _); exact Hauth.
  - unfold Server.on_upload_chunk, Server.upload_while, Server.upload_finish.
    destruct (is_empty (receive avail)).
    + destruct (_ =? _)%Z; exact Hauth.
    + destruct (_ <? _)%Z; [exact Hauth|]. destruct (_ =? _)%Z; exact Hauth.
  - exact Hauth.
Qed.

Lemma authenticated_run (indet : Z) (reads : list bytes) :
  forall st,
    Server.isAuthenticated st = true ->
    Server.isAuthenticated (fst (Server.run indet st reads)) = true.
Proof.
  induction reads as [|avail reads IH]; intros st Hauth; [exact Hauth|].
  rewrite server_run_cons_fst.
  auto using server_step_keeps_authenticated.
Qed.

(** X6: there is no way back from authentication: whatever an
    authenticated session receives, it stays authenticated. *)
Theorem X6_authentication_is_permanent (indet : Z) (reads : list bytes) :
  forall st,
    Server.isAuthenticated st = true ->
    Server.isAuthenticated (fst (Server.run indet st reads)) = true.
Proof.
  induction reads as [|avail reads IH]; intros st Hauth; [exact Hauth|].
  rewrite server_run_cons_fst. apply IH.
  now apply server_step_keeps_authenticated.
Qed.

(** ** What a session can do to the store *)

Lemma transmitted_log (message : bytes) (evs : list event) :
  transmitted (Server.log message :: evs) = transmitted evs.
Proof. reflexivity. Qed.

Lemma unauthenticated_step (indet : Z) (st : Server.state) (avail : bytes) :
  Server.isAuthenticated st = false ->
  Server.pc st = Server.AwaitCommand \/ Server.pc st = Server.Closed ->
  let st1 := fst (Server.step indet st avail) in
  Server.isAuthenticated st1 = true \/
  (Server.isAuthenticated st1 = false /\
   Server.files st1 = Server.files st /\
   (Server.pc st1 = Server.AwaitCommand \/ Server.pc st1 = Server.Closed) /\
   Forall gate_reply (transmitted (snd (Server.step indet st avail)))).
Proof.
  intros Hauth [Hpc | Hpc] st1; unfold st1, Server.step; rewrite Hpc.
  - unfold Server.on_command.
    destruct (is_empty (receive avail)).
    { right. cbn. repeat split; auto. }
    destruct (get_word (stringstream (receive avail))) as [command ss].
    rewrite Hauth. cbn [negb].
    destruct (beq command (lit "AUTH")).
    + destruct (get_word ss) as [user ss1]. destruct (get_word ss1) as [pass ss2].
      destruct (Server.authenticate user pass); [now left|].
      right. cbn [fst snd Server.next_command Server.isAuthenticated
                 Server.files Server.pc app].
      rewrite transmitted_log. cbn [transmitted send_message].
      change (is_empty (encryptDecrypt (lit "AUTH_FAIL"))) with false.
      cbv iota. repeat split; auto. constructor; [now left | constructor].
    + right. cbn [fst snd Server.next_command Server.isAuthenticated
                 Server.files Server.pc app].
      rewrite transmitted_log. cbn [transmitted send_message].
      change (is_empty (encryptDecrypt (lit "ERROR Authentication required.")))
        with false.
      cbv iota. repeat split; auto. constructor; [now right | constructor].
  - right. cbn. repeat split; auto.
Qed.

Lemma unauthenticated_run (indet : Z) (reads : list bytes) :
  forall st,
    Server.isAuthenticated st = false ->
    Server.pc st = Server.AwaitCommand \/ Server.pc st = Server.Closed ->
    Server.isAuthenticated (fst (Server.run indet st reads)) = false ->
    Server.files (fst (Server.run indet st reads)) = Server.files st /\
    (Server.pc (fst (Server.run indet st reads)) = Server.AwaitCommand \/
     Server.pc (fst (Server.run indet st reads)) = Server.Closed) /\
    Forall gate_reply (transmitted (snd (Server.run indet st reads))).
Proof.
  induction reads as [|avail reads IH]; intros st Hauth Hpc Hend.
  - cbn. repeat split; auto.
  - rewrite server_run_cons_fst in *. rewrite server_run_cons_snd.
    destruct (unauthenticated_step indet st avail Hauth Hpc)
      as [Hin | (Hout & Hfiles & Hpc1 & Hsent)].
    + pose proof (authenticated_run indet reads _ Hin) as Hstay.
      congruence.
    + destruct (IH _ Hout Hpc1 Hend) as (Hf & Hp & Hs).
      rewrite Hf, Hfiles, transmitted_app. repeat split; auto.
      apply Forall_app. now split.
Qed.

(** X7: as long as a session has not authenticated, it has sent nothing
    but [AUTH_FAIL] and [ERROR Authentication required.], and the store is
    untouched, whatever it received. *)
Theorem X7_nothing_happens_before_authentication
        (indet : Z) (fs : FS) (reads : list bytes) :
  let result := Server.run indet (Server.initial fs) reads in
  Server.isAuthenticated (fst result) = false ->
  Server.files (fst result) = fs /\
  Forall gate_reply (transmitted (snd result)).
Proof.
  intros result Hend.
  destruct (unauthenticated_run indet reads (Server.initial fs)) as (Hf & _ & Hs);
    try exact Hend; try reflexivity; [now left|].
  split; [exact Hf | exact Hs].
Qed.

Lemma content_of_open_write_other (fs fs1 : FS) (name other : bytes) :
  open_write fs name = Some fs1 -> locate other <> locate name ->
  content_of fs1 other = content_of fs other.
Proof.
  unfold open_write, content_of.
  destruct (locate name) as [| |key| |]; try discriminate.
  destruct (existsb (beq key) (read_only fs)); [discriminate|].
  intros [= <-] Hne. cbn [entries].
  destruct (locate other) as [| |key'| |]; try reflexivity.
  apply lookup_store_other. congruence.
Qed.

(** X8: a step of the server changes no file of the directory other than
    the one its upload target leads to: LIST, DOWNLOAD, AUTH, QUIT, unknown
    commands and the download states leave every file as it is, and an
    upload leaves as it is every file that its target does not lead to,
    under whatever name ([./a.txt] leads to [a.txt]).  A target that
    leaves the directory is not covered: what lies outside is not part of
    the store. *)
Theorem X8_only_the_upload_target_is_written
        (indet : Z) (st : Server.state) (avail other : bytes) :
  upload_target st avail <> Some Beyond ->
  upload_target st avail <> Some (locate other) ->
  content_of (Server.files (fst (Server.step indet st avail))) other
  = content_of (Server.files st) other.
Proof.
  unfold upload_target, Server.step.
  destruct (Server.pc st) as [|filename file|filename fileSize b|];
    intros _ Htarget.
  - unfold Server.on_command.
    destruct (is_empty (receive avail)); [reflexivity|].
    destruct (get_word (stringstream (receive avail))) as [command ss].
    destruct (negb (Server.isAuthenticated st)).
    { destruct (beq command (lit "AUTH")); [|reflexivity].
      destruct (get_word ss) as [user ss1]. destruct (get_word ss1) as [pass ss2].
      destruct (Server.authenticate user pass); reflexivity. }
    unfold Server.dispatch.
    destruct (beq command (lit "LIST")); [reflexivity|].
    destruct (beq command (lit "DOWNLOAD")).
    { destruct (get_word ss) as [filename ss1].
      destruct (open_read (Server.files st) filename); [reflexivity|].
      destruct (names_directory filename); reflexivity. }
    destruct (beq command (lit "UPLOAD")).
    { destruct (get_word ss) as [filename ss1]. cbn [fst] in Htarget.
      destruct (open_write (Server.files st) filename) as [fs1|] eqn:Hopen;
        [|reflexivity].
      assert (Hkeep : content_of fs1 other = content_of (Server.files st) other).
      { apply (content_of_open_write_other _ _ filename); [exact Hopen|].
        congruence. }
      unfold Server.upload_while, Server.upload_finish.
      destruct (_ <? _)%Z; [exact Hkeep|].
      destruct (_ =? _)%Z; exact Hkeep. }
    destruct (beq command (lit "QUIT")); reflexivity.
  - unfold Server.on_start. destruct (negb _); reflexivity.
  - assert (Hne : locate other <> locate filename) by congruence.
    unfold Server.on_upload_chunk, Server.upload_while, Server.upload_finish.
    destruct (is_empty (receive avail)).
    + destruct (_ =? _)%Z; reflexivity.
    + destruct (_ <? _)%Z; [|destruct (_ =? _)%Z];
        cbn [fst Server.files Server.next_command];
        now apply content_of_write_other.
  - reflexivity.
Qed.

(** X9: the UPLOAD command empties the destination as soon as it is
    accepted, before any content arrives; when the client then goes away
    the server reports the upload incomplete and the file stays empty:
    what it held before is lost. *)
Theorem X9_failed_upload_loses_the_previous_file
        (indet : Z) (st : Server.state) (filename : bytes) (fileSize : Z) :
  Server.pc st = Server.AwaitCommand ->
  Server.isAuthenticated st = true ->
  is_word filename ->
  (0 < fileSize <= LLONG_MAX)%Z ->
  open_write (Server.files st) filename <> None ->
  let cmd := lit "UPLOAD " ++ filename ++ lit " " ++ to_string fileSize in
  length cmd <= BUFFER_SIZE ->
  let accepted := fst (Server.step indet st (encryptDecrypt cmd)) in
  let result := Server.run indet st [encryptDecrypt cmd; []] in
  content_of (Server.files accepted) filename = Some [] /\
  transmitted (snd result)
    = [encryptDecrypt (lit "OK_UPLOAD");
       encryptDecrypt (lit "ERROR Upload incomplete.")] /\
  Server.pc (fst result) = Server.AwaitCommand /\
  content_of (Server.files (fst result)) filename = Some [].
Proof.
  intros Hpc Hauth Hword Hsize Hwritable cmd Hfit accepted result.
  destruct (open_write (Server.files st) filename) as [fs1|] eqn:Hopen;
    [clear Hwritable | congruence].
  pose proof (content_of_open_write _ _ _ Hopen) as Hempty.
  assert (Hstep : Server.step indet st (encryptDecrypt cmd)
                  = (receiving filename fileSize true fs1 0,
                     [Server.log (lit "Received command: " ++ cmd);
                      send_message (lit "OK_UPLOAD")])).
  { unfold cmd.
    rewrite (server_upload_command indet st Hpc Hauth filename fileSize Hword)
      by (assumption || lia).
    rewrite Hopen. unfold Server.upload_while.
    destruct (Z.ltb_spec 0 fileSize); [|lia]. now rewrite Hauth. }
  assert (Hlost : Server.step indet (receiving filename fileSize true fs1 0) []
                  = (awaiting true fs1,
                     [Server.log (lit "Upload failed: Client disconnected.");
                      Server.log (lit "Upload failed for " ++ filename
                                  ++ lit ". Incomplete data.");
                      send_message (lit "ERROR Upload incomplete.")])).
  { unfold Server.step, Server.on_upload_chunk.
    cbn [receiving Server.pc Server.files].
    change (receive []) with (@nil byte). cbn [is_empty].
    unfold Server.upload_finish.
    destruct (Z.eqb_spec 0 fileSize); [lia | reflexivity]. }
  split; [unfold accepted; now rewrite Hstep|].
  unfold result. rewrite server_run_cons_snd, !server_run_cons_fst.
  rewrite Hstep. cbn [fst snd]. rewrite server_run_cons_snd.
  rewrite Hlost. cbn [fst snd Server.run].
  split; [reflexivity|]. split; [reflexivity | exact Hempty].
Qed.

(** ** Logging in *)

Lemma exchange_spec (indet : Z) (st : Server.state) (user pass : bytes) :
  Server.pc st = Server.AwaitCommand ->
  Server.isAuthenticated st = false ->
  length (lit "AUTH " ++ user ++ lit " " ++ pass) <= BUFFER_SIZE ->
  exchange indet st user pass
  = (credentials_accepted user pass,
     {| Server.pc := Server.AwaitCommand;
        Server.isAuthenticated := credentials_accepted user pass;
        Server.files := Server.files st |}).
Proof.
  intros Hpc Hauth Hfit. unfold exchange, credentials_accepted.
  assert (Hwire : transmitted (Login.attempt user pass)
                  = [encryptDecrypt (lit "AUTH " ++ user ++ lit " " ++ pass)]).
  { unfold Login.attempt. cbn [transmitted send_message].
    now rewrite is_empty_encryptDecrypt, is_empty_app by discriminate. }
  rewrite Hwire. cbn [hd].
  unfold Server.step, Server.on_command. rewrite Hpc, (receive_sent _ Hfit).
  change (lit "AUTH " ++ user ++ lit " " ++ pass)
    with (lit "AUTH" ++ " "%char :: (user ++ lit " " ++ pass)).
  rewrite is_empty_word_app by (apply literal_word; reflexivity).
  rewrite get_word_app;
    [| apply literal_word; reflexivity | apply delimited_blank].
  rewrite Hauth, beq_refl. cbn [negb].
  change (get_word {| unread := " "%char :: (user ++ lit " " ++ pass);
                      failed := false |})
    with (get_word (stringstream (user ++ lit " " ++ pass))).
  destruct (get_word (stringstream (user ++ lit " " ++ pass))) as [u ss1].
  destruct (get_word ss1) as [p ss2].
  destruct (Server.authenticate u p).
  - cbn [Server.next_command Server.authenticated Server.isAuthenticated
         Server.files Server.pc app].
    rewrite transmitted_log. cbn [transmitted send_message].
    change (is_empty (encryptDecrypt (lit "AUTH_SUCCESS"))) with false.
    cbv iota. cbn [hd]. unfold Login.on_reply.
    rewrite receive_sent by (vm_compute; lia). now rewrite beq_refl.
  - cbn [Server.next_command Server.isAuthenticated Server.files Server.pc app].
    rewrite transmitted_log. cbn [transmitted send_message].
    change (is_empty (encryptDecrypt (lit "AUTH_FAIL"))) with false.
    cbv iota. cbn [hd]. unfold Login.on_reply.
    rewrite receive_sent by (vm_compute; lia).
    change (beq (lit "AUTH_FAIL") (lit "AUTH_SUCCESS")) with false.
    now rewrite Hauth.
Qed.

(** X10: client and server always agree on the outcome of the
    authentication loop.  Whatever pairs the user types (each short enough
    for its command to fit one message), the client leaves the loop
    exactly when the server has marked the session authenticated, which
    happens at the first pair the server accepts; the session then awaits
    a command and the store is untouched. *)
Theorem X10_login_loop_agrees_with_the_server
        (indet : Z) (typed : list (bytes * bytes)) :
  forall st,
    Server.pc st = Server.AwaitCommand ->
    Server.isAuthenticated st = false ->
    Forall (fun pair => length (lit "AUTH " ++ fst pair ++ lit " " ++ snd pair)
                        <= BUFFER_SIZE) typed ->
    let ok := fst (login indet st typed) in
    let st1 := snd (login indet st typed) in
    Server.isAuthenticated st1 = ok /\
    ok = existsb (fun pair => credentials_accepted (fst pair) (snd pair)) typed /\
    Server.pc st1 = Server.AwaitCommand /\
    Server.files st1 = Server.files st.
Proof.
  induction typed as [|[user pass] typed IH]; intros st Hpc Hauth Hfit.
  - cbn. auto.
  - apply Forall_cons_iff in Hfit as [Hfit Hrest]. cbn [fst snd] in Hfit.
    cbn [login existsb fst snd].
    rewrite (exchange_spec indet st user pass Hpc Hauth Hfit).
    destruct (credentials_accepted user pass) eqn:Hacc.
    + cbn. auto.
    + cbn [orb].
      apply (IH {| Server.pc := Server.AwaitCommand;
                   Server.isAuthenticated := false;
                   Server.files := Server.files st |}); auto.
Qed.

(** X11: the server looks at the first two words after AUTH only.  A
    user name and a password without blanks are accepted exactly when the
    pair is in the table, and text typed after the password - the
    password line is sent whole - makes no difference. *)
Theorem X11_text_after_the_password_is_ignored
        (indet : Z) (st : Server.state) (user pass rest : bytes) :
  Server.pc st = Server.AwaitCommand ->
  Server.isAuthenticated st = false ->
  is_word user -> is_word pass -> delimited rest ->
  length (lit "AUTH " ++ user ++ lit " " ++ pass ++ rest) <= BUFFER_SIZE ->
  fst (exchange indet st user (pass ++ rest)) = Server.authenticate user pass /\
  Server.isAuthenticated (snd (exchange indet st user (pass ++ rest)))
  = Server.authenticate user pass.
Proof.
  intros Hpc Hauth Huser Hpass Hrest Hfit.
  rewrite (exchange_spec indet st user (pass ++ rest) Hpc Hauth Hfit).
  cbn [fst snd Server.isAuthenticated].
  assert (Hacc : credentials_accepted user (pass ++ rest)
                 = Server.authenticate user pass).
  { unfold credentials_accepted.
    change (user ++ lit " " ++ pass ++ rest)
      with (user ++ " "%char :: pass ++ rest).
    rewrite get_word_app; [| exact Huser | apply delimited_blank].
    rewrite get_word_next; [reflexivity | exact Hpass | exact Hrest]. }
  now rewrite Hacc.
Qed.

(** ** The client's command loop *)

(** X12: the client sends nothing, and is back at its prompt with its
    files as they were, for every line that is not a well-formed command:
    a blank line, an unknown word, or [download] / [upload] without a file
    name. *)
Theorem X12_malformed_lines_send_nothing (st : Client.state) (line : bytes) :
  let command := fst (get_word (stringstream line)) in
  let filename := fst (get_word (snd (get_word (stringstream line)))) in
  command <> lit "list" -> command <> lit "quit" ->
  (command <> lit "download" /\ command <> lit "upload") \/ filename = [] ->
  transmitted (snd (Client.command_line st line)) = [] /\
  fst (Client.command_line st line)
  = {| Client.pc := Client.Prompt; Client.files := Client.files st |}.
Proof.
  intros command filename Hlist Hquit Hbad.
  unfold command, filename in *. unfold Client.command_line.
  destruct (get_word (stringstream line)) as [word ss]. cbn [fst snd] in *.
  destruct (is_empty word); [split; reflexivity|].
  rewrite (beq_neq _ _ Hlist).
  destruct (beq word (lit "download")) eqn:Hd.
  { apply beq_true in Hd. destruct Hbad as [[Hn _] | Hempty]; [congruence|].
    destruct (get_word ss) as [name ss1]. cbn [fst] in Hempty. subst name.
    split; reflexivity. }
  destruct (beq word (lit "upload")) eqn:Hu.
  { apply beq_true in Hu. destruct Hbad as [[_ Hn] | Hempty]; [congruence|].
    destruct (get_word ss) as [name ss1]. cbn [fst] in Hempty. subst name.
    split; reflexivity. }
  rewrite (beq_neq _ _ Hquit). split; reflexivity.
Qed.

(** X12 at a blank line, an unknown word and a [download] without a
    name. *)
Lemma X12_on_three_lines :
  Forall
    (fun line =>
       transmitted
         (snd (Client.command_line
                 {| Client.pc := Client.Prompt; Client.files := root_ab |} line))
       = [])
    [lit "   "; lit "delete a.txt"; lit "download  "].
Proof.
  apply Forall_cons; [| apply Forall_cons; [| apply Forall_cons; [| apply Forall_nil]]];
    refine (proj1 (X12_malformed_lines_send_nothing
                     {| Client.pc := Client.Prompt; Client.files := root_ab |}
                     _ _ _ _));
    first [ vm_compute; discriminate
          | left; split; vm_compute; discriminate
          | right; reflexivity ].
Defined.

(** ** A download cut short *)

Lemma client_run_snoc (indet : Z) (reads : list bytes) :
  forall (st : Client.state) (last : bytes),
    Client.run indet st (reads ++ [last])
    = (fst (Client.step indet (fst (Client.run indet st reads)) last),
       snd (Client.run indet st reads)
       ++ snd (Client.step indet (fst (Client.run indet st reads)) last)).
Proof.
  induction reads as [|avail reads IH]; intros st last.
  - cbn [app Client.run fst snd].
    destruct (Client.step indet st last) as [st1 evs1]. cbn [fst snd].
    now rewrite app_nil_r.
  - change (Client.run indet st ((avail :: reads) ++ [last]))
      with (let (st1, evs1) := Client.step indet st avail in
            let (st2, evs2) := Client.run indet st1 (reads ++ [last]) in
            (st2, evs1 ++ evs2)).
    change (Client.run indet st (avail :: reads))
      with (let (st1, evs1) := Client.step indet st avail in
            let (st2, evs2) := Client.run indet st1 reads in
            (st2, evs1 ++ evs2)).
    destruct (Client.step indet st avail) as [st1 evs1].
    rewrite IH. destruct (Client.run indet st1 reads) as [st2 evs2].
    cbn [fst snd]. now rewrite app_assoc.
Qed.

Section DownloadCutShort.

Variable indet : Z.
Variables (filename : bytes) (fileSize : Z).

Lemma download_goes_on (chunks : list bytes) :
  forall fs written b,
    content_of fs filename = Some written ->
    (0 <= b)%Z -> (fileSize <= LLONG_MAX)%Z ->
    Forall (fun avail => receive avail <> []) chunks ->
    (b + Z.of_nat (length (received chunks)) < fileSize)%Z ->
    Client.run indet (downloading filename fileSize fs b) chunks
    = (downloading filename fileSize (write fs filename (received chunks))
                   (b + Z.of_nat (length (received chunks))), []).
Proof.
  induction chunks as [|avail chunks IH];
    intros fs written b Hfile Hb Hmax Hall Hlt.
  - cbn [Client.run received map concat length].
    now rewrite (write_nil _ _ _ Hfile), Z.add_0_r.
  - apply Forall_cons_iff in Hall as [Hne Hrest].
    unfold received in *. cbn [map concat] in *.
    rewrite length_app, Nat2Z.inj_add in Hlt.
    set (chunk := receive avail) in *.
    assert (Hstep : Client.step indet (downloading filename fileSize fs b) avail
                    = (downloading filename fileSize (write fs filename chunk)
                                   (b + Z.of_nat (length chunk)), [])).
    { rewrite download_chunk_step; fold chunk; try assumption; try lia.
      rewrite firstn_all2 by lia.
      unfold Client.download_while.
      destruct (Z.ltb_spec (b + Z.of_nat (length chunk)) fileSize); [|lia].
      reflexivity. }
    cbn [Client.run]. rewrite Hstep.
    rewrite (IH _ (written ++ chunk) (b + Z.of_nat (length chunk))%Z);
      try assumption; try lia.
    + rewrite (write_write _ _ _ _ _ Hfile), length_app, Nat2Z.inj_add.
      now rewrite Z.add_assoc.
    + now apply content_of_write.
Qed.

(** X13: when the connection is lost after [K < fileSize] bytes of a
    download, the client reports the loss and the failure on standard
    error and is back at its prompt; the destination file is left behind
    holding exactly the [K] bytes received. *)
Theorem X13_interrupted_download_leaves_a_partial_file
        (fs : FS) (written : bytes) (chunks : list bytes) :
  content_of fs filename = Some written ->
  (fileSize <= LLONG_MAX)%Z ->
  Forall (fun avail => receive avail <> []) chunks ->
  (Z.of_nat (length (received chunks)) < fileSize)%Z ->
  let result :=
    Client.run indet (downloading filename fileSize fs 0) (chunks ++ [[]]) in
  fst result = {| Client.pc := Client.Prompt;
                  Client.files := write fs filename (received chunks) |} /\
  snd result
    = [Err (lit "[-] Error: Connection lost during download." ++ NL);
       Err (lit "[-] Download failed. Incomplete file." ++ NL)] /\
  content_of (Client.files (fst result)) filename
    = Some (written ++ received chunks).
Proof.
  intros Hfile Hmax Hall Hlt result.
  assert (Hrun : Client.run indet (downloading filename fileSize fs 0) chunks
                 = (downloading filename fileSize
                      (write fs filename (received chunks))
                      (Z.of_nat (length (received chunks))), [])).
  { rewrite (download_goes_on chunks fs written 0); try assumption; try lia.
    reflexivity. }
  assert (Hlast : Client.step indet
                    (downloading filename fileSize
                       (write fs filename (received chunks))
                       (Z.of_nat (length (received chunks)))) []
                  = ({| Client.pc := Client.Prompt;
                        Client.files := write fs filename (received chunks) |},
                     [Err (lit "[-] Error: Connection lost during download." ++ NL);
                      Err (lit "[-] Download failed. Incomplete file." ++ NL)])).
  { unfold Client.step, Client.on_download_chunk.
    cbn [downloading Client.pc Client.files].
    change (receive []) with (@nil byte). cbn [is_empty].
    unfold Client.download_finish.
    destruct (Z.leb_spec fileSize (Z.of_nat (length (received chunks))));
      [lia | reflexivity]. }
  assert (Hresult : result
                    = ({| Client.pc := Client.Prompt;
                          Client.files := write fs filename (received chunks) |},
                       [Err (lit "[-] Error: Connection lost during download."
                             ++ NL);
                        Err (lit "[-] Download failed. Incomplete file." ++ NL)])).
  { unfold result. rewrite client_run_snoc, Hrun. cbn [fst snd].
    rewrite Hlast. reflexivity. }
  rewrite Hresult. cbn [fst snd Client.files].
  split; [reflexivity|]. split; [reflexivity|].
  now apply content_of_write.
Qed.

End DownloadCutShort.

(** ** Commands that come to nothing *)

Lemma server_list_command (indet : Z) (auth_fs : FS) :
  Server.step indet (awaiting true auth_fs) (encryptDecrypt (lit "LIST"))
  = (awaiting true auth_fs,
     [Server.log (lit "Received command: " ++ lit "LIST");
      send_message (Server.file_list auth_fs)]).
Proof.
  unfold Server.step, Server.on_command. cbn [awaiting Server.pc].
  rewrite receive_sent by (vm_compute; lia). reflexivity.
Qed.

Section Refusals.

Variables ci si : Z.
Variables cfs sfs : FS.
Variable filename : bytes.
Hypothesis filename_word : is_word filename.
Hypothesis filename_fits : length filename + 27 <= BUFFER_SIZE.

(** X14: [download] of a file the server does not have, under a name
    that leads to an entry of the directory (not to the directory itself,
    which opens, nor out of it): the server answers [ERROR File not found.]
    and nothing else, the client shows that answer and is back at its
    prompt, and neither store has changed - in particular no empty file
    appears on the client. *)
Theorem X14_download_of_a_missing_file (key : bytes) :
  locate filename = Entry key ->
  open_read sfs filename = None ->
  exists final,
    runs_to ci si (session cfs sfs [lit "download " ++ filename]) final /\
    client final = {| Client.pc := Client.Prompt; Client.files := cfs |} /\
    server final = awaiting true sfs /\
    sent_by TheServer final = [encryptDecrypt (lit "ERROR File not found.")] /\
    In (TheClient,
        Out (lit "[-] Server error: " ++ lit "ERROR File not found." ++ NL))
       (history final) /\
    to_client final = [] /\ to_server final = [].
Proof.
  intros Hentry Hmissing.
  assert (Hfit : length (lit "DOWNLOAD " ++ filename) <= BUFFER_SIZE).
  { rewrite length_app. change (length (lit "DOWNLOAD ")) with 9. lia. }
  eexists. split; [split|].
  - eapply reaches_step.
    { apply sys_step_types with (line := lit "download " ++ filename) (rest := []);
        try reflexivity.
      apply client_types_download. exact filename_word. }
    cbn [session client server stdin to_server to_client history
         Client.files app map transmitted prompt_text send_message].
    rewrite is_empty_encryptDecrypt, is_empty_app by discriminate.
    eapply reaches_step.
    { eapply sys_step_server; cbn [server to_server Server.pc];
        [discriminate | reflexivity | now rewrite encryptDecrypt_length |].
      rewrite server_download_command; try reflexivity; try assumption.
      cbn [Server.files].
      rewrite Hmissing, (names_directory_entry _ _ Hentry). reflexivity. }
    cbn [client server stdin to_server to_client history
         app map transmitted Server.log send_message Server.isAuthenticated].
    change (is_empty (encryptDecrypt (lit "ERROR File not found."))) with false.
    cbv iota.
    eapply reaches_step.
    { eapply sys_step_client; cbn [client to_server to_client Client.pc];
        [reflexivity | discriminate | discriminate | reflexivity
        | vm_compute; lia |].
      unfold Client.step, Client.on_download_reply. cbn [Client.pc Client.files].
      rewrite receive_sent by (vm_compute; lia). reflexivity. }
    apply reaches_refl.
  - apply at_rest; try reflexivity; cbn; discriminate.
  - cbn [client server to_client to_server history].
    split; [reflexivity|]. split; [reflexivity|].
    split; [|split; [|split; reflexivity]].
    + unfold sent_by. cbn. reflexivity.
    + apply in_or_app. right. now left.
Qed.

(** X15: [upload] of a file the client does not have, under a name that
    leads to an entry of the directory: the client says so and sends
    nothing at all; the server is never involved. *)
Theorem X15_upload_of_a_missing_file (key : bytes) :
  locate filename = Entry key ->
  open_read cfs filename = None ->
  exists final,
    runs_to ci si (session cfs sfs [lit "upload " ++ filename]) final /\
    client final = {| Client.pc := Client.Prompt; Client.files := cfs |} /\
    server final = awaiting true sfs /\
    sent_by TheClient final = [] /\ sent_by TheServer final = [] /\
    In (TheClient,
        Err (lit "[-] Error: File not found in 'client_files' directory: "
             ++ filename ++ NL))
       (history final).
Proof.
  intros Hentry Hmissing.
  eexists. split; [split|].
  - eapply reaches_step; [|apply reaches_refl].
    apply sys_step_types with (line := lit "upload " ++ filename) (rest := []);
      try reflexivity.
    rewrite client_types_upload by exact filename_word.
    unfold Client.handleUpload. cbn [session client Client.files].
    rewrite Hmissing, (names_directory_entry _ _ Hentry). reflexivity.
  - apply at_rest; try reflexivity; cbn; discriminate.
  - cbn [client server history session Client.files].
    repeat split. cbn [app map]. right. now left.
Qed.

(** X16: [upload] of a file the server cannot create: the server answers
    [ERROR Cannot create file.], the client shows that answer and sends no
    content - the UPLOAD command is all it has sent - and neither store
    has changed. *)
Theorem X16_upload_the_server_cannot_store (content : bytes) :
  open_read cfs filename = Some content ->
  (Z.of_nat (length content) <= LLONG_MAX)%Z ->
  open_write sfs filename = None ->
  exists final,
    runs_to ci si (session cfs sfs [lit "upload " ++ filename]) final /\
    client final = {| Client.pc := Client.Prompt; Client.files := cfs |} /\
    server final = awaiting true sfs /\
    sent_by TheClient final
      = [encryptDecrypt (lit "UPLOAD " ++ filename ++ lit " "
                         ++ to_string (Z.of_nat (length content)))] /\
    sent_by TheServer final
      = [encryptDecrypt (lit "ERROR Cannot create file.")] /\
    In (TheClient,
        Err (lit "[-] Server error: " ++ lit "ERROR Cannot create file." ++ NL))
       (history final).
Proof.
  intros Hread Hlen Hdenied.
  set (fileSize := Z.of_nat (length content)).
  assert (Hsize : (0 <= fileSize <= LLONG_MAX)%Z) by (unfold fileSize; lia).
  assert (Hcmd : length (lit "UPLOAD " ++ filename ++ lit " " ++ to_string fileSize)
                 <= BUFFER_SIZE) by now apply upload_command_fits.
  eexists. split; [split|].
  - eapply reaches_step.
    { apply sys_step_types with (line := lit "upload " ++ filename) (rest := []);
        try reflexivity.
      rewrite client_types_upload by exact filename_word.
      unfold Client.handleUpload. cbn [session client Client.files].
      rewrite Hread, (tellg_end_in_range _ Hlen). reflexivity. }
    cbn [session client server stdin to_server to_client history
         Client.files app map transmitted prompt_text send_message].
    rewrite is_empty_encryptDecrypt, is_empty_app by discriminate.
    eapply reaches_step.
    { eapply sys_step_server; cbn [server to_server Server.pc];
        [discriminate | reflexivity | now rewrite encryptDecrypt_length |].
      rewrite server_upload_command; try reflexivity; try assumption.
      cbn [Server.files]. rewrite Hdenied. reflexivity. }
    cbn [client server stdin to_server to_client history
         app map transmitted Server.log send_message Server.isAuthenticated].
    change (is_empty (encryptDecrypt (lit "ERROR Cannot create file.")))
      with false.
    cbv iota.
    eapply reaches_step.
    { eapply sys_step_client; cbn [client to_server to_client Client.pc];
        [reflexivity | discriminate | discriminate | reflexivity
        | vm_compute; lia |].
      unfold Client.step, Client.on_upload_ok. cbn [Client.pc Client.files].
      rewrite receive_sent by (vm_compute; lia). reflexivity. }
    apply reaches_refl.
  - apply at_rest; try reflexivity; cbn; discriminate.
  - cbn [client server to_client to_server history].
    split; [reflexivity|]. split; [reflexivity|].
    split; [|split].
    + unfold sent_by. cbn.
      rewrite is_empty_encryptDecrypt, is_empty_app by discriminate.
      reflexivity.
    + unfold sent_by. cbn. reflexivity.
    + apply in_or_app. right. now left.
Qed.

End Refusals.

(** ** A listing longer than one read *)

Lemma receive_prefix (message : bytes) :
  receive (encryptDecrypt message) = firstn BUFFER_SIZE message.
Proof.
  rewrite receive_spec. unfold encryptDecrypt.
  rewrite xor_from_firstn. apply xor_from_twice.
Qed.

Lemma sys_step_client_reads_any (ci si : Z) (s : system)
      (segment : bytes) (queue : list bytes) :
  to_server s = [] ->
  Client.pc (client s) <> Client.Exited ->
  Client.pc (client s) <> Client.Prompt ->
  to_client s = segment :: queue ->
  sys_step ci si s
  = Some {| client := fst (Client.step ci (client s) segment);
            server := server s; stdin := stdin s;
            to_server := transmitted (snd (Client.step ci (client s) segment));
            to_client := after_read segment queue;
            history := history s
                       ++ map (pair TheClient)
                              (snd (Client.step ci (client s) segment)) |}.
Proof.
  intros Hts Hex Hpr Hq. unfold sys_step.
  rewrite (server_waits _ _ Hts Hex). unfold client_turn. rewrite Hq.
  unfold client_reads.
  destruct (Client.step ci (client s) segment) as [st evs]. rewrite Hts.
  cbn [app fst snd]. now destruct (Client.pc (client s)).
Qed.

(** X17: [handleList] reads the reply once.  The client prints the first
    [BUFFER_SIZE] bytes of the listing and is back at its prompt; when the
    listing is longer, its remainder stays unread on the connection, where
    the next command will find it in place of its own reply. *)
Theorem X17_a_long_listing_is_cut (ci si : Z) (cfs sfs : FS) :
  let listing := Server.file_list sfs in
  exists final,
    runs_to ci si (session cfs sfs [lit "list"]) final /\
    client final = {| Client.pc := Client.Prompt; Client.files := cfs |} /\
    In (TheClient, Out (firstn BUFFER_SIZE listing ++ NL)) (history final) /\
    to_client final = after_read (encryptDecrypt listing) [] /\
    (length listing <= BUFFER_SIZE -> to_client final = []) /\
    (BUFFER_SIZE < length listing ->
     to_client final = [skipn BUFFER_SIZE (encryptDecrypt listing)]).
Proof.
  intros listing.
  assert (Hne : is_empty (encryptDecrypt listing) = false).
  { unfold listing. rewrite is_empty_encryptDecrypt, file_list_spec.
    apply is_empty_app. discriminate. }
  eexists. split; [split|].
  - eapply reaches_step.
    { apply sys_step_types with (line := lit "list") (rest := []);
        reflexivity. }
    cbn [session client server stdin to_server to_client history
         Client.files app map transmitted].
    eapply reaches_step.
    { eapply sys_step_server; cbn [server to_server Server.pc];
        [discriminate | reflexivity | vm_compute; lia |].
      apply server_list_command. }
    cbn [client server stdin to_server to_client history
         app map transmitted Server.log send_message].
    fold listing. rewrite Hne.
    eapply reaches_step; [|apply reaches_refl].
    rewrite (sys_step_client_reads_any _ _ _ (encryptDecrypt listing) []);
      cbn [client to_server to_client Client.pc];
      [| reflexivity | discriminate | discriminate | reflexivity].
    unfold Client.step. cbn [Client.pc Client.files Client.at_prompt fst snd
                             server stdin history transmitted].
    rewrite receive_prefix. reflexivity.
  - unfold sys_step. rewrite server_waits by (cbn; (reflexivity || discriminate)).
    reflexivity.
  - cbn [client to_client history].
    split; [reflexivity|]. split; [|split; [reflexivity|split]].
    + apply in_or_app. right. now left.
    + intros Hshort. unfold after_read.
      rewrite skipn_all2; [reflexivity|]. now rewrite encryptDecrypt_length.
    + intros Hlong. unfold after_read.
      destruct (skipn BUFFER_SIZE (encryptDecrypt listing)) eqn:E; [|reflexivity].
      exfalso. apply (f_equal (@length byte)) in E.
      rewrite length_skipn, encryptDecrypt_length in E. cbn [length] in E. lia.
Qed.

(** ** Sizes announced and bytes sent *)

(** X18: [handleUpload] after its command: on [OK_UPLOAD] the client
    sends the file in consecutive blocks of [BUFFER_SIZE / 2] bytes (the
    last one shorter, none empty), one message each, and then waits for
    the verdict; on any other reply it shows the reply as an error, sends
    nothing and is back at its prompt. *)
Theorem X18_upload_sender (indet : Z) (fs : FS) (filename file : bytes)
        (fileSize : Z) (avail : bytes) :
  let st := {| Client.pc := Client.UploadAwaitOk filename file fileSize;
               Client.files := fs |} in
  let blocks := read_blocks (BUFFER_SIZE / 2) file in
  (receive avail = lit "OK_UPLOAD" ->
   fst (Client.step indet st avail)
     = {| Client.pc := Client.UploadAwaitResult; Client.files := fs |} /\
   transmitted (snd (Client.step indet st avail)) = map encryptDecrypt blocks /\
   concat blocks = file /\
   Forall (fun block => 0 < length block <= BUFFER_SIZE / 2) blocks) /\
  (receive avail <> lit "OK_UPLOAD" ->
   Client.step indet st avail
   = ({| Client.pc := Client.Prompt; Client.files := fs |},
      [Err (lit "[-] Server error: " ++ receive avail ++ NL)])).
Proof.
  intros st blocks.
  assert (Hhalf : 0 < BUFFER_SIZE / 2) by (vm_compute; lia).
  split.
  - intros Hok. unfold st, Client.step, Client.on_upload_ok.
    cbn [Client.pc Client.files]. rewrite Hok, beq_refl. cbn [negb].
    fold blocks.
    rewrite send_blocks_all by (apply blocks_nonempty; exact Hhalf).
    cbn [fst snd app]. split; [reflexivity|].
    split; [apply transmitted_out_blocks, blocks_nonempty; exact Hhalf|].
    split; [apply read_blocks_concat; exact Hhalf|].
    eapply Forall_impl; [|apply (read_blocks_bounds _ Hhalf)].
    intros block [Hne Hle]. split; [|exact Hle].
    destruct block; [congruence | cbn [length]; lia].
  - intros Hother. unfold st, Client.step, Client.on_upload_ok.
    cbn [Client.pc Client.files]. now rewrite (beq_neq _ _ Hother).
Qed.

(** X19: the server keeps no count while it streams, yet what it
    announces is what it sends: for DOWNLOAD of an existing file followed
    by START, the messages sent are the acknowledgement with the size, the
    blocks of the file and the sentinel, and the lengths of the blocks add
    up to the size announced. *)
Theorem X19_announced_size_is_the_size_streamed
        (indet : Z) (st : Server.state) (filename file : bytes) :
  Server.pc st = Server.AwaitCommand ->
  Server.isAuthenticated st = true ->
  is_word filename ->
  length (lit "DOWNLOAD " ++ filename) <= BUFFER_SIZE ->
  open_read (Server.files st) filename = Some file ->
  (Z.of_nat (length file) <= LLONG_MAX)%Z ->
  let announced := Z.of_nat (length file) in
  let blocks := read_blocks BUFFER_SIZE file in
  let result :=
    Server.run indet st [encryptDecrypt (lit "DOWNLOAD " ++ filename);
                         encryptDecrypt (lit "START")] in
  transmitted (snd result)
    = encryptDecrypt (lit "OK_DOWNLOAD " ++ to_string announced)
      :: map encryptDecrypt blocks ++ [encryptDecrypt (lit "DOWNLOAD_DONE")] /\
  total_length blocks = announced /\
  fst result = st.
Proof.
  intros Hpc Hauth Hword Hfit Hread Hlen announced blocks result.
  assert (Hbuf : 0 < BUFFER_SIZE) by (vm_compute; lia).
  assert (Hcmd : Server.step indet st (encryptDecrypt (lit "DOWNLOAD " ++ filename))
                 = ({| Server.pc := Server.AwaitStart filename file;
                       Server.isAuthenticated := true;
                       Server.files := Server.files st |},
                    [Server.log (lit "Received command: "
                                 ++ lit "DOWNLOAD " ++ filename);
                     send_message (lit "OK_DOWNLOAD " ++ to_string announced)])).
  { rewrite (server_download_command indet st Hpc Hauth filename Hword Hfit).
    rewrite Hread, (tellg_end_in_range _ Hlen), Hauth. reflexivity. }
  assert (Hstart : Server.step indet
                     {| Server.pc := Server.AwaitStart filename file;
                        Server.isAuthenticated := true;
                        Server.files := Server.files st |}
                     (encryptDecrypt (lit "START"))
                   = (st,
                      map send_message blocks
                      ++ [Server.log (lit "Finished sending " ++ filename);
                          send_message (lit "DOWNLOAD_DONE")])).
  { unfold Server.step, Server.on_start. cbn [Server.pc].
    rewrite receive_sent by (vm_compute; lia). rewrite beq_refl. cbn [negb].
    unfold Server.next_command. cbn [Server.isAuthenticated Server.files].
    rewrite <- Hauth, <- Hpc. now rewrite server_state_eta. }
  unfold result.
  rewrite server_run_cons_snd, !server_run_cons_fst, Hcmd. cbn [fst snd].
  rewrite server_run_cons_snd, Hstart. cbn [fst snd Server.run].
  split; [|split; [|reflexivity]].
  - rewrite app_nil_r. cbn [app]. rewrite transmitted_log.
    cbn [transmitted send_message].
    rewrite is_empty_encryptDecrypt, is_empty_app by discriminate.
    f_equal. rewrite transmitted_app, transmitted_blocks
      by (apply blocks_nonempty; exact Hbuf).
    reflexivity.
  - unfold total_length, blocks. now rewrite (read_blocks_concat _ Hbuf).
Qed.

(** X20: a size that does not start with a digit or a sign is read as
    0 by [ss >> fileSize]: the server creates the file empty and reports
    [UPLOAD_SUCCESS] at once, without reading any content. *)
Theorem X20_unreadable_size_counts_as_zero
        (indet : Z) (st : Server.state) (filename : bytes)
        (c : byte) (size_rest : bytes) :
  Server.pc st = Server.AwaitCommand ->
  Server.isAuthenticated st = true ->
  is_word filename ->
  isspace c = false -> isdigit c = false ->
  c <> "-"%char -> c <> "+"%char ->
  open_write (Server.files st) filename <> None ->
  let cmd := lit "UPLOAD " ++ filename ++ lit " " ++ c :: size_rest in
  length cmd <= BUFFER_SIZE ->
  let result := Server.step indet st (encryptDecrypt cmd) in
  transmitted (snd result)
    = [encryptDecrypt (lit "OK_UPLOAD"); encryptDecrypt (lit "UPLOAD_SUCCESS")] /\
  Server.pc (fst result) = Server.AwaitCommand /\
  content_of (Server.files (fst result)) filename = Some [].
Proof.
  intros Hpc Hauth Hword Hspace Hdigit Hminus Hplus Hwritable cmd Hfit result.
  destruct (open_write (Server.files st) filename) as [fs1|] eqn:Hopen;
    [clear Hwritable | congruence].
  assert (Hsize : get_ll {| unread := " "%char :: c :: size_rest;
                            failed := false |} = Some 0%Z).
  { unfold get_ll. cbn [failed unread skip_ws].
    replace (isspace " "%char) with true by reflexivity. cbv iota.
    cbn [skip_ws]. rewrite Hspace.
    rewrite (proj2 (Ascii.eqb_neq c "-"%char) Hminus).
    rewrite (proj2 (Ascii.eqb_neq c "+"%char) Hplus).
    cbn [span_digits]. rewrite Hdigit. reflexivity. }
  assert (Hstep : result
                  = ({| Server.pc := Server.AwaitCommand;
                        Server.isAuthenticated := true; Server.files := fs1 |},
                     [Server.log (lit "Received command: " ++ cmd);
                      send_message (lit "OK_UPLOAD");
                      Server.log (lit "Successfully received " ++ filename);
                      send_message (lit "UPLOAD_SUCCESS")])).
  { unfold result, Server.step, Server.on_command.
    rewrite Hpc, (receive_sent _ Hfit).
    change cmd with (lit "UPLOAD" ++ " "%char :: filename
                     ++ " "%char :: c :: size_rest).
    rewrite is_empty_word_app by (apply literal_word; reflexivity).
    rewrite get_word_app;
      [| apply literal_word; reflexivity | apply delimited_blank].
    unfold Server.dispatch. rewrite Hauth. cbn [negb].
    change (beq (lit "UPLOAD") (lit "LIST")) with false.
    change (beq (lit "UPLOAD") (lit "DOWNLOAD")) with false.
    rewrite beq_refl. cbv iota.
    rewrite get_word_next; [| exact Hword | apply delimited_blank].
    rewrite Hsize, Hopen. unfold Server.upload_while, Server.upload_finish.
    cbn [Z.ltb Z.eqb Z.compare]. unfold Server.next_command. rewrite Hauth.
    reflexivity. }
  rewrite Hstep. cbn [fst snd Server.pc Server.files].
  split; [reflexivity|]. split; [reflexivity|].
  exact (content_of_open_write _ _ _ Hopen).
Qed.

(** ** A directory given as a file name *)


Section DirectoryAsFile.

Variables ci si : Z.
Variables cfs sfs : FS.
Variable filename : bytes.
Hypothesis filename_word : is_word filename.
Hypothesis filename_fits : length filename + 27 <= BUFFER_SIZE.
Hypothesis filename_directory : names_directory filename = true.


End DirectoryAsFile.

(** * The further properties at concrete inputs *)

(** X3 for a command the server does not have. *)
Lemma X3_on_a_delete_command :
  Server.step 0 (awaiting true root_ab) (encryptDecrypt (lit "DELETE a.txt"))
  = (awaiting true root_ab,
     [Server.log (lit "Received command: "
                  ++ receive (encryptDecrypt (lit "DELETE a.txt")));
      send_message (lit "ERROR Unknown command.")]).
Proof.
  apply (X3_unknown_command 0 (awaiting true root_ab)
           (encryptDecrypt (lit "DELETE a.txt")));
    closed_fact.
Defined.

(** X4 for QUIT followed by a LIST the session never reads. *)
Lemma X4_on_quit_then_list :
  let closed :=
    fst (Server.step 0 (awaiting true root_ab) (encryptDecrypt (lit "QUIT"))) in
  Server.pc closed = Server.Closed /\
  Server.files closed = root_ab /\
  transmitted
    (snd (Server.step 0 (awaiting true root_ab) (encryptDecrypt (lit "QUIT"))))
    = [] /\
  Server.run 0 closed [encryptDecrypt (lit "LIST")] = (closed, []).
Proof.
  apply (X4_quit_closes_the_session 0 (awaiting true root_ab)
           (encryptDecrypt (lit "QUIT")) [encryptDecrypt (lit "LIST")]);
    closed_fact.
Defined.

(** X5 for a disconnect in the middle of an upload. *)
Lemma X5_on_a_disconnect_during_an_upload :
  let final :=
    fst (Server.run 0 (receiving (lit "a.txt") 10 true root_ab 3) [[]; []]) in
  Server.pc final = Server.Closed /\
  Server.files final = root_ab /\
  Server.isAuthenticated final = true.
Proof.
  apply (X5_disconnect_ends_the_session 0
           (receiving (lit "a.txt") 10 true root_ab 3)).
  discriminate.
Defined.

(** X6 for a rejected AUTH sent in an authenticated session. *)
Lemma X6_on_a_rejected_second_login :
  Server.isAuthenticated
    (fst (Server.run 0 (awaiting true root_ab)
            [encryptDecrypt (lit "AUTH user wrong");
             encryptDecrypt (lit "LIST")]))
  = true.
Proof.
  apply (X6_authentication_is_permanent 0
           [encryptDecrypt (lit "AUTH user wrong"); encryptDecrypt (lit "LIST")]
           (awaiting true root_ab)).
  reflexivity.
Defined.

(** X7 for an upload attempted before authentication. *)
Lemma X7_on_an_early_upload :
  let result :=
    Server.run 0 (Server.initial root_ab)
      [encryptDecrypt (lit "LIST");
       encryptDecrypt (lit "UPLOAD a.txt 0");
       encryptDecrypt (lit "AUTH user wrong")] in
  Server.files (fst result) = root_ab /\
  Forall gate_reply (transmitted (snd result)).
Proof.
  apply (X7_nothing_happens_before_authentication 0 root_ab
           [encryptDecrypt (lit "LIST");
            encryptDecrypt (lit "UPLOAD a.txt 0");
            encryptDecrypt (lit "AUTH user wrong")]).
  vm_compute. reflexivity.
Defined.

(** X8 for an upload to [./a.txt]: [b.txt] is as it was, and the file
    emptied is [a.txt]. *)
Lemma X8_on_the_other_file :
  let st1 :=
    fst (Server.step 0 (awaiting true root_ab)
           (encryptDecrypt (lit "UPLOAD ./a.txt 0"))) in
  content_of (Server.files st1) (lit "b.txt") = Some (lit "second") /\
  content_of (Server.files st1) (lit "a.txt") = Some [] /\
  map fst (entries (Server.files st1)) = [lit "a.txt"; lit "b.txt"].
Proof.
  split; [| split; reflexivity].
  rewrite (X8_only_the_upload_target_is_written 0 (awaiting true root_ab)
             (encryptDecrypt (lit "UPLOAD ./a.txt 0")) (lit "b.txt")).
  - reflexivity.
  - vm_compute. discriminate.
  - vm_compute. discriminate.
Defined.

(** X9 for an upload of 5 bytes over [a.txt], cut before any content. *)
Lemma X9_on_a_replacement_cut_short :
  let cmd := lit "UPLOAD " ++ lit "a.txt" ++ lit " " ++ to_string 5 in
  let result :=
    Server.run 0 (awaiting true root_ab) [encryptDecrypt cmd; []] in
  content_of root_ab (lit "a.txt") = Some (lit "first") /\
  transmitted (snd result)
    = [encryptDecrypt (lit "OK_UPLOAD");
       encryptDecrypt (lit "ERROR Upload incomplete.")] /\
  content_of (Server.files (fst result)) (lit "a.txt") = Some [].
Proof.
  intros cmd result.
  destruct (X9_failed_upload_loses_the_previous_file 0 (awaiting true root_ab)
              (lit "a.txt") 5)
    as (_ & Hsent & _ & Hfile).
  - reflexivity.
  - reflexivity.
  - word_fact.
  - split; [reflexivity | discriminate].
  - vm_compute. discriminate.
  - vm_compute. lia.
  - split; [reflexivity|]. split; [exact Hsent | exact Hfile].
Defined.

(** X10 for two rejected pairs followed by an accepted one: the loop
    ends authenticated, and so does the server. *)
Lemma X10_on_the_third_attempt :
  let typed := [(lit "user", lit "wrong"); (lit "nobody", lit "pass123");
                (lit "admin", lit "adminpass")] in
  let ok := fst (login 0 (Server.initial root_ab) typed) in
  let st1 := snd (login 0 (Server.initial root_ab) typed) in
  ok = true /\
  Server.isAuthenticated st1 = true /\
  map (fun pair => credentials_accepted (fst pair) (snd pair)) typed
    = [false; false; true] /\
  Server.pc st1 = Server.AwaitCommand /\
  Server.files st1 = root_ab.
Proof.
  intros typed ok st1.
  destruct (X10_login_loop_agrees_with_the_server 0 typed (Server.initial root_ab))
    as (Hflag & Hok & Hpc & Hfiles).
  - reflexivity.
  - reflexivity.
  - repeat constructor; vm_compute; lia.
  - assert (Htrue : ok = true) by (unfold ok; rewrite Hok; reflexivity).
    split; [exact Htrue|].
    split; [unfold st1; rewrite Hflag; exact Htrue|].
    split; [reflexivity|]. split; [exact Hpc | exact Hfiles].
Defined.

(** X11 for a password line with more words after the password. *)
Lemma X11_on_a_password_with_a_tail :
  fst (exchange 0 (Server.initial root_ab) (lit "user")
         (lit "pass123" ++ lit " and more"))
    = Server.authenticate (lit "user") (lit "pass123") /\
  Server.isAuthenticated
    (snd (exchange 0 (Server.initial root_ab) (lit "user")
            (lit "pass123" ++ lit " and more")))
    = Server.authenticate (lit "user") (lit "pass123").
Proof.
  apply (X11_text_after_the_password_is_ignored 0 (Server.initial root_ab)
           (lit "user") (lit "pass123") (lit " and more")).
  - reflexivity.
  - reflexivity.
  - word_fact.
  - word_fact.
  - reflexivity.
  - vm_compute. lia.
Defined.

(** X13 for a download of 10 bytes that loses its connection after 5. *)
Lemma X13_on_five_bytes_of_ten :
  let result :=
    Client.run 0 (downloading (lit "a.txt") 10 (holding (lit "a.txt") []) 0)
      ([encryptDecrypt (lit "first")] ++ [[]]) in
  Client.pc (fst result) = Client.Prompt /\
  content_of (Client.files (fst result)) (lit "a.txt") = Some (lit "first").
Proof.
  intros result.
  destruct (X13_interrupted_download_leaves_a_partial_file 0 (lit "a.txt") 10
              (holding (lit "a.txt") []) [] [encryptDecrypt (lit "first")])
    as (Hstate & _ & Hfile).
  - reflexivity.
  - discriminate.
  - repeat constructor. vm_compute. discriminate.
  - reflexivity.
  - split; [| exact Hfile].
    unfold result. now rewrite Hstate.
Defined.

(** X14 for [c.txt], which the server does not hold. *)
Lemma X14_on_a_file_the_server_lacks :
  exists final,
    runs_to 0 0 (session empty_store root_ab [lit "download " ++ lit "c.txt"])
            final /\
    server final = awaiting true root_ab /\
    sent_by TheServer final = [encryptDecrypt (lit "ERROR File not found.")] /\
    to_client final = [] /\ to_server final = [].
Proof.
  destruct (X14_download_of_a_missing_file 0 0 empty_store root_ab (lit "c.txt"))
    with (key := lit "c.txt")
    as (final & Hrun & _ & Hserver & Hsent & _ & Hin & Hout).
  - word_fact.
  - vm_compute. lia.
  - reflexivity.
  - reflexivity.
  - exists final. split; [exact Hrun|]. split; [exact Hserver|].
    split; [exact Hsent|]. split; [exact Hin | exact Hout].
Defined.

(** X15 for [c.txt], which the client does not hold. *)
Lemma X15_on_a_file_the_client_lacks :
  exists final,
    runs_to 0 0 (session empty_store root_ab [lit "upload " ++ lit "c.txt"])
            final /\
    sent_by TheClient final = [] /\ sent_by TheServer final = [].
Proof.
  destruct (X15_upload_of_a_missing_file 0 0 empty_store root_ab (lit "c.txt"))
    with (key := lit "c.txt")
    as (final & Hrun & _ & _ & Hclient & Hserver & _).
  - word_fact.
  - reflexivity.
  - reflexivity.
  - exists final. split; [exact Hrun|]. split; [exact Hclient | exact Hserver].
Defined.

(** X16 for a storage root where [a.txt] cannot be created. *)
Lemma X16_on_a_read_only_root :
  exists final,
    runs_to 0 0
      (session (holding (lit "a.txt") (lit "new"))
               {| entries := []; read_only := [lit "a.txt"] |}
               [lit "upload " ++ lit "a.txt"]) final /\
    sent_by TheClient final
      = [encryptDecrypt (lit "UPLOAD " ++ lit "a.txt" ++ lit " " ++ to_string 3)] /\
    sent_by TheServer final
      = [encryptDecrypt (lit "ERROR Cannot create file.")].
Proof.
  destruct (X16_upload_the_server_cannot_store 0 0
              (holding (lit "a.txt") (lit "new"))
              {| entries := []; read_only := [lit "a.txt"] |}
              (lit "a.txt"))
    with (content := lit "new")
    as (final & Hrun & _ & _ & Hclient & Hserver & _).
  - word_fact.
  - vm_compute. lia.
  - reflexivity.
  - vm_compute. discriminate.
  - reflexivity.
  - exists final. split; [exact Hrun|]. split; [exact Hclient | exact Hserver].
Defined.

(** X17 for a root of 400 files, whose listing takes more than one
    buffer. *)
Lemma X17_on_400_files :
  let sfs := {| entries := map (fun i => (lit "file-" ++ ramp i, [])) (seq 0 400);
                read_only := [] |} in
  exists final,
    runs_to 0 0 (session empty_store sfs [lit "list"]) final /\
    to_client final
      = [skipn BUFFER_SIZE (encryptDecrypt (Server.file_list sfs))].
Proof.
  intros sfs.
  destruct (X17_a_long_listing_is_cut 0 0 empty_store sfs)
    as (final & Hrun & _ & _ & _ & _ & Hlong).
  exists final. split; [exact Hrun|].
  apply Hlong. apply Nat.ltb_lt. vm_compute. reflexivity.
Defined.

(** X18 for a file of 5000 bytes, accepted and turned down. *)
Lemma X18_on_5000_bytes :
  let st := {| Client.pc := Client.UploadAwaitOk (lit "a.txt") (ramp 5000) 5000;
               Client.files := empty_store |} in
  transmitted (snd (Client.step 0 st (encryptDecrypt (lit "OK_UPLOAD"))))
    = map encryptDecrypt (read_blocks (BUFFER_SIZE / 2) (ramp 5000)) /\
  transmitted
    (snd (Client.step 0 st (encryptDecrypt (lit "ERROR Cannot create file."))))
    = [].
Proof.
  intros st.
  destruct (X18_upload_sender 0 empty_store (lit "a.txt") (ramp 5000) 5000
              (encryptDecrypt (lit "OK_UPLOAD")))
    as (Hok & _).
  destruct (X18_upload_sender 0 empty_store (lit "a.txt") (ramp 5000) 5000
              (encryptDecrypt (lit "ERROR Cannot create file.")))
    as (_ & Hother).
  split.
  - apply Hok. vm_compute. reflexivity.
  - unfold st. rewrite Hother; [reflexivity|]. vm_compute. discriminate.
Defined.

(** X19 for [a.txt] of the sample root: 5 bytes announced, 5 sent. *)
Lemma X19_on_a_file_of_5_bytes :
  let result :=
    Server.run 0 (awaiting true root_ab)
      [encryptDecrypt (lit "DOWNLOAD " ++ lit "a.txt");
       encryptDecrypt (lit "START")] in
  transmitted (snd result)
    = encryptDecrypt (lit "OK_DOWNLOAD " ++ to_string 5)
      :: map encryptDecrypt (read_blocks BUFFER_SIZE (lit "first"))
      ++ [encryptDecrypt (lit "DOWNLOAD_DONE")] /\
  total_length (read_blocks BUFFER_SIZE (lit "first")) = 5%Z.
Proof.
  intros result.
  destruct (X19_announced_size_is_the_size_streamed 0 (awaiting true root_ab)
              (lit "a.txt") (lit "first"))
    as (Hsent & Htotal & _).
  - reflexivity.
  - reflexivity.
  - word_fact.
  - vm_compute. lia.
  - reflexivity.
  - discriminate.
  - split; [exact Hsent | exact Htotal].
Defined.

(** X20 for the size [xyz]. *)
Lemma X20_on_a_size_of_letters :
  let result :=
    Server.step 0 (awaiting true root_ab)
      (encryptDecrypt (lit "UPLOAD " ++ lit "a.txt" ++ lit " " ++ lit "xyz")) in
  transmitted (snd result)
    = [encryptDecrypt (lit "OK_UPLOAD"); encryptDecrypt (lit "UPLOAD_SUCCESS")] /\
  Server.pc (fst result) = Server.AwaitCommand /\
  content_of (Server.files (fst result)) (lit "a.txt") = Some [].
Proof.
  apply (X20_unreadable_size_counts_as_zero 0 (awaiting true root_ab)
           (lit "a.txt") "x"%char (lit "yz")).
  - reflexivity.
  - reflexivity.
  - word_fact.
  - reflexivity.
  - reflexivity.
  - discriminate.
  - discriminate.
  - vm_compute. discriminate.
  - vm_compute. lia.
Defined.

